(** * Risk scoring core of safe-sight: geometry, frame risk, aggregation,
      violation summary and the analysis loop.

    Sources embedded here:
      - [src/utils/riskLogic.ts]  ([iou], [getCenter], [distance],
        [computeFrameRisk], [aggregateVideoRisk], [generateViolations]);
      - the analysis pipeline appended to [src/types/index.ts]
        ([analyzeVideo], [quickAnalyze], [deepAnalyze]) together with the
        type declarations of that file;
      - the detection simulator kept in [src/utils/api.ts]
        ([simulateYoloDetection], [getScenarioForFrame],
        [formatDetectionSummary]) and the progress listener of
        [uploadForAnalysis];
      - the stage computation of [LoadingOverlay] ([src/App.tsx]).

    Numbers.  A TypeScript [number] is modelled as follows.
      - Box coordinates and frame dimensions are finite and are rationals
        ([Q]); sums, differences and products of them are exact.
      - Counts, frame scores, the frame cap and the frame stride are
        integers ([Z]): the counts are array lengths, the scores are sums
        of the integer increments 3, 5, 20 and 30, and the callers pass
        the pairs (50, 3), (20, 5) and (100, 2) for cap and stride.
      - The result of a quotient [a / b] whose divisor is not a non-zero
        literal has type [number], which adds [NaN] and the two infinities
        to the rationals, so that a zero divisor is visible in the model
        instead of being hidden by a total division.
      - [Math.sqrt] of a rational is kept symbolically ([surd]); the only
        use the code makes of it is one comparison with a rational, which
        is related to the real square root in [surd_lt_sqrt].
    This is the arithmetic of the embedding and of the properties that do
    not depend on the last bit of a result.  Where the running code decides
    on a rounded value (the two thresholds of the frame risk and the
    rounding of the progress percentage) the embedding is repeated in
    module [Binary64], in which every operation rounds its exact result to
    binary64; the rounding is written out on the rationals and checked
    against the primitive binary64 numbers.  Signed zeros are not
    represented.

    Effects.  [analyzeVideo] is sequential: its [await] only yields between
    frames.  The calls to [onProgress] are recorded as the list of their
    arguments; the detection source, which draws random numbers, is a
    function from the frame index to the detections it returned there;
    [console.log] and the [file] argument, used only for logging, are left
    out.  In the simulator [Math.random] is the sequence of the values it
    returns, read by a state-passing computation ([Rand]) that counts the
    calls, and [Math.sin] is a function parameter.

    The file has two parts: the embedding of the code followed by the
    vocabulary the properties are stated in, then the properties. *)

From Stdlib Require Import Reals Qreals Lra.
From Stdlib Require Import ZArith QArith Qround Qminmax List String Bool Lia Lqa.
From Stdlib Require Import Permutation Sorted DecimalString Qabs Qpower.
From Stdlib Require PrimFloat FloatOps SpecFloat Uint63.
Import ListNotations.
Local Open Scope Q_scope.

(* ------------------------------------------------------------------ *)
(** ** JavaScript numbers *)

Module JS.

Inductive number : Type :=
| Fin (q : Q)
| PosInf
| NegInf
| NaN.

Definition of_Z (z : Z) : number := Fin (inject_Z z).

Definition Qltb (x y : Q) : bool := negb (Qle_bool y x).

(** Sign of a finite operand, a zero counting as positive. *)
Definition nonneg (q : Q) : bool := Qle_bool 0 q.

(** [a / b]. *)
Definition div (a b : number) : number :=
  match a, b with
  | NaN, _ | _, NaN => NaN
  | Fin x, Fin y =>
      if Qeq_bool y 0
      then if Qltb 0 x then PosInf else if Qltb x 0 then NegInf else NaN
      else Fin (x / y)
  | Fin _, (PosInf | NegInf) => Fin 0
  | PosInf, Fin y => if nonneg y then PosInf else NegInf
  | NegInf, Fin y => if nonneg y then NegInf else PosInf
  | (PosInf | NegInf), (PosInf | NegInf) => NaN
  end.

(** [a * b]. *)
Definition mul (a b : number) : number :=
  match a, b with
  | NaN, _ | _, NaN => NaN
  | Fin x, Fin y => Fin (x * y)
  | Fin x, PosInf | PosInf, Fin x =>
      if Qeq_bool x 0 then NaN else if Qltb 0 x then PosInf else NegInf
  | Fin x, NegInf | NegInf, Fin x =>
      if Qeq_bool x 0 then NaN else if Qltb 0 x then NegInf else PosInf
  | PosInf, PosInf | NegInf, NegInf => PosInf
  | PosInf, NegInf | NegInf, PosInf => NegInf
  end.

(** [a < b]; false as soon as one side is [NaN]. *)
Definition lt (a b : number) : bool :=
  match a, b with
  | NaN, _ | _, NaN => false
  | Fin x, Fin y => Qltb x y
  | NegInf, (Fin _ | PosInf) => true
  | Fin _, PosInf => true
  | _, _ => false
  end.

(** [a > b]. *)
Definition gt (a b : number) : bool := lt b a.

(** [Math.round] on a rational: the nearest integer, a tie going up. *)
Definition round (q : Q) : Z := Qfloor (q + (1 # 2)).

(** [Math.round(a)]. *)
Definition Math_round (a : number) : number :=
  match a with
  | Fin q => of_Z (round q)
  | other => other
  end.

(** [Math.min(a, b)]. *)
Definition Math_min (a b : number) : number :=
  match a, b with
  | NaN, _ | _, NaN => NaN
  | NegInf, _ | _, NegInf => NegInf
  | PosInf, other | other, PosInf => other
  | Fin x, Fin y => if Qle_bool x y then Fin x else Fin y
  end.

(** [Math.max(...xs)] and [Math.min(...xs)] for an array of integers. *)
Definition Math_max_spread (xs : list Z) : number :=
  match xs with
  | [] => NegInf
  | x :: rest => of_Z (fold_left Z.max rest x)
  end.

Definition Math_min_spread (xs : list Z) : number :=
  match xs with
  | [] => PosInf
  | x :: rest => of_Z (fold_left Z.min rest x)
  end.

(** Two numbers denote the same value. *)
Definition eqv (a b : number) : Prop :=
  match a, b with
  | Fin x, Fin y => x == y
  | PosInf, PosInf | NegInf, NegInf | NaN, NaN => True
  | _, _ => False
  end.

(** [Math.sqrt(q)], kept as the radicand. *)
Record surd : Type := Math_sqrt { radicand : Q }.

(** [Math.sqrt(r) < t]: the root of a negative number is [NaN], which is
    below nothing; a non-negative root is below [t] exactly when [t] is
    positive and the radicand is below its square. *)
Definition surd_lt (s : surd) (t : Q) : bool :=
  Qle_bool 0 (radicand s) && Qltb 0 t && Qltb (radicand s) (t * t).

End JS.

Import JS.

(* ------------------------------------------------------------------ *)
(** ** Types ([src/types/index.ts]) *)

Definition BBox : Type := (Q * Q * Q * Q)%type.   (* [x1, y1, x2, y2] *)
Definition Point : Type := (Q * Q)%type.

Record Detection : Type := mkDetection {
  className : string;
  confidence : Q;
  bbox : BBox;
  classId : Z;
  center : Point
}.

Record FrameAnalysis : Type := mkFrameAnalysis {
  frameIndex : Z;
  score : Z;
  detections : list Detection;
  vehicleCount : Z;
  personCount : Z;
  overlaps : Z;
  proximityRisks : Z
}.

Inductive Severity : Type := low | medium | high.

Record ViolationData : Type := mkViolation {
  type : string;
  count : number;
  severity : Severity
}.

Inductive RiskLevel : Type := LOW | MEDIUM | HIGH | CRITICAL.

Definition VEHICLE_CLASSES : list string :=
  ["car"; "motorcycle"; "bus"; "truck"; "bicycle"]%string.

(** [arr.includes(s)] *)
Definition includes (arr : list string) (s : string) : bool :=
  existsb (String.eqb s) arr.

(* ------------------------------------------------------------------ *)
(** ** Geometry kernel ([src/utils/riskLogic.ts]) *)

Definition interArea (boxA boxB : BBox) : Q :=
  let '(a0, a1, a2, a3) := boxA in
  let '(b0, b1, b2, b3) := boxB in
  let xA := Qmax a0 b0 in
  let yA := Qmax a1 b1 in
  let xB := Qmin a2 b2 in
  let yB := Qmin a3 b3 in
  let interW := Qmax 0 (xB - xA) in
  let interH := Qmax 0 (yB - yA) in
  interW * interH.

Definition boxArea (box : BBox) : Q :=
  let '(x1, y1, x2, y2) := box in (x2 - x1) * (y2 - y1).

Definition iou (boxA boxB : BBox) : number :=
  let interArea := interArea boxA boxB in
  if Qeq_bool interArea 0 then Fin 0
  else
    let boxAArea := boxArea boxA in
    let boxBArea := boxArea boxB in
    div (Fin interArea) (Fin (boxAArea + boxBArea - interArea)).

Definition getCenter (box : BBox) : Point :=
  let '(x1, y1, x2, y2) := box in ((x1 + x2) / 2, (y1 + y2) / 2).

Definition pow2 (x : Q) : Q := x * x.

Definition distance (p1 p2 : Point) : surd :=
  Math_sqrt (pow2 (fst p1 - fst p2) + pow2 (snd p1 - snd p2)).

(* ------------------------------------------------------------------ *)
(** ** Frame risk evaluator *)

(** The three counters the loops of [computeFrameRisk] update. *)
Record Counters : Type := mkCounters {
  c_score : Z;
  c_overlaps : Z;
  c_proximityRisks : Z
}.

(** [for (let k = start; k < stop; k++) st = body(k, st)] *)
Definition for_range {S : Type} (start stop : nat) (body : nat -> S -> S)
  (st : S) : S :=
  fold_left (fun s k => body k s) (seq start (stop - start)) st.

(** [for (const x of xs) st = body(x, st)] *)
Definition for_of {A S : Type} (xs : list A) (body : A -> S -> S)
  (st : S) : S :=
  fold_left (fun s x => body x s) xs st.

(** Body of the inner loop of step 2, at indices [i] and [j]. *)
Definition overlap_step (vehicles : list Detection) (i j : nat)
  (st : Counters) : Counters :=
  match nth_error vehicles i, nth_error vehicles j with
  | Some vi, Some vj =>
      if gt (iou (bbox vi) (bbox vj)) (Fin (1 # 10))
      then mkCounters (c_score st + 20) (c_overlaps st + 1) (c_proximityRisks st)
      else st
  | _, _ => st   (* indices are always below [vehicles.length] *)
  end.

(** Body of the inner loop of step 3, at vehicle [v] and person [p]. *)
Definition proximity_step (frameWidth frameHeight : Q) (v p : Detection)
  (st : Counters) : Counters :=
  let '(cx_v, cy_v) := getCenter (bbox v) in
  let '(cx_p, cy_p) := getCenter (bbox p) in
  let dist := distance (cx_v, cy_v) (cx_p, cy_p) in
  if Qltb (frameHeight * (1 # 2)) cy_p && surd_lt dist (frameWidth * (2 # 10))
  then mkCounters (c_score st + 30) (c_overlaps st) (c_proximityRisks st + 1)
  else st.

Definition computeFrameRisk (detections : list Detection)
  (frameWidth frameHeight : Q) : FrameAnalysis :=
  let st := mkCounters 0 0 0 in
  let vehicles :=
    filter (fun d => includes VEHICLE_CLASSES (className d)) detections in
  let persons :=
    filter (fun d => String.eqb (className d) "person") detections in
  (* 1) base score *)
  let st := mkCounters (c_score st + 3 * Z.of_nat (List.length vehicles))
                       (c_overlaps st) (c_proximityRisks st) in
  let st := mkCounters (c_score st + 5 * Z.of_nat (List.length persons))
                       (c_overlaps st) (c_proximityRisks st) in
  (* 2) vehicle-vehicle overlap *)
  let st :=
    for_range 0 (List.length vehicles) (fun i =>
      for_range (i + 1) (List.length vehicles) (fun j =>
        overlap_step vehicles i j)) st in
  (* 3) vehicle-person proximity in the lower half *)
  let st :=
    for_of vehicles (fun v =>
      for_of persons (fun p =>
        proximity_step frameWidth frameHeight v p)) st in
  (* clamp *)
  let score := Z.max 0 (Z.min (c_score st) 100) in
  {| frameIndex := 0;
     score := score;
     detections := detections;
     vehicleCount := Z.of_nat (List.length vehicles);
     personCount := Z.of_nat (List.length persons);
     overlaps := c_overlaps st;
     proximityRisks := c_proximityRisks st |}.

(* ------------------------------------------------------------------ *)
(** ** Video aggregator *)

Record VideoRisk : Type := mkVideoRisk {
  riskLevel : RiskLevel;
  riskScore : number
}.

(** [xs.reduce((a, b) => a + b, 0)] *)
Definition sum_scores (xs : list Z) : Z := fold_left Z.add xs 0%Z.

Definition aggregateVideoRisk (frameScores : list Z) : VideoRisk :=
  if Nat.eqb (List.length frameScores) 0 then mkVideoRisk LOW (of_Z 0)
  else
    let avgScore :=
      div (of_Z (sum_scores frameScores))
          (of_Z (Z.of_nat (List.length frameScores))) in
    let level :=
      if lt avgScore (of_Z 20) then LOW
      else if lt avgScore (of_Z 50) then MEDIUM
      else if lt avgScore (of_Z 75) then HIGH
      else CRITICAL in
    mkVideoRisk level (Math_round avgScore).

(* ------------------------------------------------------------------ *)
(** ** Violation summarizer *)

(** [frameAnalyses.reduce((sum, f) => sum + field(f), 0)] *)
Definition sum_field (field : FrameAnalysis -> Z)
  (frameAnalyses : list FrameAnalysis) : Z :=
  fold_left (fun sum f => (sum + field f)%Z) frameAnalyses 0%Z.

(** [violations.push(v)] *)
Definition push {A : Type} (xs : list A) (x : A) : list A := xs ++ [x].

Definition generateViolations (frameAnalyses : list FrameAnalysis)
  (avgScore : number) : list ViolationData :=
  let violations : list ViolationData := [] in
  let n := of_Z (Z.of_nat (List.length frameAnalyses)) in
  let totalOverlaps := sum_field overlaps frameAnalyses in
  let totalProximity := sum_field proximityRisks frameAnalyses in
  let avgVehicles := div (of_Z (sum_field vehicleCount frameAnalyses)) n in
  let avgPersons := div (of_Z (sum_field personCount frameAnalyses)) n in
  let violations :=
    if (totalOverlaps >? 0)%Z
    then push violations
           (mkViolation "Vehicle Near-Collisions" (of_Z totalOverlaps)
              (if (totalOverlaps >? 5)%Z then high
               else if (totalOverlaps >? 2)%Z then medium else low))
    else violations in
  let violations :=
    if (totalProximity >? 0)%Z
    then push violations
           (mkViolation "Pedestrian Proximity Risks" (of_Z totalProximity) high)
    else violations in
  let violations :=
    if gt avgVehicles (of_Z 8)
    then push violations
           (mkViolation "High Traffic Congestion" (Math_round avgVehicles)
              (if gt avgVehicles (of_Z 15) then high else medium))
    else violations in
  let violations :=
    if gt avgPersons (of_Z 5)
    then push violations
           (mkViolation "Crowded Pedestrian Area" (Math_round avgPersons)
              (if gt avgPersons (of_Z 10) then high else medium))
    else violations in
  let highRiskFrames :=
    Z.of_nat (List.length (filter (fun f => (score f >? 60)%Z) frameAnalyses)) in
  let violations :=
    if (highRiskFrames >? 3)%Z
    then push violations
           (mkViolation "High-Risk Frame Clusters" (of_Z highRiskFrames) high)
    else violations in
  let violations :=
    if Nat.eqb (List.length violations) 0 && gt avgScore (of_Z 10)
    then push violations
           (mkViolation "General Traffic Activity" (Math_round avgScore) low)
    else violations in
  violations.

(* ------------------------------------------------------------------ *)
(** ** Analysis orchestrator ([analyzeVideo]) *)

Record FrameStats : Type := mkFrameStats {
  totalFrames : number;
  processedFrames : number;
  avgVehicles : number;
  avgPersons : number;
  maxScore : number;
  minScore : number
}.

Module AnalysisResult.
Record t : Type := mk {
  riskLevel : RiskLevel;
  riskScore : number;
  violations : list ViolationData;
  frameStats : FrameStats
}.
End AnalysisResult.

(** What the frame loop has accumulated: the two arrays, and the arguments
    of the calls made to [onProgress] so far, oldest first. *)
Record LoopState : Type := mkLoopState {
  frameAnalyses : list FrameAnalysis;
  frameScores : list Z;
  progressLog : list number
}.

(** [frameIndex % frameSkip !== 0] for integers, [frameIndex] not negative:
    the remainder has the sign of the dividend, and is [NaN] for a zero
    divisor. *)
Definition rem_ne0 (frameIndex frameSkip : Z) : bool :=
  if (frameSkip =? 0)%Z then true
  else negb (Z.rem frameIndex frameSkip =? 0)%Z.

(** [frameAnalysis.frameIndex = i] *)
Definition set_frameIndex (frameAnalysis : FrameAnalysis) (i : Z)
  : FrameAnalysis :=
  {| frameIndex := i;
     score := score frameAnalysis;
     detections := detections frameAnalysis;
     vehicleCount := vehicleCount frameAnalysis;
     personCount := personCount frameAnalysis;
     overlaps := overlaps frameAnalysis;
     proximityRisks := proximityRisks frameAnalysis |}.

Definition frameWidth : Q := 1920.
Definition frameHeight : Q := 1080.

Section Analysis.

(** The detection source: [detect frameIndex] is what
    [simulateYoloDetection(frameWidth, frameHeight, scenario)] returned in
    the iteration for [frameIndex].  It draws random numbers, so the run is
    a function of its outcomes. *)
Variable detect : Z -> list Detection.

Variables maxFrames frameSkip : Z.

Definition totalEstimatedFrames : Z := (maxFrames * frameSkip)%Z.

(** The [for] loop over [frameIndex], from the test of its condition.
    [None]: the iteration budget [fuel] was used up before the loop ended. *)
Fixpoint frame_loop (fuel : nat) (frameIndex : Z) (st : LoopState)
  : option LoopState :=
  if (frameIndex <? totalEstimatedFrames)%Z then
    match fuel with
    | O => None
    | S fuel' =>
        if rem_ne0 frameIndex frameSkip
        then frame_loop fuel' (frameIndex + 1)%Z st           (* continue *)
        else
          let progress :=
            Math_min (of_Z 95)
              (Math_round
                 (mul (div (of_Z frameIndex) (of_Z totalEstimatedFrames))
                      (of_Z 100))) in
          let log := push (progressLog st) progress in
          let detections := detect frameIndex in
          let frameAnalysis :=
            computeFrameRisk detections frameWidth frameHeight in
          let frameAnalysis := set_frameIndex frameAnalysis frameIndex in
          let st' :=
            mkLoopState (push (frameAnalyses st) frameAnalysis)
                        (push (frameScores st) (score frameAnalysis))
                        log in
          if (Z.of_nat (List.length (frameAnalyses st')) >=? maxFrames)%Z
          then Some st'                                        (* break *)
          else frame_loop fuel' (frameIndex + 1)%Z st'
    end
  else Some st.

(** The run: the calls made to [onProgress], oldest first, and the result. *)
Definition analyzeVideo : option (list number * AnalysisResult.t) :=
  match frame_loop (Z.to_nat totalEstimatedFrames) 0%Z (mkLoopState [] [] []) with
  | None => None
  | Some st =>
      let log := push (progressLog st) (of_Z 100) in
      let frameAnalyses := frameAnalyses st in
      let frameScores := frameScores st in
      if Nat.eqb (List.length frameAnalyses) 0
      then
        Some (log,
              AnalysisResult.mk LOW (of_Z 0) []
                (mkFrameStats (of_Z 0) (of_Z 0) (of_Z 0) (of_Z 0) (of_Z 0) (of_Z 0)))
      else
        let agg := aggregateVideoRisk frameScores in
        let violations := generateViolations frameAnalyses (riskScore agg) in
        let n := of_Z (Z.of_nat (List.length frameAnalyses)) in
        let avgVehicles := div (of_Z (sum_field vehicleCount frameAnalyses)) n in
        let avgPersons := div (of_Z (sum_field personCount frameAnalyses)) n in
        let maxScore := Math_max_spread frameScores in
        let minScore := Math_min_spread frameScores in
        Some (log,
              AnalysisResult.mk (riskLevel agg) (riskScore agg) violations
                (mkFrameStats
                   (of_Z totalEstimatedFrames)
                   n
                   (div (Math_round (mul avgVehicles (of_Z 10))) (of_Z 10))
                   (div (Math_round (mul avgPersons (of_Z 10))) (of_Z 10))
                   maxScore minScore))
  end.

End Analysis.

(* ------------------------------------------------------------------ *)
(** ** Vocabulary of the specification *)

Definition boxWidth (box : BBox) : Q := let '(x1, _, x2, _) := box in x2 - x1.
Definition boxHeight (box : BBox) : Q := let '(_, y1, _, y2) := box in y2 - y1.



(** The divisor of the quotient in [iou]. *)
Definition iou_divisor (boxA boxB : BBox) : Q :=
  boxArea boxA + boxArea boxB - interArea boxA boxB.

(** *** Frame risk, as the specification words it *)

Definition is_vehicle (d : Detection) : bool :=
  existsb (String.eqb (className d))
          ["car"; "motorcycle"; "bus"; "truck"; "bicycle"]%string.

Definition is_person (d : Detection) : bool :=
  String.eqb (className d) "person".

(** The unordered pairs of distinct positions of a list. *)
Fixpoint unordered_pairs {A : Type} (xs : list A) : list (A * A) :=
  match xs with
  | [] => []
  | x :: rest => map (pair x) rest ++ unordered_pairs rest
  end.

(** Two vehicles whose IoU exceeds 0.1. *)
Definition overlapping (pr : Detection * Detection) : bool :=
  gt (iou (bbox (fst pr)) (bbox (snd pr))) (Fin (1 # 10)).

(** The midpoint of a box. *)
Definition midpoint (box : BBox) : Point :=
  let '(x1, y1, x2, y2) := box in ((x1 + x2) / 2, (y1 + y2) / 2).

(** The Euclidean distance of two points is below [t]: [t] is positive and
    the sum of the squared differences of the coordinates is below the
    square of [t]. *)
Definition euclid_lt (p q : Point) (t : Q) : bool :=
  Qltb 0 t
  && Qltb ((fst p - fst q) * (fst p - fst q) + (snd p - snd q) * (snd p - snd q))
          (t * t).

(** A vehicle and a person: the midpoint of the person's box lies below
    the middle of the frame and the Euclidean distance of the midpoints of
    the two boxes is below 0.2 of the frame width. *)
Definition in_proximity (width height : Q) (pr : Detection * Detection) : bool :=
  let cv := midpoint (bbox (fst pr)) in
  let cp := midpoint (bbox (snd pr)) in
  Qltb (height / 2) (snd cp) && euclid_lt cv cp ((2 # 10) * width).

Definition count_if {A : Type} (p : A -> bool) (xs : list A) : Z :=
  Z.of_nat (List.length (filter p xs)).

Definition clamp (lo hi x : Z) : Z := Z.max lo (Z.min hi x).

Definition frame_risk_ref (dets : list Detection) (width height : Q)
  : FrameAnalysis :=
  let vehicles := filter is_vehicle dets in
  let persons := filter is_person dets in
  let n_overlap := count_if overlapping (unordered_pairs vehicles) in
  let n_prox :=
    count_if (in_proximity width height) (list_prod vehicles persons) in
  {| frameIndex := 0;
     score := clamp 0 100
                (3 * count_if is_vehicle dets + 5 * count_if is_person dets
                 + 20 * n_overlap + 30 * n_prox);
     detections := dets;
     vehicleCount := count_if is_vehicle dets;
     personCount := count_if is_person dets;
     overlaps := n_overlap;
     proximityRisks := n_prox |}.

(** One overlap incident, one proximity incident. *)
Definition bump_overlap (st : Counters) : Counters :=
  mkCounters (c_score st + 20) (c_overlaps st + 1) (c_proximityRisks st).

Definition bump_proximity (st : Counters) : Counters :=
  mkCounters (c_score st + 30) (c_overlaps st) (c_proximityRisks st + 1).

(** Step 2 of [computeFrameRisk] by recursion on the list of vehicles:
    each vehicle against the vehicles after it. *)
Fixpoint overlap_scan (vehicles : list Detection) (st : Counters) : Counters :=
  match vehicles with
  | [] => st
  | v :: rest =>
      overlap_scan rest
        (fold_left (fun s u => if overlapping (v, u) then bump_overlap s else s)
                   rest st)
  end.

(** *** Aggregation *)

Definition total (xs : list Z) : Z := fold_right Z.add 0%Z xs.

(** Arithmetic mean of a non-empty list of scores. *)
Definition mean (xs : list Z) : Q :=
  inject_Z (total xs) / inject_Z (Z.of_nat (List.length xs)).

(** The tier table, on the range of scores it is stated for. *)
Inductive tier_of (m : Q) : RiskLevel -> Prop :=
| tier_low : 0 <= m -> m < 20 -> tier_of m LOW
| tier_medium : 20 <= m -> m < 50 -> tier_of m MEDIUM
| tier_high : 50 <= m -> m < 75 -> tier_of m HIGH
| tier_critical : 75 <= m -> m <= 100 -> tier_of m CRITICAL.

(** The tier of a mean, as [aggregateVideoRisk] cuts it. *)
Definition level_of_mean (m : Q) : RiskLevel :=
  if Qltb m 20 then LOW
  else if Qltb m 50 then MEDIUM
  else if Qltb m 75 then HIGH
  else CRITICAL.

Definition level_rank (l : RiskLevel) : nat :=
  match l with LOW => 0 | MEDIUM => 1 | HIGH => 2 | CRITICAL => 3 end.

(** *** Violation rules *)

Definition total_of (field : FrameAnalysis -> Z) (fs : list FrameAnalysis) : Z :=
  total (map field fs).

Definition mean_of (field : FrameAnalysis -> Z) (fs : list FrameAnalysis) : Q :=
  mean (map field fs).

Definition rule1 (fs : list FrameAnalysis) : list ViolationData :=
  let n := total_of overlaps fs in
  if (0 <? n)%Z
  then [mkViolation "Vehicle Near-Collisions" (of_Z n)
          (if (5 <? n)%Z then high else if (2 <? n)%Z then medium else low)]
  else [].

Definition rule2 (fs : list FrameAnalysis) : list ViolationData :=
  let n := total_of proximityRisks fs in
  if (0 <? n)%Z
  then [mkViolation "Pedestrian Proximity Risks" (of_Z n) high]
  else [].

Definition rule3 (fs : list FrameAnalysis) : list ViolationData :=
  let m := mean_of vehicleCount fs in
  if Qltb 8 m
  then [mkViolation "High Traffic Congestion" (of_Z (round m))
          (if Qltb 15 m then high else medium)]
  else [].

Definition rule4 (fs : list FrameAnalysis) : list ViolationData :=
  let m := mean_of personCount fs in
  if Qltb 5 m
  then [mkViolation "Crowded Pedestrian Area" (of_Z (round m))
          (if Qltb 10 m then high else medium)]
  else [].

Definition rule5 (fs : list FrameAnalysis) : list ViolationData :=
  let n := count_if (fun f => (60 <? score f)%Z) fs in
  if (3 <? n)%Z
  then [mkViolation "High-Risk Frame Clusters" (of_Z n) high]
  else [].

Definition rule6 (fired : list ViolationData) (aggregate : Q)
  : list ViolationData :=
  match fired with
  | [] =>
      if Qltb 10 aggregate
      then [mkViolation "General Traffic Activity" (of_Z (round aggregate)) low]
      else []
  | _ :: _ => []
  end.

Definition violations_ref (fs : list FrameAnalysis) (aggregate : Q)
  : list ViolationData :=
  let fired := rule1 fs ++ rule2 fs ++ rule3 fs ++ rule4 fs ++ rule5 fs in
  fired ++ rule6 fired aggregate.

(** The six violation names in rule order, and the test that a list of
    names keeps that order (is a subsequence of it). *)
Definition rule_order : list string :=
  ["Vehicle Near-Collisions"; "Pedestrian Proximity Risks";
   "High Traffic Congestion"; "Crowded Pedestrian Area";
   "High-Risk Frame Clusters"; "General Traffic Activity"]%string.

Fixpoint subsequence (xs ys : list string) : bool :=
  match xs, ys with
  | [], _ => true
  | _ :: _, [] => false
  | x :: xs', y :: ys' =>
      if String.eqb x y then subsequence xs' ys' else subsequence xs ys'
  end.

(** *** Progress *)

(** The percentage the loop reports at [frameIndex]. *)
Definition progress_percent (totalFrames frameIndex : Z) : Z :=
  Z.min 95 (round (inject_Z frameIndex / inject_Z totalFrames * 100)).

(** What the progress callback receives in a run that analysed [frames]:
    the percentage of each frame, then 100. *)
Definition reported_percents (totalFrames : Z) (frames : list FrameAnalysis)
  : list Z :=
  map (fun f => progress_percent totalFrames (frameIndex f)) frames ++ [100%Z].

(** The same percentage without the rounding to an integer. *)
Definition progress_fraction (processed totalFrames : Z) : Q :=
  Qmin 95 (inject_Z processed / inject_Z totalFrames * 100).

(** The result of a run that processed no frame. *)
Definition degenerate_result : AnalysisResult.t :=
  AnalysisResult.mk LOW (of_Z 0) []
    (mkFrameStats (of_Z 0) (of_Z 0) (of_Z 0) (of_Z 0) (of_Z 0) (of_Z 0)).

Definition initial_state : LoopState := mkLoopState [] [] [].

(** A frame analysis as the loop body produces it at a retained index:
    the index is below the frame total and passes the stride test, and the
    record is the frame risk of the detections obtained at that index. *)
Definition retained (detect : Z -> list Detection) (frameSkip totalFrames : Z)
  (f : FrameAnalysis) : Prop :=
  (0 <= frameIndex f < totalFrames)%Z /\
  rem_ne0 (frameIndex f) frameSkip = false /\
  f = set_frameIndex
        (computeFrameRisk (detect (frameIndex f)) frameWidth frameHeight)
        (frameIndex f).

(** What holds of the loop state each time the loop condition is tested
    at index [i]: the scores and the reported percentages are those of the
    frames analysed so far, which are retained frames of increasing index
    below [i], and no index below [i] that passes the stride test was left
    out. *)
Definition loop_invariant (detect : Z -> list Detection)
  (frameSkip totalFrames i : Z) (st : LoopState) : Prop :=
  (0 <= i)%Z /\
  frameScores st = map score (frameAnalyses st) /\
  progressLog st =
    map (fun f => of_Z (progress_percent totalFrames (frameIndex f)))
        (frameAnalyses st) /\
  Forall (fun f => retained detect frameSkip totalFrames f /\ (frameIndex f < i)%Z)
         (frameAnalyses st) /\
  StronglySorted Z.lt (map frameIndex (frameAnalyses st)) /\
  (forall j, (0 <= j < i)%Z -> rem_ne0 j frameSkip = false ->
             In j (map frameIndex (frameAnalyses st))).

(** The number of multiples of the stride below [i], and the first
    [maxFrames] multiples of the stride. *)
Definition count_below (frameSkip i : Z) : Z := ((i + frameSkip - 1) / frameSkip)%Z.

Definition stride_indices (maxFrames frameSkip : Z) : list Z :=
  map (fun k => (Z.of_nat k * frameSkip)%Z) (seq 0 (Z.to_nat maxFrames)).

(** The frames a run analysed, in order, and the result it returned. *)
Definition processed_frames (detect : Z -> list Detection)
  (maxFrames frameSkip : Z) : option (list FrameAnalysis) :=
  option_map frameAnalyses
    (frame_loop detect maxFrames frameSkip
       (Z.to_nat (totalEstimatedFrames maxFrames frameSkip)) 0%Z initial_state).

Definition run_result (detect : Z -> list Detection)
  (maxFrames frameSkip : Z) : option AnalysisResult.t :=
  option_map snd (analyzeVideo detect maxFrames frameSkip).

(** *** Sample frames of a 1920 x 1080 video *)

Definition car_at (x : Q) : Detection :=
  mkDetection "car" (9 # 10) (x, 300, x + 160, 420) 2 (x + 80, 360).

Definition person_at (x : Q) : Detection :=
  mkDetection "person" (8 # 10) (x, 440, x + 60, 540) 0 (x + 30, 490).

(** Three cars and two pedestrians, no incident: score 19. *)
Definition frame_19 : list Detection :=
  [car_at 0; car_at 200; car_at 400; person_at 1000; person_at 1100].

(** Five cars and one pedestrian, no incident: score 20. *)
Definition frame_20 : list Detection :=
  [car_at 0; car_at 200; car_at 400; car_at 600; car_at 800; person_at 1000].

(** Detection sources: the first frame scores 19 and the later ones 20;
    every frame scores 19; every frame scores 20. *)
Definition detect_19_then_20 (frameIndex : Z) : list Detection :=
  if (frameIndex =? 0)%Z then frame_19 else frame_20.

Definition detect_19 (_ : Z) : list Detection := frame_19.
Definition detect_20 (_ : Z) : list Detection := frame_20.

(* ------------------------------------------------------------------ *)
(** ** Further vocabulary *)

(** *** Boxes *)




(** *** Violations and results *)

(** The count of a reported violation is an integer at least 1. *)
Definition positive_count (v : ViolationData) : Prop :=
  exists z, count v = of_Z z /\ (1 <= z)%Z.

(** The result [analyzeVideo] assembles from a non-empty list of frame
    analyses and their scores. *)
Definition assembled_result (maxFrames frameSkip : Z)
  (frames : list FrameAnalysis) (scores : list Z) : AnalysisResult.t :=
  let agg := aggregateVideoRisk scores in
  let n := of_Z (Z.of_nat (List.length frames)) in
  AnalysisResult.mk (riskLevel agg) (riskScore agg)
    (generateViolations frames (riskScore agg))
    (mkFrameStats
       (of_Z (totalEstimatedFrames maxFrames frameSkip))
       n
       (div (Math_round (mul (div (of_Z (sum_field vehicleCount frames)) n)
                             (of_Z 10))) (of_Z 10))
       (div (Math_round (mul (div (of_Z (sum_field personCount frames)) n)
                             (of_Z 10))) (of_Z 10))
       (Math_max_spread scores) (Math_min_spread scores)).

(** *** Entry points of the analysis ([src/types/index.ts]) *)

(** [quickAnalyze(file, onProgress)] and [deepAnalyze(file, onProgress)] *)
Definition quickAnalyze (detect : Z -> list Detection)
  : option (list number * AnalysisResult.t) :=
  analyzeVideo detect 20 5.

Definition deepAnalyze (detect : Z -> list Detection)
  : option (list number * AnalysisResult.t) :=
  analyzeVideo detect 100 2.

(** [analyzeVideo(file, onProgress)] with the default cap 50 and stride 3,
    as [App] calls it. *)
Definition analyzeVideo_default (detect : Z -> list Detection)
  : option (list number * AnalysisResult.t) :=
  analyzeVideo detect 50 3.

(** *** More sample frames *)

Definition traffic_light_at (x : Q) : Detection :=
  mkDetection "traffic light" (9 # 10) (x, 100, x + 40, 200) 9 (x + 20, 150).

(** A detection source that sees one car, and one that sees only traffic
    lights. *)
Definition detect_car (_ : Z) : list Detection := [car_at 0].
Definition detect_lights (_ : Z) : list Detection :=
  [traffic_light_at 100; traffic_light_at 900].

(** *** The loading overlay ([LoadingOverlay], a consumer of the progress) *)

(** [a >= b]; false as soon as one side is [NaN]. *)
Definition ge (a b : number) : bool :=
  match a, b with
  | NaN, _ | _, NaN => false
  | Fin x, Fin y => Qle_bool y x
  | PosInf, _ => true
  | _, NegInf => true
  | _, _ => false
  end.

(** The stages of the overlay: label and threshold. *)
Definition stages : list (string * Z) :=
  [("Frame Extraction", 0); ("YOLO Detection", 30);
   ("Risk Calculation", 60); ("Report Generation", 90)]%string%Z.

(** [stages.reduce((acc, stage, index) =>
       progress >= stage.threshold ? index : acc, 0)] *)
Definition currentStage (progress : number) : nat :=
  fold_left
    (fun acc '(index, stage) =>
       if ge progress (of_Z (snd stage)) then index else acc)
    (combine (seq 0 (List.length stages)) stages) 0%nat.

(* ------------------------------------------------------------------ *)
(** ** Detection source ([detection.ts], in [src/utils/api.ts]) *)

Definition TARGET_CLASSES : list (Z * string) :=
  [(0, "person"); (1, "bicycle"); (2, "car"); (3, "motorcycle");
   (5, "bus"); (7, "truck"); (9, "traffic light"); (11, "stop sign")]%Z%string.

Definition PERSON_CLASSES : list string := ["person"]%string.

Module Scenario.
Inductive t : Type := low | medium | high.
End Scenario.

(** [Math.floor] on a rational. *)
Definition Math_floor (q : Q) : Z := Qfloor q.

(** [Math.abs] on a rational. *)
Definition Math_abs (q : Q) : Q := if Qltb q 0 then - q else q.

(** [Math.PI], the binary64 number. *)
Definition Math_PI : Q := 884279719003555 # 281474976710656.

(** Code that calls [Math.random()]: [draws n] is the value the call
    number [n] (from 0) returns, and a computation maps the number of
    calls made so far to its result and the number of calls made after it.
    [None] stands for a result the types here cannot hold: an array read
    outside its bounds, which gives [undefined]. *)
Section Random.

Variable draws : nat -> Q.

Definition Rand (A : Type) : Type := nat -> option (A * nat).

Definition ret {A : Type} (a : A) : Rand A := fun n => Some (a, n).

Definition bind {A B : Type} (c : Rand A) (k : A -> Rand B) : Rand B :=
  fun n => match c n with
           | Some (a, n') => k a n'
           | None => None
           end.

Definition Math_random : Rand Q := fun n => Some (draws n, S n).

(** [arr[k]], which is [undefined] outside the array. *)
Definition index {A : Type} (arr : list A) (k : Z) : Rand A :=
  fun n => if (k <? 0)%Z then None
           else match nth_error arr (Z.to_nat k) with
                | Some a => Some (a, n)
                | None => None
                end.

Local Notation "x <- c ;; k" := (bind c (fun x => k))
  (at level 61, c at next level, right associativity).

(** [for (let i = 0; i < count; i++) detections.push(body())] *)
Fixpoint push_times (count : nat) (body : Rand Detection)
  (detections : list Detection) : Rand (list Detection) :=
  match count with
  | O => ret detections
  | S count' => d <- body ;; push_times count' body (push detections d)
  end.

Definition vehicleCounts (s : Scenario.t) : Z * Z :=
  match s with
  | Scenario.low => (1, 4) | Scenario.medium => (3, 8) | Scenario.high => (6, 15)
  end%Z.

Definition personCounts (s : Scenario.t) : Z * Z :=
  match s with
  | Scenario.low => (0, 2) | Scenario.medium => (1, 5) | Scenario.high => (3, 10)
  end%Z.

(** The class id of a vehicle type: the key of its entry in
    [TARGET_CLASSES], read back by [parseInt], and 2 when there is none. *)
Definition classId_of (vehicleType : string) : Z :=
  match find (fun entry => String.eqb (snd entry) vehicleType) TARGET_CLASSES with
  | Some entry => fst entry
  | None => 2%Z
  end.

(** Body of the loop that generates the vehicles. *)
Definition simulate_vehicle (frameWidth frameHeight : Q) : Rand Detection :=
  r <- Math_random ;;
  vehicleType <-
    index VEHICLE_CLASSES
      (Math_floor (r * inject_Z (Z.of_nat (List.length VEHICLE_CLASSES)))) ;;
  let classId := classId_of vehicleType in
  r <- Math_random ;;
  let width := r * (frameWidth * (15 # 100)) + frameWidth * (8 # 100) in
  r <- Math_random ;;
  let height := r * (frameHeight * (2 # 10)) + frameHeight * (1 # 10) in
  r <- Math_random ;;
  let x1 := r * (frameWidth - width) in
  r <- Math_random ;;
  let y1 := r * (frameHeight * (5 # 10)) + frameHeight * (2 # 10) in
  r <- Math_random ;;
  ret {| className := vehicleType;
         confidence := r * (3 # 10) + (7 # 10);
         bbox := (x1, y1, x1 + width, y1 + height);
         classId := classId;
         center := (x1 + width / 2, y1 + height / 2) |}.

(** Body of the loop that generates the persons. *)
Definition simulate_person (frameWidth frameHeight : Q) : Rand Detection :=
  r <- Math_random ;;
  let width := r * (frameWidth * (5 # 100)) + frameWidth * (3 # 100) in
  r <- Math_random ;;
  let height := r * (frameHeight * (15 # 100)) + frameHeight * (8 # 100) in
  r <- Math_random ;;
  let x1 := r * (frameWidth - width) in
  r <- Math_random ;;
  let y1 := r * (frameHeight * (4 # 10)) + frameHeight * (4 # 10) in
  r <- Math_random ;;
  ret {| className := "person";
         confidence := r * (25 # 100) + (75 # 100);
         bbox := (x1, y1, x1 + width, y1 + height);
         classId := 0;
         center := (x1 + width / 2, y1 + height / 2) |}.

Definition simulateYoloDetection (frameWidth frameHeight : Q)
  (scenarioIntensity : Scenario.t) : Rand (list Detection) :=
  let detections : list Detection := [] in
  let '(minVehicles, maxVehicles) := vehicleCounts scenarioIntensity in
  let '(minPersons, maxPersons) := personCounts scenarioIntensity in
  r <- Math_random ;;
  let numVehicles :=
    (Math_floor (r * inject_Z (maxVehicles - minVehicles + 1)) + minVehicles)%Z in
  r <- Math_random ;;
  let numPersons :=
    (Math_floor (r * inject_Z (maxPersons - minPersons + 1)) + minPersons)%Z in
  detections <-
    push_times (Z.to_nat numVehicles)
      (simulate_vehicle frameWidth frameHeight) detections ;;
  detections <-
    push_times (Z.to_nat numPersons)
      (simulate_person frameWidth frameHeight) detections ;;
  ret detections.

(** [Math.sin]: the value it returns for each argument. *)
Variable Math_sin : Q -> Q.

Definition peakMoments : list Q := [25 # 100; 5 # 10; 75 # 100].

Definition getScenarioForFrame (frameIndex totalFrames : Z) : Rand Scenario.t :=
  match div (of_Z frameIndex) (of_Z totalFrames) with
  | Fin normalizedPosition =>
      r <- Math_random ;;
      let noise :=
        Math_sin (normalizedPosition * Math_PI * 4) * (3 # 10) + r * (3 # 10) in
      let intensity := (3 # 10) + noise in
      let intensity :=
        fold_left
          (fun intensity peak =>
             let distFromPeak := Math_abs (normalizedPosition - peak) in
             if Qltb distFromPeak (1 # 10)
             then intensity + ((1 # 10) - distFromPeak) * 5
             else intensity)
          peakMoments intensity in
      ret (if Qltb intensity (4 # 10) then Scenario.low
           else if Qltb intensity (7 # 10) then Scenario.medium
           else Scenario.high)
  | _ =>
      (* the position is [NaN] or infinite: the sine is [NaN], so is the
         intensity, every comparison is false and the last return is taken *)
      r <- Math_random ;;
      ret Scenario.high
  end.

(** The two calls [analyzeVideo] makes to obtain the detections of a frame. *)
Definition detect_frame (frameIndex totalFrames : Z) : Rand (list Detection) :=
  scenario <- getScenarioForFrame frameIndex totalFrames ;;
  simulateYoloDetection frameWidth frameHeight scenario.

End Random.

(** Values [Math.random()] can return: at least 0 and below 1. *)
Definition valid_draws (draws : nat -> Q) : Prop :=
  forall n, 0 <= draws n /\ draws n < 1.

(** Values [Math.sin] can return. *)
Definition valid_sine (Math_sin : Q -> Q) : Prop :=
  (forall x, -1 <= Math_sin x /\ Math_sin x <= 1) /\
  (forall x, x == 0 -> Math_sin x == 0).

(** What the simulator promises of a generated vehicle and of a generated
    person: its class, and its box in a frame of the given size. *)
Definition vehicle_class (d : Detection) : Prop :=
  is_vehicle d = true /\ In (classId d, className d) TARGET_CLASSES.

Definition person_class (d : Detection) : Prop :=
  className d = "person"%string /\ classId d = 0%Z.




(** The least score of a frame generated for a scenario. *)
Definition floor_score (s : Scenario.t) : Z :=
  (3 * fst (vehicleCounts s) + 5 * fst (personCounts s))%Z.

(** A detection source that the simulator can produce: the detections of
    every frame index come from [detect_frame] started at some point of
    the sequence of draws. *)
Definition simulated (draws : nat -> Q) (Math_sin : Q -> Q) (totalFrames : Z)
  (detect : Z -> list Detection) : Prop :=
  forall i, exists n n',
    detect_frame draws Math_sin i totalFrames n = Some (detect i, n').

(** Sample draws: every call returns one half. *)
Definition half_draws (_ : nat) : Q := 1 # 2.

(** The addition a peak makes to the intensity at a position. *)
Definition peak_bonus (normalizedPosition peak : Q) : Q :=
  let distFromPeak := Math_abs (normalizedPosition - peak) in
  if Qltb distFromPeak (1 # 10) then ((1 # 10) - distFromPeak) * 5 else 0.

(** Sample sine: the value 0 everywhere. *)
Definition zero_sine (_ : Q) : Q := 0.

(** A source that runs [detect_frame] for every frame from the start of
    the sequence of draws. *)
Definition detect_simulated (draws : nat -> Q) (Math_sin : Q -> Q)
  (totalFrames : Z) (i : Z) : list Detection :=
  match detect_frame draws Math_sin i totalFrames 0%nat with
  | Some (dets, _) => dets
  | None => []
  end.

(* ------------------------------------------------------------------ *)
(** ** Upload progress ([uploadForAnalysis], [src/utils/api.ts]) *)


(* ------------------------------------------------------------------ *)
(** ** The summary of the detections ([formatDetectionSummary]) *)

(** The class names of [TARGET_CLASSES].  The summary is modelled for
    detections of these classes: none of the names is an integer key, which
    an object lists before its other keys, or a property that every object
    inherits, which [counts[name]] would read. *)
Definition class_names : list string := map snd TARGET_CLASSES.

(** [Record<string, number>]: the own keys in insertion order. *)
Definition Counts : Type := list (string * Z).

(** [counts[key]] *)
Definition lookup (counts : Counts) (key : string) : option Z :=
  option_map snd (find (fun entry => String.eqb (fst entry) key) counts).

(** [counts[key] = value] *)
Fixpoint assign (counts : Counts) (key : string) (value : Z) : Counts :=
  match counts with
  | [] => [(key, value)]
  | (k, v) :: rest =>
      if String.eqb k key then (k, value) :: rest
      else (k, v) :: assign rest key value
  end.

(** [x || 0] for a number that may be [undefined]. *)
Definition or_zero (x : option Z) : Z :=
  match x with
  | Some v => if (v =? 0)%Z then 0%Z else v
  | None => 0%Z
  end.

(** The decimal text of an integer. *)
Definition toString (count : Z) : string :=
  NilZero.string_of_int (Z.to_int count).

(** The loop that fills [counts]. *)
Definition tally (detections : list Detection) : Counts :=
  fold_left
    (fun counts d =>
       assign counts (className d) (or_zero (lookup counts (className d)) + 1)%Z)
    detections [].

Definition entry_text (entry : string * Z) : string :=
  let '(cls, count) := entry in
  (toString count ++ " " ++ cls ++ (if (1 <? count)%Z then "s" else ""))%string.

(** [None]: a detection of a class outside [class_names]. *)
Definition formatDetectionSummary (detections : list Detection) : option string :=
  if forallb (fun d => includes class_names (className d)) detections
  then Some (String.concat ", " (map entry_text (tally detections)))
  else None.

(** The summary in words: the classes in the order of their first
    detection, each with the number of its detections. *)
Fixpoint first_occurrences (names : list string) : list string :=
  match names with
  | [] => []
  | x :: rest =>
      x :: filter (fun y => negb (String.eqb x y)) (first_occurrences rest)
  end.

Definition occurrences (cls : string) (detections : list Detection) : Z :=
  count_if (fun d => String.eqb (className d) cls) detections.

Definition tally_ref (detections : list Detection) : Counts :=
  map (fun cls => (cls, occurrences cls detections))
      (first_occurrences (map className detections)).

(* ------------------------------------------------------------------ *)
(** ** Binary64 arithmetic

    The numbers of the running code are binary64 floating-point numbers:
    every sum, difference, product, quotient and square root is the exact
    result rounded to the nearest number with a 53-bit significand, a tie
    going to the even significand.  The rounding is written out here on
    the rationals; signed zeros are not represented. *)

Module Binary64.

(** [floor (log2 q)] for a positive [q]. *)
Definition ilog2 (q : Q) : Z :=
  let e := (Z.log2 (Qnum q) - Z.log2 (Zpos (Qden q)))%Z in
  if Qle_bool (2 ^ e) q then e else (e - 1)%Z.

(** The integer nearest to [x], the even one of two that are equally
    near. *)
Definition nearest_even (x : Q) : Z :=
  let f := Qfloor x in
  match Qcompare (x - inject_Z f) (1 # 2) with
  | Lt => f
  | Gt => (f + 1)%Z
  | Eq => if Z.even f then f else (f + 1)%Z
  end.

(** The exponent a positive [q] is rounded at, and the spacing of the
    binary64 numbers around a non-zero [q]: 52 binary places below the
    leading bit, and no finer than 2^-1074. *)
Definition exponent (q : Q) : Z := Z.max (ilog2 q) (-1022).

Definition ulp (q : Q) : Q := 2 ^ (exponent (Qabs q) - 52).

(** Rounding to nearest, ties to even, with an unbounded exponent. *)
Definition fl (q : Q) : Q :=
  let q := Qred q in
  if Qeq_bool q 0 then 0
  else Qred (inject_Z (nearest_even (q / ulp q)) * ulp q).

(** The largest binary64 number. *)
Definition MAX_VALUE : Q := (2 - 2 ^ (-52)) * 2 ^ 1023.

(** The binary64 number an exact result becomes: an infinity beyond the
    largest number. *)
Definition rounded (q : Q) : number :=
  let r := fl q in
  if Qltb MAX_VALUE r then PosInf
  else if Qltb r (- MAX_VALUE) then NegInf
  else Fin r.

(** A decimal literal of the source. *)
Definition literal (q : Q) : number := rounded q.

Definition neg (a : number) : number :=
  match a with
  | Fin x => Fin (- x)
  | PosInf => NegInf
  | NegInf => PosInf
  | NaN => NaN
  end.

(** [a + b], [a - b], [a * b], [a / b]. *)
Definition add (a b : number) : number :=
  match a, b with
  | NaN, _ | _, NaN => NaN
  | Fin x, Fin y => rounded (x + y)
  | PosInf, NegInf | NegInf, PosInf => NaN
  | PosInf, _ | _, PosInf => PosInf
  | NegInf, _ | _, NegInf => NegInf
  end.

Definition sub (a b : number) : number := add a (neg b).

Definition mul (a b : number) : number :=
  match JS.mul a b with
  | Fin q => rounded q
  | other => other
  end.

Definition div (a b : number) : number :=
  match JS.div a b with
  | Fin q => rounded q
  | other => other
  end.

(** [Math.sqrt] of a positive rational, correctly rounded: the result has
    its leading bit at half the exponent of the argument; its significand
    is the integer square root of the scaled argument, or the next integer
    when the argument is beyond the square of the midpoint. *)
Definition sqrt_rounded (q : Q) : Q :=
  let q := Qred q in
  let u := 2 ^ (Z.div (ilog2 q) 2 - 52) in
  let r := q / (u * u) in
  let n := Z.sqrt (Qfloor r) in
  let mid := inject_Z n + (1 # 2) in
  let n' :=
    match Qcompare r (mid * mid) with
    | Lt => n
    | Gt => (n + 1)%Z
    | Eq => if Z.even n then n else (n + 1)%Z
    end in
  Qred (inject_Z n' * u).

Definition Math_sqrt (a : number) : number :=
  match a with
  | Fin q => if Qltb q 0 then NaN
             else if Qeq_bool q 0 then Fin 0
             else Fin (sqrt_rounded q)
  | PosInf => PosInf
  | NegInf | NaN => NaN
  end.

(** [Math.pow(a, 2)]: the square, as the engines compute this power. *)
Definition Math_pow_2 (a : number) : number := mul a a.

(** [Math.max(a, b)] and [Math.min(a, b)]. *)
Definition Math_max (a b : number) : number :=
  match a, b with
  | NaN, _ | _, NaN => NaN
  | PosInf, _ | _, PosInf => PosInf
  | NegInf, other | other, NegInf => other
  | Fin x, Fin y => if Qle_bool x y then Fin y else Fin x
  end.

Definition Math_min (a b : number) : number := JS.Math_min a b.

(** [a === b] on numbers. *)
Definition eq (a b : number) : bool :=
  match a, b with
  | Fin x, Fin y => Qeq_bool x y
  | PosInf, PosInf | NegInf, NegInf => true
  | _, _ => false
  end.

(** *** The geometry kernel and the frame risk in binary64
    ([src/utils/riskLogic.ts]) *)

Definition iou (boxA boxB : BBox) : number :=
  let '(a0, a1, a2, a3) := boxA in
  let '(b0, b1, b2, b3) := boxB in
  let xA := Math_max (Fin a0) (Fin b0) in
  let yA := Math_max (Fin a1) (Fin b1) in
  let xB := Math_min (Fin a2) (Fin b2) in
  let yB := Math_min (Fin a3) (Fin b3) in
  let interW := Math_max (Fin 0) (sub xB xA) in
  let interH := Math_max (Fin 0) (sub yB yA) in
  let interArea := mul interW interH in
  if eq interArea (Fin 0) then Fin 0
  else
    let boxAArea := mul (sub (Fin a2) (Fin a0)) (sub (Fin a3) (Fin a1)) in
    let boxBArea := mul (sub (Fin b2) (Fin b0)) (sub (Fin b3) (Fin b1)) in
    div interArea (sub (add boxAArea boxBArea) interArea).

Definition getCenter (box : BBox) : number * number :=
  let '(x1, y1, x2, y2) := box in
  (div (add (Fin x1) (Fin x2)) (Fin 2), div (add (Fin y1) (Fin y2)) (Fin 2)).

Definition distance (p1 p2 : number * number) : number :=
  Math_sqrt (add (Math_pow_2 (sub (fst p1) (fst p2)))
                 (Math_pow_2 (sub (snd p1) (snd p2)))).

(** Body of the inner loop of step 2, at indices [i] and [j]. *)
Definition overlap_step (vehicles : list Detection) (i j : nat)
  (st : Counters) : Counters :=
  match nth_error vehicles i, nth_error vehicles j with
  | Some vi, Some vj =>
      if gt (iou (bbox vi) (bbox vj)) (literal (1 # 10))
      then mkCounters (c_score st + 20) (c_overlaps st + 1) (c_proximityRisks st)
      else st
  | _, _ => st   (* indices are always below [vehicles.length] *)
  end.

(** Body of the inner loop of step 3, at vehicle [v] and person [p]. *)
Definition proximity_step (frameWidth frameHeight : Q) (v p : Detection)
  (st : Counters) : Counters :=
  let '(cx_v, cy_v) := getCenter (bbox v) in
  let '(cx_p, cy_p) := getCenter (bbox p) in
  let dist := distance (cx_v, cy_v) (cx_p, cy_p) in
  if gt cy_p (mul (Fin frameHeight) (literal (5 # 10)))
     && lt dist (mul (Fin frameWidth) (literal (2 # 10)))
  then mkCounters (c_score st + 30) (c_overlaps st) (c_proximityRisks st + 1)
  else st.

Definition computeFrameRisk (detections : list Detection)
  (frameWidth frameHeight : Q) : FrameAnalysis :=
  let st := mkCounters 0 0 0 in
  let vehicles :=
    filter (fun d => includes VEHICLE_CLASSES (className d)) detections in
  let persons :=
    filter (fun d => String.eqb (className d) "person") detections in
  (* 1) base score *)
  let st := mkCounters (c_score st + 3 * Z.of_nat (List.length vehicles))
                       (c_overlaps st) (c_proximityRisks st) in
  let st := mkCounters (c_score st + 5 * Z.of_nat (List.length persons))
                       (c_overlaps st) (c_proximityRisks st) in
  (* 2) vehicle-vehicle overlap *)
  let st :=
    for_range 0 (List.length vehicles) (fun i =>
      for_range (i + 1) (List.length vehicles) (fun j =>
        overlap_step vehicles i j)) st in
  (* 3) vehicle-person proximity in the lower half *)
  let st :=
    for_of vehicles (fun v =>
      for_of persons (fun p =>
        proximity_step frameWidth frameHeight v p)) st in
  (* clamp *)
  let score := Z.max 0 (Z.min (c_score st) 100) in
  {| frameIndex := 0;
     score := score;
     detections := detections;
     vehicleCount := Z.of_nat (List.length vehicles);
     personCount := Z.of_nat (List.length persons);
     overlaps := c_overlaps st;
     proximityRisks := c_proximityRisks st |}.

(** *** The frame loop of [analyzeVideo] in binary64
    ([src/types/index.ts], lines 130-159) *)

(** [Math.min(95, Math.round((frameIndex / totalEstimatedFrames) * 100))];
    the two integers are below 2^53 and so are binary64 numbers. *)
Definition progress (frameIndex totalEstimatedFrames : Z) : number :=
  Math_min (of_Z 95)
    (Math_round
       (mul (div (of_Z frameIndex) (of_Z totalEstimatedFrames)) (of_Z 100))).

Section Analysis.

Variable detect : Z -> list Detection.

Variables maxFrames frameSkip : Z.

(** The [for] loop over [frameIndex], from the test of its condition.
    [None]: the iteration budget [fuel] was used up before the loop ended. *)
Fixpoint frame_loop (fuel : nat) (frameIndex : Z) (st : LoopState)
  : option LoopState :=
  if (frameIndex <? totalEstimatedFrames maxFrames frameSkip)%Z then
    match fuel with
    | O => None
    | S fuel' =>
        if rem_ne0 frameIndex frameSkip
        then frame_loop fuel' (frameIndex + 1)%Z st           (* continue *)
        else
          let progress :=
            progress frameIndex (totalEstimatedFrames maxFrames frameSkip) in
          let log := push (progressLog st) progress in
          let detections := detect frameIndex in
          let frameAnalysis :=
            computeFrameRisk detections frameWidth frameHeight in
          let frameAnalysis := set_frameIndex frameAnalysis frameIndex in
          let st' :=
            mkLoopState (push (frameAnalyses st) frameAnalysis)
                        (push (frameScores st) (score frameAnalysis))
                        log in
          if (Z.of_nat (List.length (frameAnalyses st')) >=? maxFrames)%Z
          then Some st'                                        (* break *)
          else frame_loop fuel' (frameIndex + 1)%Z st'
    end
  else Some st.

(** The calls made to [onProgress] during a run, oldest first: those of the
    loop, then the final one. *)
Definition progress_calls : option (list number) :=
  match frame_loop (Z.to_nat (totalEstimatedFrames maxFrames frameSkip)) 0%Z
          initial_state with
  | None => None
  | Some st => Some (push (progressLog st) (of_Z 100))
  end.

(** The frames the loop analysed, in order. *)
Definition processed_frames : option (list FrameAnalysis) :=
  option_map frameAnalyses
    (frame_loop (Z.to_nat (totalEstimatedFrames maxFrames frameSkip)) 0%Z
       initial_state).

End Analysis.

(** *** The reference algorithm of the frame risk, evaluated in binary64 *)

(** The length two intervals share, the area of a box and the area two
    boxes share. *)
Definition shared_length (lo1 hi1 lo2 hi2 : Q) : number :=
  Math_max (Fin 0)
    (sub (Math_min (Fin hi1) (Fin hi2)) (Math_max (Fin lo1) (Fin lo2))).

Definition area (box : BBox) : number :=
  let '(x1, y1, x2, y2) := box in
  mul (sub (Fin x2) (Fin x1)) (sub (Fin y2) (Fin y1)).

Definition intersection_area (boxA boxB : BBox) : number :=
  let '(a0, a1, a2, a3) := boxA in
  let '(b0, b1, b2, b3) := boxB in
  mul (shared_length a0 a2 b0 b2) (shared_length a1 a3 b1 b3).

(** Intersection over union: the shared area divided by the sum of the two
    areas less the shared area, and 0 when nothing is shared. *)
Definition intersection_over_union (boxA boxB : BBox) : number :=
  let shared := intersection_area boxA boxB in
  if eq shared (Fin 0) then Fin 0
  else div shared (sub (add (area boxA) (area boxB)) shared).

(** The midpoint of a box and the Euclidean distance of two points. *)
Definition midpoint (box : BBox) : number * number :=
  let '(x1, y1, x2, y2) := box in
  (div (add (Fin x1) (Fin x2)) (Fin 2), div (add (Fin y1) (Fin y2)) (Fin 2)).

Definition euclidean_distance (p q : number * number) : number :=
  let dx := sub (fst p) (fst q) in
  let dy := sub (snd p) (snd q) in
  Math_sqrt (add (mul dx dx) (mul dy dy)).

(** Two vehicles whose IoU exceeds 0.1. *)
Definition overlapping (pr : Detection * Detection) : bool :=
  gt (intersection_over_union (bbox (fst pr)) (bbox (snd pr))) (literal (1 # 10)).

(** A vehicle and a person: the person's box centre lies below the middle
    of the frame and the two box centres are closer than 0.2 of the frame
    width. *)
Definition in_proximity (width height : Q) (pr : Detection * Detection) : bool :=
  gt (snd (midpoint (bbox (snd pr)))) (div (Fin height) (Fin 2))
  && lt (euclidean_distance (midpoint (bbox (fst pr))) (midpoint (bbox (snd pr))))
        (mul (literal (2 # 10)) (Fin width)).

Definition frame_risk_ref (dets : list Detection) (width height : Q)
  : FrameAnalysis :=
  let vehicles := filter is_vehicle dets in
  let persons := filter is_person dets in
  let n_overlap := count_if overlapping (unordered_pairs vehicles) in
  let n_prox :=
    count_if (in_proximity width height) (list_prod vehicles persons) in
  {| frameIndex := 0;
     score := clamp 0 100
                (3 * count_if is_vehicle dets + 5 * count_if is_person dets
                 + 20 * n_overlap + 30 * n_prox);
     detections := dets;
     vehicleCount := count_if is_vehicle dets;
     personCount := count_if is_person dets;
     overlaps := n_overlap;
     proximityRisks := n_prox |}.

(** *** The progress values, as a formula *)

(** The percentage reported at a frame index:
    min(95, round(p)), [p] being the binary64 product of the binary64
    quotient [frameIndex / totalFrames] and 100. *)
Definition progress_percent (totalFrames frameIndex : Z) : Z :=
  Z.min 95
    (round (fl (fl (inject_Z frameIndex / inject_Z totalFrames) * 100))).

(** The values the callback receives over a run that analysed [frames]. *)
Definition reported_percents (totalFrames : Z) (frames : list FrameAnalysis)
  : list Z :=
  map (fun f => progress_percent totalFrames (frameIndex f)) frames ++ [100%Z].

(** A frame the loop keeps: its index is below the frame total and passes
    the stride test, and the record is the frame risk of the detections
    obtained at that index. *)
Definition retained (detect : Z -> list Detection) (frameSkip totalFrames : Z)
  (f : FrameAnalysis) : Prop :=
  (0 <= frameIndex f < totalFrames)%Z /\
  rem_ne0 (frameIndex f) frameSkip = false /\
  f = set_frameIndex
        (computeFrameRisk (detect (frameIndex f)) frameWidth frameHeight)
        (frameIndex f).

(** What holds of the loop state each time the loop condition is tested
    at index [i]. *)
Definition loop_invariant (detect : Z -> list Detection)
  (frameSkip totalFrames i : Z) (st : LoopState) : Prop :=
  (0 <= i)%Z /\
  frameScores st = map score (frameAnalyses st) /\
  progressLog st =
    map (fun f => of_Z (progress_percent totalFrames (frameIndex f)))
        (frameAnalyses st) /\
  Forall (fun f => retained detect frameSkip totalFrames f /\ (frameIndex f < i)%Z)
         (frameAnalyses st) /\
  StronglySorted Z.lt (map frameIndex (frameAnalyses st)) /\
  (forall j, (0 <= j < i)%Z -> rem_ne0 j frameSkip = false ->
             In j (map frameIndex (frameAnalyses st))).

End Binary64.

(** *** Sample frames at the thresholds *)

(** The binary64 number a decimal denotes. *)
Definition double (decimal : Q) : Q := Binary64.fl decimal.

Definition car_box (box : BBox) : Detection :=
  mkDetection "car" (double (9 # 10)) box 2 (getCenter box).

Definition person_box (box : BBox) : Detection :=
  mkDetection "person" (double (8 # 10)) box 0 (getCenter box).

(** Two cars whose intersection over union is 0.1 less a rounding error,
    two cars whose intersection over union is 0.1 plus a rounding error,
    and a car and a pedestrian whose centres are 384 less a rounding error
    apart, 384 being 0.2 of the frame width. *)
Definition frame_below_tenth : list Detection :=
  [car_box (0, 0, 1, 1); car_box (double (1 # 10), double (4 # 10), 2, 3)].

Definition frame_above_tenth : list Detection :=
  [car_box (0, 0, double (6 # 10), 4);
   car_box (0, double (34 # 10), double (6 # 10), 6)].

Definition frame_near_384 : list Detection :=
  let dx := double (3641043806382999 # 10000000000000) in
  [car_box (99, 599, 101, 601); person_box (99 + dx, 721, 101 + dx, 723)].

(** The coordinates of the boxes of a frame. *)
Definition coordinates (dets : list Detection) : list Q :=
  flat_map (fun d => let '(x1, y1, x2, y2) := bbox d in [x1; y1; x2; y2]) dets.

(** Two cars whose intersection over union is 0.15. *)
Definition frame_iou_015 : list Detection :=
  [car_box (0, 0, 23 # 2, 1); car_box (17 # 2, 0, 20, 1)].

(* ------------------------------------------------------------------ *)
(** ** Cross-check of the rounding

    The primitive floating-point numbers of the proof assistant are
    binary64 numbers; their value is read back as a rational and compared
    with the rounding written out in [Binary64]. *)

Definition of_float (x : PrimFloat.float) : number :=
  match FloatOps.Prim2SF x with
  | SpecFloat.S754_zero _ => Fin 0
  | SpecFloat.S754_infinity false => PosInf
  | SpecFloat.S754_infinity true => NegInf
  | SpecFloat.S754_nan => NaN
  | SpecFloat.S754_finite s m e =>
      Fin (Qred ((if s then -1 else 1) * inject_Z (Zpos m) * 2 ^ e))
  end.

Definition float_of_Z (z : Z) : PrimFloat.float :=
  PrimFloat.of_uint63 (Uint63.of_Z z).

Definition same (a b : number) : bool :=
  match a, b with
  | Fin x, Fin y => Qeq_bool x y
  | PosInf, PosInf | NegInf, NegInf | NaN, NaN => true
  | _, _ => false
  end.

Definition upto (n : nat) : list Z := map Z.of_nat (seq 1 n).

(** The product [(k / c) * 100] for every cap [c] up to [caps] and every
    [k] below [c]. *)
Definition check_progress (caps : nat) : bool :=
  forallb (fun c =>
    forallb (fun k =>
      same (of_float
              (PrimFloat.mul
                 (PrimFloat.div (float_of_Z (k - 1)) (float_of_Z c))
                 (float_of_Z 100)))
           (Binary64.mul (Binary64.div (of_Z (k - 1)) (of_Z c)) (of_Z 100)))
      (upto (Z.to_nat c)))
    (upto caps).

(** The four operations and the square root on the quotients [i / j] and
    [j / (i + 2)] for [i] and [j] up to [n]. *)
Definition check_operations (n : nat) : bool :=
  forallb (fun i =>
    forallb (fun j =>
      let x := PrimFloat.div (float_of_Z i) (float_of_Z j) in
      let y := PrimFloat.div (float_of_Z j) (float_of_Z (i + 2)) in
      let x' := of_float x in
      let y' := of_float y in
      same (of_float (PrimFloat.add x y)) (Binary64.add x' y')
      && same (of_float (PrimFloat.sub x y)) (Binary64.sub x' y')
      && same (of_float (PrimFloat.mul x y)) (Binary64.mul x' y')
      && same (of_float (PrimFloat.div x y)) (Binary64.div x' y')
      && same (of_float (PrimFloat.sqrt x)) (Binary64.Math_sqrt x'))
      (upto n))
    (upto n).

(* ================================================================== *)
(** * Properties *)

(* ------------------------------------------------------------------ *)
(** ** Comparisons on rationals *)

Lemma Qltb_lt (x y : Q) : Qltb x y = true <-> x < y.
Proof.
  unfold Qltb. rewrite negb_true_iff.
  split; intro H.
  - destruct (Qlt_le_dec x y) as [Hlt | Hle]; [exact Hlt |].
    apply Qle_bool_iff in Hle. congruence.
  - destruct (Qle_bool y x) eqn:E; [| reflexivity].
    apply Qle_bool_iff in E. lra.
Qed.

Lemma Qltb_ge (x y : Q) : Qltb x y = false <-> y <= x.
Proof.
  unfold Qltb. rewrite negb_false_iff. apply Qle_bool_iff.
Qed.

Lemma Qeq_bool_false (x y : Q) : ~ x == y -> Qeq_bool x y = false.
Proof.
  intro H. destruct (Qeq_bool x y) eqn:E; [| reflexivity].
  apply Qeq_bool_iff in E. contradiction.
Qed.

(* ------------------------------------------------------------------ *)
(** ** The comparison with a square root

    [surd_lt] decides on rationals what [Math.sqrt(r) < t] says of the
    real square root, and [distance] compared with a bound is the Euclidean
    distance of the two points compared with that bound. *)

Lemma Q2R_zero : Q2R 0 = 0%R.
Proof. unfold Q2R. simpl. Lra.lra. Qed.

Lemma surd_lt_sqrt (r t : Q) :
  surd_lt (Math_sqrt r) t = true <->
  0 <= r /\ (sqrt (Q2R r) < Q2R t)%R.
Proof.
  unfold surd_lt. cbn [radicand].
  rewrite !andb_true_iff, Qle_bool_iff, !Qltb_lt.
  split.
  - intros [[Hr Ht] Hlt]. split; [exact Hr |].
    apply Qlt_Rlt in Ht, Hlt. apply Qle_Rle in Hr.
    rewrite Q2R_mult in Hlt. rewrite Q2R_zero in Ht, Hr.
    rewrite <- (sqrt_square (Q2R t)) by Lra.lra.
    apply sqrt_lt_1_alt. split; assumption.
  - intros [Hr Hlt].
    assert (Hr' : (0 <= Q2R r)%R).
    { apply Qle_Rle in Hr. rewrite Q2R_zero in Hr. exact Hr. }
    pose proof (sqrt_pos (Q2R r)) as Hs.
    assert (Ht : (0 < Q2R t)%R) by Lra.lra.
    split; [split; [exact Hr |] |].
    + apply Rlt_Qlt. rewrite Q2R_zero. exact Ht.
    + apply Rlt_Qlt. rewrite Q2R_mult.
      rewrite <- (sqrt_sqrt (Q2R r) Hr') at 1.
      apply Rmult_le_0_lt_compat; assumption.
Qed.

Lemma distance_lt_euclid (p1 p2 : Point) (t : Q) :
  surd_lt (distance p1 p2) t = true <->
  (sqrt ((Q2R (fst p1) - Q2R (fst p2)) * (Q2R (fst p1) - Q2R (fst p2))
         + (Q2R (snd p1) - Q2R (snd p2)) * (Q2R (snd p1) - Q2R (snd p2)))
   < Q2R t)%R.
Proof.
  unfold distance. rewrite surd_lt_sqrt. unfold pow2.
  rewrite Q2R_plus, !Q2R_mult, !Q2R_minus.
  split; [intros [_ H]; exact H | intro H; split; [| exact H]].
  clear H. generalize (fst p1 - fst p2) (snd p1 - snd p2). intros x y. nra.
Qed.

(** [euclid_lt] says that the Euclidean distance is below the bound. *)
Lemma euclid_lt_sqrt (p q : Point) (t : Q) :
  euclid_lt p q t = true <->
  (sqrt ((Q2R (fst p) - Q2R (fst q)) * (Q2R (fst p) - Q2R (fst q))
         + (Q2R (snd p) - Q2R (snd q)) * (Q2R (snd p) - Q2R (snd q)))
   < Q2R t)%R.
Proof.
  rewrite <- distance_lt_euclid.
  unfold euclid_lt, surd_lt, distance, pow2. cbn [radicand].
  assert (Hnn : Qle_bool 0 ((fst p - fst q) * (fst p - fst q)
                            + (snd p - snd q) * (snd p - snd q)) = true).
  { apply Qle_bool_iff. generalize (fst p - fst q) (snd p - snd q). intros x y. nra. }
  rewrite Hnn. reflexivity.
Qed.

(* ------------------------------------------------------------------ *)
(** ** Geometry kernel *)


Lemma interArea_pos_inv (a b : BBox) :
  ~ interArea a b == 0 ->
  0 < interArea a b /\
  0 < boxWidth a /\ 0 < boxHeight a /\ 0 < boxWidth b /\ 0 < boxHeight b /\
  interArea a b <= boxArea a /\ interArea a b <= boxArea b.
Proof.
  destruct a as [[[a0 a1] a2] a3], b as [[[b0 b1] b2] b3].
  unfold interArea, boxArea, boxWidth, boxHeight.
  set (xA := Qmax a0 b0). set (yA := Qmax a1 b1).
  set (xB := Qmin a2 b2). set (yB := Qmin a3 b3).
  pose proof (Q.le_max_l a0 b0 : a0 <= xA) as HxA1.
  pose proof (Q.le_max_r a0 b0 : b0 <= xA) as HxA2.
  pose proof (Q.le_max_l a1 b1 : a1 <= yA) as HyA1.
  pose proof (Q.le_max_r a1 b1 : b1 <= yA) as HyA2.
  pose proof (Q.le_min_l a2 b2 : xB <= a2) as HxB1.
  pose proof (Q.le_min_r a2 b2 : xB <= b2) as HxB2.
  pose proof (Q.le_min_l a3 b3 : yB <= a3) as HyB1.
  pose proof (Q.le_min_r a3 b3 : yB <= b3) as HyB2.
  clearbody xA yA xB yB.
  destruct (Q.max_spec 0 (xB - xA)) as [[Hw Ew] | [Hw Ew]];
    destruct (Q.max_spec 0 (yB - yA)) as [[Hh Eh] | [Hh Eh]];
    rewrite Ew, Eh; intro Hne.
  - repeat split; nra.
  - exfalso. apply Hne. ring.
  - exfalso. apply Hne. ring.
  - exfalso. apply Hne. ring.
Qed.

Lemma iou_divisor_pos (a b : BBox) :
  ~ interArea a b == 0 ->
  0 < iou_divisor a b /\ interArea a b <= iou_divisor a b.
Proof.
  intro Hne. unfold iou_divisor.
  destruct (interArea_pos_inv a b Hne) as (Hpos & _ & _ & _ & _ & Ha & Hb).
  split; lra.
Qed.

(** The two branches of [iou]. *)
Lemma iou_zero (a b : BBox) : interArea a b == 0 -> iou a b = Fin 0.
Proof.
  intro H. unfold iou. rewrite (Qeq_eq_bool _ _ H). reflexivity.
Qed.

Lemma iou_ratio (a b : BBox) :
  ~ interArea a b == 0 ->
  iou a b = Fin (interArea a b / iou_divisor a b).
Proof.
  intro Hne. unfold iou. rewrite (Qeq_bool_false _ _ Hne).
  destruct (iou_divisor_pos a b Hne) as [Hd _].
  unfold div. fold (iou_divisor a b).
  rewrite Qeq_bool_false; [reflexivity | lra].
Qed.


Lemma interArea_sym (a b : BBox) : interArea a b == interArea b a.
Proof.
  destruct a as [[[a0 a1] a2] a3], b as [[[b0 b1] b2] b3]. simpl.
  rewrite (Q.max_comm a0 b0), (Q.max_comm a1 b1),
          (Q.min_comm a2 b2), (Q.min_comm a3 b3).
  reflexivity.
Qed.

Lemma iou_divisor_sym (a b : BBox) : iou_divisor a b == iou_divisor b a.
Proof.
  unfold iou_divisor. rewrite (interArea_sym a b). ring.
Qed.

Lemma iou_sym (a b : BBox) : eqv (iou a b) (iou b a).
Proof.
  pose proof (interArea_sym a b) as Hs.
  destruct (Qeq_dec (interArea a b) 0) as [Hz | Hne].
  - rewrite (iou_zero a b Hz), (iou_zero b a); [simpl; reflexivity |].
    rewrite <- Hs. exact Hz.
  - assert (Hne' : ~ interArea b a == 0) by (rewrite <- Hs; exact Hne).
    rewrite (iou_ratio a b Hne), (iou_ratio b a Hne'). simpl.
    rewrite Hs, (iou_divisor_sym a b). reflexivity.
Qed.







(* ------------------------------------------------------------------ *)
(** ** Video aggregator *)

Lemma fold_left_add_total (xs : list Z) (a : Z) :
  fold_left Z.add xs a = (a + total xs)%Z.
Proof.
  revert a. induction xs as [| x xs IH]; intro a; simpl.
  - lia.
  - rewrite IH. lia.
Qed.

Lemma sum_scores_total (xs : list Z) : sum_scores xs = total xs.
Proof. unfold sum_scores. rewrite fold_left_add_total. lia. Qed.

Lemma div_of_Z_length (s : Z) (n : nat) :
  n <> O -> div (of_Z s) (of_Z (Z.of_nat n)) = Fin (inject_Z s / inject_Z (Z.of_nat n)).
Proof.
  intro Hn. unfold div, of_Z.
  rewrite Qeq_bool_false; [reflexivity |].
  unfold Qeq. simpl. lia.
Qed.

Lemma length_nonzero {A : Type} (xs : list A) : xs <> [] -> List.length xs <> O.
Proof. destruct xs; simpl; congruence. Qed.

(** On a non-empty list the aggregate is the tier and the rounding of the
    mean. *)
Lemma aggregateVideoRisk_mean (xs : list Z) :
  xs <> [] ->
  aggregateVideoRisk xs =
  mkVideoRisk (level_of_mean (mean xs)) (of_Z (round (mean xs))).
Proof.
  intro Hne. pose proof (length_nonzero xs Hne) as Hlen.
  unfold aggregateVideoRisk.
  destruct (Nat.eqb_spec (List.length xs) 0) as [E | _]; [contradiction |].
  rewrite sum_scores_total, (div_of_Z_length _ _ Hlen).
  reflexivity.
Qed.

Lemma tier_of_level (m : Q) (t : RiskLevel) : tier_of m t -> level_of_mean m = t.
Proof.
  unfold level_of_mean.
  destruct (Qltb m 20) eqn:E20; [apply Qltb_lt in E20 | apply Qltb_ge in E20];
  destruct (Qltb m 50) eqn:E50; [apply Qltb_lt in E50 | apply Qltb_ge in E50
                                |apply Qltb_lt in E50 | apply Qltb_ge in E50];
  destruct (Qltb m 75) eqn:E75;
    try apply Qltb_lt in E75; try apply Qltb_ge in E75;
  intro H; inversion H; subst; try reflexivity; lra.
Qed.

Lemma level_of_mean_tier (m : Q) : 0 <= m -> m <= 100 -> tier_of m (level_of_mean m).
Proof.
  intros H0 H100. unfold level_of_mean.
  destruct (Qltb m 20) eqn:E20.
  { apply Qltb_lt in E20. constructor; assumption. }
  apply Qltb_ge in E20.
  destruct (Qltb m 50) eqn:E50.
  { apply Qltb_lt in E50. constructor; assumption. }
  apply Qltb_ge in E50.
  destruct (Qltb m 75) eqn:E75.
  { apply Qltb_lt in E75. constructor; assumption. }
  apply Qltb_ge in E75. constructor; assumption.
Qed.

Lemma total_bounds (lo hi : Z) (xs : list Z) :
  (forall x, In x xs -> lo <= x <= hi)%Z ->
  (lo * Z.of_nat (List.length xs) <= total xs <= hi * Z.of_nat (List.length xs))%Z.
Proof.
  induction xs as [| x xs IH]; intro H.
  - simpl. lia.
  - assert (Hx : (lo <= x <= hi)%Z) by (apply H; left; reflexivity).
    assert (Hxs : (forall y, In y xs -> lo <= y <= hi)%Z)
      by (intros y Hy; apply H; right; exact Hy).
    specialize (IH Hxs). cbn [total fold_right List.length].
    fold (total xs). rewrite Nat2Z.inj_succ. lia.
Qed.

Lemma mean_bounds (lo hi : Z) (xs : list Z) :
  xs <> [] ->
  (forall x, In x xs -> lo <= x <= hi)%Z ->
  inject_Z lo <= mean xs /\ mean xs <= inject_Z hi.
Proof.
  intros Hne H. pose proof (length_nonzero xs Hne) as Hlen.
  destruct (total_bounds lo hi xs H) as [Hl Hh].
  assert (Hn : 0 < inject_Z (Z.of_nat (List.length xs))).
  { unfold Qlt. simpl. lia. }
  unfold mean. split.
  - apply Qle_shift_div_l; [exact Hn |].
    rewrite <- inject_Z_mult, <- Zle_Qle. exact Hl.
  - apply Qle_shift_div_r; [exact Hn |].
    rewrite <- inject_Z_mult, <- Zle_Qle. exact Hh.
Qed.

(** C2.  On a non-empty list of frame scores [aggregateVideoRisk] returns
    the rounded arithmetic mean as score and the tier of the mean from the
    table LOW [0,20), MEDIUM [20,50), HIGH [50,75), CRITICAL [75,100] (a
    tier exists when the scores lie in 0..100); the empty list gives
    (LOW, 0); and the five listed inputs give the listed results. *)
Theorem aggregateVideoRisk_spec :
  (forall xs, xs <> [] ->
     riskScore (aggregateVideoRisk xs) = of_Z (round (mean xs)) /\
     (forall t, tier_of (mean xs) t -> riskLevel (aggregateVideoRisk xs) = t) /\
     ((forall x, In x xs -> 0 <= x <= 100)%Z ->
      tier_of (mean xs) (riskLevel (aggregateVideoRisk xs)))) /\
  aggregateVideoRisk [] = mkVideoRisk LOW (of_Z 0) /\
  aggregateVideoRisk [10; 10; 10]%Z = mkVideoRisk LOW (of_Z 10) /\
  aggregateVideoRisk [30; 40]%Z = mkVideoRisk MEDIUM (of_Z 35) /\
  aggregateVideoRisk [60; 80]%Z = mkVideoRisk HIGH (of_Z 70) /\
  aggregateVideoRisk [90; 95]%Z = mkVideoRisk CRITICAL (of_Z 93).
Proof.
  split; [| repeat split; reflexivity].
  intros xs Hne. rewrite (aggregateVideoRisk_mean xs Hne). simpl.
  split; [reflexivity |]. split.
  - intros t Ht. apply tier_of_level. exact Ht.
  - intro Hrange.
    destruct (mean_bounds 0 100 xs Hne Hrange) as [H0 H100].
    apply level_of_mean_tier; assumption.
Qed.

Lemma aggregateVideoRisk_spec_witness :
  riskScore (aggregateVideoRisk [19; 20]%Z) = of_Z (round (mean [19; 20]%Z)) /\
  riskLevel (aggregateVideoRisk [19; 20]%Z) = LOW /\
  tier_of (mean [19; 20]%Z) (riskLevel (aggregateVideoRisk [19; 20]%Z)).
Proof.
  assert (Hne : [19; 20]%Z <> []) by discriminate.
  destruct (proj1 aggregateVideoRisk_spec [19; 20]%Z Hne) as (Hs & Ht & Hr).
  split; [exact Hs |]. split.
  - apply Ht. constructor; [discriminate | reflexivity].
  - apply Hr. intros x [<- | [<- | []]]; lia.
Defined.

Lemma total_perm (xs ys : list Z) : Permutation xs ys -> total xs = total ys.
Proof.
  induction 1 as [| x xs ys _ IH | x y xs | xs ys zs _ IH1 _ IH2]; simpl.
  - reflexivity.
  - fold (total xs) (total ys). lia.
  - fold (total xs). lia.
  - congruence.
Qed.

(** C8.  [aggregateVideoRisk] is a function of the list of scores (two
    applications to the same list agree) and its result does not depend on
    the order of the scores: every permutation of the list yields the same
    level and score. *)
Theorem aggregateVideoRisk_order_independent :
  (forall xs r1 r2,
     r1 = aggregateVideoRisk xs -> r2 = aggregateVideoRisk xs -> r1 = r2) /\
  (forall xs ys,
     Permutation xs ys -> aggregateVideoRisk xs = aggregateVideoRisk ys).
Proof.
  split.
  - intros xs r1 r2 -> ->. reflexivity.
  - intros xs ys Hp. unfold aggregateVideoRisk.
    rewrite !sum_scores_total, (total_perm xs ys Hp),
            (Permutation_length Hp).
    reflexivity.
Qed.

Lemma aggregateVideoRisk_order_independent_witness :
  aggregateVideoRisk [90; 20; 35]%Z = aggregateVideoRisk [35; 90; 20]%Z.
Proof.
  apply (proj2 aggregateVideoRisk_order_independent).
  apply Permutation_sym.
  apply (Permutation_cons_app [90; 20]%Z [] 35%Z).
  apply Permutation_refl.
Defined.

(* ------------------------------------------------------------------ *)
(** ** Violation summarizer *)

Lemma fold_left_field_total (field : FrameAnalysis -> Z)
  (fs : list FrameAnalysis) (a : Z) :
  fold_left (fun sum f => (sum + field f)%Z) fs a = (a + total_of field fs)%Z.
Proof.
  unfold total_of. revert a.
  induction fs as [| f fs IH]; intro a; simpl.
  - lia.
  - rewrite IH. fold (total (map field fs)). lia.
Qed.

Lemma sum_field_total (field : FrameAnalysis -> Z) (fs : list FrameAnalysis) :
  sum_field field fs = total_of field fs.
Proof. unfold sum_field. rewrite fold_left_field_total. lia. Qed.

Lemma div_sum_field (field : FrameAnalysis -> Z) (fs : list FrameAnalysis) :
  fs <> [] ->
  div (of_Z (sum_field field fs)) (of_Z (Z.of_nat (List.length fs)))
  = Fin (mean_of field fs).
Proof.
  intro Hne. rewrite sum_field_total.
  rewrite (div_of_Z_length _ _ (length_nonzero fs Hne)).
  unfold mean_of, mean, total_of. rewrite length_map. reflexivity.
Qed.

Lemma high_risk_count (fs : list FrameAnalysis) :
  Z.of_nat (List.length (filter (fun f => (score f >? 60)%Z) fs))
  = count_if (fun f => (60 <? score f)%Z) fs.
Proof.
  unfold count_if. f_equal. f_equal.
  apply filter_ext. intro f. apply Z.gtb_ltb.
Qed.

(** C5.  On a non-empty list of frame analyses and an aggregate score,
    [generateViolations] returns the entries of the six rules in rule
    order: near-collisions from the total of overlaps, proximity risks
    from the total of proximity incidents, congestion from the mean vehicle
    count, crowding from the mean person count, high-risk clusters from the
    number of frames scoring above 60, and the general-activity fallback
    when none of the five fired and the aggregate score exceeds 10. *)
Theorem generateViolations_rules (fs : list FrameAnalysis) (aggregate : Q) :
  fs <> [] ->
  generateViolations fs (Fin aggregate) = violations_ref fs aggregate /\
  subsequence (map type (generateViolations fs (Fin aggregate))) rule_order
  = true.
Proof.
  intro Hne.
  unfold generateViolations, violations_ref, rule1, rule2, rule3, rule4, rule5,
    rule6.
  rewrite !(div_sum_field _ fs Hne), !sum_field_total, high_risk_count.
  rewrite !Z.gtb_ltb.
  change (gt (Fin (mean_of vehicleCount fs)) (of_Z 8))
    with (Qltb 8 (mean_of vehicleCount fs)).
  change (gt (Fin (mean_of vehicleCount fs)) (of_Z 15))
    with (Qltb 15 (mean_of vehicleCount fs)).
  change (gt (Fin (mean_of personCount fs)) (of_Z 5))
    with (Qltb 5 (mean_of personCount fs)).
  change (gt (Fin (mean_of personCount fs)) (of_Z 10))
    with (Qltb 10 (mean_of personCount fs)).
  change (gt (Fin aggregate) (of_Z 10)) with (Qltb 10 aggregate).
  cbn [Math_round].
  destruct (0 <? total_of overlaps fs)%Z;
    destruct (0 <? total_of proximityRisks fs)%Z;
    destruct (Qltb 8 (mean_of vehicleCount fs));
    destruct (Qltb 5 (mean_of personCount fs));
    destruct (3 <? count_if (fun f => (60 <? score f)%Z) fs)%Z;
    destruct (Qltb 10 aggregate);
    split; reflexivity.
Qed.

Lemma generateViolations_rules_witness :
  generateViolations
    [mkFrameAnalysis 0 69 [] 9 0 2 0; mkFrameAnalysis 3 100 [] 10 6 1 1]
    (Fin 85)
  = [mkViolation "Vehicle Near-Collisions" (of_Z 3) medium;
     mkViolation "Pedestrian Proximity Risks" (of_Z 1) high;
     mkViolation "High Traffic Congestion" (of_Z 10) medium] /\
  subsequence
    (map type
       (generateViolations
          [mkFrameAnalysis 0 69 [] 9 0 2 0; mkFrameAnalysis 3 100 [] 10 6 1 1]
          (Fin 85)))
    rule_order = true.
Proof.
  apply (generateViolations_rules
           [mkFrameAnalysis 0 69 [] 9 0 2 0; mkFrameAnalysis 3 100 [] 10 6 1 1]
           85).
  discriminate.
Defined.

(** C9.  On the empty list of frame analyses [generateViolations] still
    returns: the incident totals are 0, both per-frame averages are the
    quotient 0/0, that is [NaN], which exceeds no threshold, no frame
    scores above 60, and the result is the single general-activity entry
    when the aggregate score exceeds 10 and the empty list otherwise. *)
Theorem generateViolations_no_frames :
  sum_field overlaps [] = 0%Z /\
  sum_field proximityRisks [] = 0%Z /\
  div (of_Z (sum_field vehicleCount [])) (of_Z (Z.of_nat (List.length (@nil FrameAnalysis)))) = NaN /\
  div (of_Z (sum_field personCount [])) (of_Z (Z.of_nat (List.length (@nil FrameAnalysis)))) = NaN /\
  gt NaN (of_Z 8) = false /\
  gt NaN (of_Z 5) = false /\
  (forall avgScore,
     generateViolations [] avgScore =
     if gt avgScore (of_Z 10)
     then [mkViolation "General Traffic Activity" (Math_round avgScore) low]
     else []).
Proof.
  repeat (split; [reflexivity |]).
  intro avgScore. unfold generateViolations. reflexivity.
Qed.

(* ------------------------------------------------------------------ *)
(** ** Frame risk evaluator *)

#[local] Instance Qltb_comp : Proper (Qeq ==> Qeq ==> eq) Qltb.
Proof.
  intros x x' Hx y y' Hy. unfold Qltb. rewrite Hx, Hy. reflexivity.
Qed.

Lemma iter_bump_overlap (n : nat) (st : Counters) :
  Nat.iter n bump_overlap st =
  mkCounters (c_score st + 20 * Z.of_nat n) (c_overlaps st + Z.of_nat n)
             (c_proximityRisks st).
Proof.
  induction n as [| n IH].
  - destruct st. simpl. f_equal; lia.
  - rewrite Nat2Z.inj_succ. simpl Nat.iter. rewrite IH.
    unfold bump_overlap. cbn [c_score c_overlaps c_proximityRisks].
    f_equal; lia.
Qed.

Lemma iter_bump_proximity (n : nat) (st : Counters) :
  Nat.iter n bump_proximity st =
  mkCounters (c_score st + 30 * Z.of_nat n) (c_overlaps st)
             (c_proximityRisks st + Z.of_nat n).
Proof.
  induction n as [| n IH].
  - destruct st. simpl. f_equal; lia.
  - rewrite Nat2Z.inj_succ. simpl Nat.iter. rewrite IH.
    unfold bump_proximity. cbn [c_score c_overlaps c_proximityRisks].
    f_equal; lia.
Qed.

Lemma iter_plus {S : Type} (f : S -> S) (n m : nat) (st : S) :
  Nat.iter m f (Nat.iter n f st) = Nat.iter (n + m) f st.
Proof.
  induction m as [| m IH]; simpl.
  - rewrite Nat.add_0_r. reflexivity.
  - rewrite IH, Nat.add_succ_r. reflexivity.
Qed.

Lemma iter_comm {S : Type} (f : S -> S) (n : nat) (st : S) :
  Nat.iter n f (f st) = f (Nat.iter n f st).
Proof.
  induction n as [| n IH]; simpl; [reflexivity | rewrite IH; reflexivity].
Qed.

(** A loop that bumps the state on the elements satisfying a test bumps it
    as many times as there are such elements. *)
Lemma fold_left_bump {A S : Type} (p : A -> bool) (bump : S -> S)
  (xs : list A) (st : S) :
  fold_left (fun s x => if p x then bump s else s) xs st
  = Nat.iter (List.length (filter p xs)) bump st.
Proof.
  revert st. induction xs as [| x xs IH]; intro st; simpl.
  - reflexivity.
  - rewrite IH. destruct (p x); simpl; [apply iter_comm | reflexivity].
Qed.

(** The inner index loop of step 2 visits the vehicles after position [i]. *)
Lemma overlap_inner_range (vehicles : list Detection) (i : nat) (v : Detection) :
  nth_error vehicles i = Some v ->
  forall (rest pre : list Detection) (st : Counters),
    vehicles = pre ++ rest ->
    fold_left (fun s j => overlap_step vehicles i j s)
              (seq (List.length pre) (List.length rest)) st
    = fold_left (fun s u => if overlapping (v, u) then bump_overlap s else s)
                rest st.
Proof.
  intros Hv. induction rest as [| u rest IH]; intros pre st Heq.
  - reflexivity.
  - cbn [List.length seq fold_left].
    assert (Hu : nth_error vehicles (List.length pre) = Some u).
    { rewrite Heq, nth_error_app2, Nat.sub_diag by lia. reflexivity. }
    unfold overlap_step at 2. rewrite Hv, Hu.
    replace (S (List.length pre)) with (List.length (pre ++ [u]))
      by (rewrite length_app; simpl; lia).
    rewrite (IH (pre ++ [u])).
    + reflexivity.
    + rewrite <- app_assoc. exact Heq.
Qed.

Lemma overlap_outer_range (vehicles : list Detection) :
  forall (rest pre : list Detection) (st : Counters),
    vehicles = pre ++ rest ->
    fold_left (fun s i =>
                 for_range (i + 1) (List.length vehicles)
                   (fun j => overlap_step vehicles i j) s)
              (seq (List.length pre) (List.length rest)) st
    = overlap_scan rest st.
Proof.
  induction rest as [| v rest IH]; intros pre st Heq.
  - reflexivity.
  - cbn [List.length seq fold_left overlap_scan].
    assert (Hv : nth_error vehicles (List.length pre) = Some v).
    { rewrite Heq, nth_error_app2, Nat.sub_diag by lia. reflexivity. }
    assert (Heq' : vehicles = (pre ++ [v]) ++ rest)
      by (rewrite <- app_assoc; exact Heq).
    assert (Hlen : List.length (pre ++ [v]) = (List.length pre + 1)%nat)
      by (rewrite length_app; reflexivity).
    unfold for_range at 2.
    replace (List.length vehicles - (List.length pre + 1))%nat
      with (List.length rest)
      by (rewrite Heq, length_app; simpl; lia).
    rewrite <- Hlen.
    rewrite (overlap_inner_range vehicles (List.length pre) v Hv rest
               (pre ++ [v]) st Heq').
    replace (S (List.length pre)) with (List.length (pre ++ [v])) by lia.
    apply IH. exact Heq'.
Qed.

Lemma overlap_loops_scan (vehicles : list Detection) (st : Counters) :
  for_range 0 (List.length vehicles)
    (fun i => for_range (i + 1) (List.length vehicles)
                (fun j => overlap_step vehicles i j)) st
  = overlap_scan vehicles st.
Proof.
  unfold for_range at 1. rewrite Nat.sub_0_r.
  apply (overlap_outer_range vehicles vehicles [] st). reflexivity.
Qed.

Lemma overlap_scan_count (vehicles : list Detection) (st : Counters) :
  overlap_scan vehicles st
  = Nat.iter (List.length (filter overlapping (unordered_pairs vehicles)))
             bump_overlap st.
Proof.
  revert st. induction vehicles as [| v rest IH]; intro st.
  - reflexivity.
  - cbn [overlap_scan unordered_pairs].
    rewrite IH, filter_app, length_app, <- iter_plus. f_equal.
    rewrite (fold_left_bump (fun u => overlapping (v, u))).
    f_equal. clear. induction rest as [| u rest IH]; simpl.
    + reflexivity.
    + destruct (overlapping (v, u)); simpl; rewrite IH; reflexivity.
Qed.

Lemma proximity_step_spec (w h : Q) (v p : Detection) (st : Counters) :
  proximity_step w h v p st
  = if in_proximity w h (v, p) then bump_proximity st else st.
Proof.
  unfold proximity_step, in_proximity, euclid_lt. cbn [fst snd].
  change (midpoint (bbox v)) with (getCenter (bbox v)).
  change (midpoint (bbox p)) with (getCenter (bbox p)).
  destruct (getCenter (bbox v)) as [cx_v cy_v].
  destruct (getCenter (bbox p)) as [cx_p cy_p]. cbn [fst snd].
  assert (Hh : h * (1 # 2) == h / 2) by field.
  assert (Hw : w * (2 # 10) * (w * (2 # 10)) == (2 # 10) * w * ((2 # 10) * w))
    by ring.
  assert (Hw0 : w * (2 # 10) == (2 # 10) * w) by ring.
  unfold surd_lt, distance, pow2. cbn [radicand fst snd].
  assert (Hnn : Qle_bool 0 ((cx_v - cx_p) * (cx_v - cx_p)
                            + (cy_v - cy_p) * (cy_v - cy_p)) = true).
  { apply Qle_bool_iff. generalize (cx_v - cx_p) (cy_v - cy_p). intros x y. nra. }
  rewrite Hnn, Hh, Hw, Hw0. reflexivity.
Qed.

Lemma fold_left_pointwise {A S : Type} (f g : S -> A -> S) (xs : list A) :
  (forall s x, f s x = g s x) ->
  forall st, fold_left f xs st = fold_left g xs st.
Proof.
  intro Hfg. induction xs as [| x xs IH]; intro st; simpl.
  - reflexivity.
  - rewrite Hfg. apply IH.
Qed.

Lemma proximity_loops_count (w h : Q) (vehicles persons : list Detection)
  (st : Counters) :
  for_of vehicles (fun v => for_of persons (fun p => proximity_step w h v p)) st
  = Nat.iter
      (List.length (filter (in_proximity w h) (list_prod vehicles persons)))
      bump_proximity st.
Proof.
  unfold for_of. revert st.
  induction vehicles as [| v vehicles IH]; intro st.
  - reflexivity.
  - cbn [fold_left list_prod].
    rewrite IH, filter_app, length_app, <- iter_plus. f_equal.
    rewrite (fold_left_pointwise
               (fun s p => proximity_step w h v p s)
               (fun s p => if in_proximity w h (v, p) then bump_proximity s else s))
      by (intros; apply proximity_step_spec).
    rewrite (fold_left_bump (fun p => in_proximity w h (v, p))).
    f_equal. clear. induction persons as [| p persons IH]; simpl.
    + reflexivity.
    + destruct (in_proximity w h (v, p)); simpl; rewrite IH; reflexivity.
Qed.

Lemma computeFrameRisk_frame_risk_ref (dets : list Detection) (w h : Q) :
  computeFrameRisk dets w h = frame_risk_ref dets w h.
Proof.
  unfold computeFrameRisk, frame_risk_ref.
  change (fun d : Detection => includes VEHICLE_CLASSES (className d))
    with is_vehicle.
  change (fun d : Detection => String.eqb (className d) "person")
    with is_person.
  rewrite overlap_loops_scan, overlap_scan_count, iter_bump_overlap.
  rewrite proximity_loops_count, iter_bump_proximity.
  unfold count_if, clamp. cbn [c_score c_overlaps c_proximityRisks].
  f_equal; lia.
Qed.

Lemma vehicle_not_person (d : Detection) : is_vehicle d = true -> is_person d = false.
Proof.
  unfold is_vehicle, is_person. cbn [existsb].
  rewrite !orb_true_iff.
  intros [H | [H | [H | [H | [H | H]]]]];
    try discriminate; apply String.eqb_eq in H; rewrite H; reflexivity.
Qed.

(* ------------------------------------------------------------------ *)
(** ** Analysis orchestrator *)

Lemma round_mono (x y : Q) : x <= y -> (round x <= round y)%Z.
Proof. intro H. unfold round. apply Qfloor_resp_le. lra. Qed.

Lemma round_nonneg (x : Q) : 0 <= x -> (0 <= round x)%Z.
Proof.
  intro H. unfold round.
  change 0%Z with (Qfloor 0). apply Qfloor_resp_le. lra.
Qed.

Lemma inject_Z_nonneg (z : Z) : (0 <= z)%Z -> 0 <= inject_Z z.
Proof. intro H. change 0 with (inject_Z 0). rewrite <- Zle_Qle. exact H. Qed.

Lemma inject_Z_pos (z : Z) : (0 < z)%Z -> 0 < inject_Z z.
Proof. intro H. change 0 with (inject_Z 0). rewrite <- Zlt_Qlt. exact H. Qed.

Lemma progress_percent_range (totalFrames i : Z) :
  (0 < totalFrames)%Z -> (0 <= i)%Z ->
  (0 <= progress_percent totalFrames i <= 95)%Z.
Proof.
  intros Ht Hi. unfold progress_percent.
  assert (H0 : (0 <= round (inject_Z i / inject_Z totalFrames * 100))%Z).
  { apply round_nonneg.
    assert (0 <= inject_Z i) by (apply inject_Z_nonneg; exact Hi).
    assert (0 < inject_Z totalFrames) by (apply inject_Z_pos; exact Ht).
    assert (0 <= inject_Z i / inject_Z totalFrames)
      by (apply Qle_shift_div_l; [assumption | lra]).
    lra. }
  lia.
Qed.

Lemma progress_percent_mono (totalFrames i j : Z) :
  (0 < totalFrames)%Z -> (i <= j)%Z ->
  (progress_percent totalFrames i <= progress_percent totalFrames j)%Z.
Proof.
  intros Ht Hij. unfold progress_percent.
  apply Z.min_le_compat_l, round_mono.
  assert (Hq : inject_Z i <= inject_Z j) by (rewrite <- Zle_Qle; exact Hij).
  assert (Hp : 0 < inject_Z totalFrames) by (apply inject_Z_pos; exact Ht).
  assert (Hd : inject_Z i / inject_Z totalFrames <= inject_Z j / inject_Z totalFrames).
  { unfold Qdiv. apply Qmult_le_compat_r; [exact Hq |].
    apply Qlt_le_weak, Qinv_lt_0_compat, Hp. }
  lra.
Qed.

(** The percentage computed in the loop body is [progress_percent]. *)
Lemma progress_value (totalFrames i : Z) :
  totalFrames <> 0%Z ->
  Math_min (of_Z 95)
    (Math_round (mul (div (of_Z i) (of_Z totalFrames)) (of_Z 100)))
  = of_Z (progress_percent totalFrames i).
Proof.
  intro Ht. unfold div, of_Z.
  rewrite Qeq_bool_false by (unfold Qeq; simpl; lia).
  cbn [mul Math_round]. unfold of_Z, Math_min, progress_percent.
  change (inject_Z 100) with 100.
  set (r := round (inject_Z i / inject_Z totalFrames * 100)).
  destruct (Qle_bool (inject_Z 95) (inject_Z r)) eqn:E.
  - apply Qle_bool_iff in E. rewrite <- Zle_Qle in E.
    rewrite Z.min_l by exact E. reflexivity.
  - assert (Hlt : (r < 95)%Z).
    { destruct (Z.lt_ge_cases r 95) as [Hl | Hg]; [exact Hl |].
      rewrite Zle_Qle in Hg. apply Qle_bool_iff in Hg. congruence. }
    rewrite Z.min_r by lia. reflexivity.
Qed.

Lemma StronglySorted_snoc {A : Type} (R : A -> A -> Prop) (xs : list A) (a : A) :
  StronglySorted R xs -> Forall (fun x => R x a) xs ->
  StronglySorted R (xs ++ [a]).
Proof.
  induction 1 as [| x xs Hs IH Hx]; intro Hall; simpl.
  - constructor; constructor.
  - inversion Hall as [| y ys Hxa Hrest]; subst.
    constructor; [apply IH; exact Hrest |].
    apply Forall_app. split; [exact Hx | constructor; [exact Hxa | constructor]].
Qed.

Section AnalysisFacts.

Variable detect : Z -> list Detection.
Variables maxFrames frameSkip : Z.

Let totalF : Z := totalEstimatedFrames maxFrames frameSkip.
Let Inv : Z -> LoopState -> Prop := loop_invariant detect frameSkip totalF.

(** Skipping an index that fails the stride test keeps the invariant. *)
Lemma invariant_next (i : Z) (st : LoopState) :
  Inv i st -> rem_ne0 i frameSkip = true -> Inv (i + 1) st.
Proof.
  intros (Hi & Hscores & Hlog & Hidx & Hsorted & Hall) Hrem.
  split; [lia |]. split; [exact Hscores |]. split; [exact Hlog |].
  split; [| split; [exact Hsorted |]].
  - eapply Forall_impl; [| exact Hidx]. cbv beta. intros f [Hr Hf].
    split; [exact Hr | lia].
  - intros j Hj Hrj. destruct (Z.eq_dec j i) as [-> | Hne]; [congruence |].
    apply Hall; [lia | exact Hrj].
Qed.

(** One execution of the loop body at a retained index keeps the
    invariant. *)
Lemma invariant_body (i : Z) (st : LoopState) :
  Inv i st -> (i < totalF)%Z -> rem_ne0 i frameSkip = false ->
  let fa :=
    set_frameIndex (computeFrameRisk (detect i) frameWidth frameHeight) i in
  Inv (i + 1)
    (mkLoopState
       (push (frameAnalyses st) fa)
       (push (frameScores st) (score fa))
       (push (progressLog st)
          (Math_min (of_Z 95)
             (Math_round
                (mul (div (of_Z i) (of_Z totalF)) (of_Z 100)))))).
Proof.
  intros (Hi & Hscores & Hlog & Hidx & Hsorted & Hall) Hlt Hrem fa.
  unfold Inv, loop_invariant, push.
  cbn [frameAnalyses frameScores progressLog].
  assert (Hfa : frameIndex fa = i) by reflexivity.
  split; [| split; [| split; [| split; [| split]]]].
  - lia.
  - rewrite map_app, Hscores. reflexivity.
  - rewrite map_app, Hlog. cbn [map]. rewrite Hfa.
    rewrite progress_value by lia. reflexivity.
  - apply Forall_app. split.
    + eapply Forall_impl; [| exact Hidx]. cbv beta. intros f [Hr Hf].
      split; [exact Hr | lia].
    + constructor; [| constructor]. rewrite Hfa.
      split; [| lia]. unfold retained. rewrite Hfa.
      split; [lia |]. split; [exact Hrem | reflexivity].
  - rewrite map_app. cbn [map]. rewrite Hfa.
    apply StronglySorted_snoc; [exact Hsorted |].
    apply Forall_map. eapply Forall_impl; [| exact Hidx].
    cbv beta. intros f [_ Hf]. exact Hf.
  - intros j Hj Hrj. rewrite map_app. apply in_or_app.
    destruct (Z.eq_dec j i) as [-> | Hne].
    + right. left. exact Hfa.
    + left. apply Hall; [lia | exact Hrj].
Qed.

(** The loop ends within its budget and keeps the invariant; it ends
    because the index reached the frame total or because the cap was
    reached. *)
Lemma frame_loop_invariant (fuel : nat) :
  forall (i : Z) (st : LoopState),
    Inv i st ->
    (Z.to_nat (totalF - i) <= fuel)%nat ->
    exists st' i',
      frame_loop detect maxFrames frameSkip fuel i st = Some st' /\
      Inv i' st' /\
      ((totalF <= i')%Z \/
       (maxFrames <= Z.of_nat (List.length (frameAnalyses st')))%Z).
Proof.
  induction fuel as [| fuel IH]; intros i st Hinv Hfuel.
  - exists st, i. split; [| split; [exact Hinv | left; lia]].
    cbn [frame_loop]. change (totalEstimatedFrames maxFrames frameSkip) with totalF.
    destruct (Z.ltb_spec i totalF) as [Hlt | Hge]; [lia | reflexivity].
  - cbn [frame_loop]. change (totalEstimatedFrames maxFrames frameSkip) with totalF.
    destruct (Z.ltb_spec i totalF) as [Hlt | Hge];
      [| exists st, i; split; [reflexivity | split; [exact Hinv | left; lia]]].
    destruct (rem_ne0 i frameSkip) eqn:Hrem.
    + apply IH; [apply invariant_next; assumption | lia].
    + pose proof (invariant_body i st Hinv Hlt Hrem) as Hinv'.
      cbv zeta in Hinv'.
      match goal with
      | |- context [if ?c then Some ?s else _] =>
          destruct c eqn:Hcap;
          [exists s, (i + 1)%Z; split; [reflexivity | split; [exact Hinv' |]] |]
      end.
      * right. apply Z.geb_le in Hcap. exact Hcap.
      * apply IH; [exact Hinv' | lia].
Qed.

Lemma initial_invariant : Inv 0 initial_state.
Proof.
  split; [lia |]. split; [reflexivity |]. split; [reflexivity |].
  split; [constructor |]. split; [constructor |].
  intros j Hj. lia.
Qed.

(** The loop of [analyzeVideo] ends, with the invariant. *)
Lemma frame_loop_ends :
  exists st i',
    frame_loop detect maxFrames frameSkip (Z.to_nat totalF) 0 initial_state
    = Some st /\ Inv i' st /\
    ((totalF <= i')%Z \/
     (maxFrames <= Z.of_nat (List.length (frameAnalyses st)))%Z).
Proof.
  apply frame_loop_invariant; [apply initial_invariant |].
  rewrite Z.sub_0_r. lia.
Qed.

End AnalysisFacts.

(** *** Which frames a run with positive cap and stride analyses *)

Lemma count_below_skip (s i : Z) :
  (0 < s)%Z -> (0 <= i)%Z -> Z.rem i s <> 0%Z ->
  count_below s (i + 1) = count_below s i.
Proof.
  intros Hs Hi Hr. unfold count_below.
  rewrite Z.rem_mod_nonneg in Hr by lia.
  pose proof (Z.div_mod i s ltac:(lia)) as Hdm.
  pose proof (Z.mod_pos_bound i s Hs) as Hb.
  set (q := (i / s)%Z) in *. set (r := (i mod s)%Z) in *.
  assert (E1 : ((i + 1 + s - 1) / s = q + 1)%Z).
  { symmetry. apply (Z.div_unique _ _ _ r); lia. }
  assert (E2 : ((i + s - 1) / s = q + 1)%Z).
  { symmetry. apply (Z.div_unique _ _ _ (r - 1)%Z); lia. }
  lia.
Qed.

Lemma count_below_multiple (s i : Z) :
  (0 < s)%Z -> (0 <= i)%Z -> Z.rem i s = 0%Z ->
  (count_below s i * s = i)%Z /\
  count_below s (i + 1) = (count_below s i + 1)%Z /\
  (0 <= count_below s i)%Z.
Proof.
  intros Hs Hi Hr. unfold count_below.
  rewrite Z.rem_mod_nonneg in Hr by lia.
  pose proof (Z.div_mod i s ltac:(lia)) as Hdm.
  rewrite Hr in Hdm.
  set (q := (i / s)%Z) in *.
  assert (Hq : (0 <= q)%Z) by (apply Z.div_pos; lia).
  assert (E1 : ((i + s - 1) / s = q)%Z).
  { symmetry. apply (Z.div_unique _ _ _ (s - 1)%Z); lia. }
  assert (E2 : ((i + 1 + s - 1) / s = q + 1)%Z).
  { symmetry. apply (Z.div_unique _ _ _ 0%Z); lia. }
  lia.
Qed.

Lemma count_below_total (s m : Z) : (0 < s)%Z -> count_below s (m * s) = m.
Proof.
  intros Hs. unfold count_below. symmetry.
  apply (Z.div_unique _ _ _ (s - 1)%Z); lia.
Qed.

Lemma count_below_mono (s i j : Z) :
  (0 < s)%Z -> (i <= j)%Z -> (count_below s i <= count_below s j)%Z.
Proof. intros Hs Hij. unfold count_below. apply Z.div_le_mono; lia. Qed.

Section StrideFacts.

Variable detect : Z -> list Detection.
Variables maxFrames frameSkip : Z.
Hypothesis cap_positive : (0 < maxFrames)%Z.
Hypothesis stride_positive : (0 < frameSkip)%Z.

Let totalF : Z := totalEstimatedFrames maxFrames frameSkip.

(** At each test of the loop condition the frames analysed so far are
    those of the multiples of the stride below the current index. *)
Lemma frame_loop_stride (fuel : nat) :
  forall (i : Z) (st : LoopState),
    (0 <= i <= totalF)%Z ->
    map frameIndex (frameAnalyses st)
    = map (fun k => (Z.of_nat k * frameSkip)%Z)
          (seq 0 (Z.to_nat (count_below frameSkip i))) ->
    (Z.to_nat (totalF - i) <= fuel)%nat ->
    exists st',
      frame_loop detect maxFrames frameSkip fuel i st = Some st' /\
      map frameIndex (frameAnalyses st') = stride_indices maxFrames frameSkip.
Proof.
  assert (Hend : forall st,
             map frameIndex (frameAnalyses st)
             = map (fun k => (Z.of_nat k * frameSkip)%Z)
                   (seq 0 (Z.to_nat (count_below frameSkip totalF))) ->
             map frameIndex (frameAnalyses st)
             = stride_indices maxFrames frameSkip).
  { intros st Hst. rewrite Hst. unfold totalF, totalEstimatedFrames.
    rewrite count_below_total by exact stride_positive. reflexivity. }
  induction fuel as [| fuel IH]; intros i st Hi Hidx Hfuel.
  - assert (i = totalF) by lia. subst i.
    exists st. split; [| apply Hend; exact Hidx].
    cbn [frame_loop]. change (totalEstimatedFrames maxFrames frameSkip) with totalF.
    rewrite Z.ltb_irrefl. reflexivity.
  - cbn [frame_loop]. change (totalEstimatedFrames maxFrames frameSkip) with totalF.
    destruct (Z.ltb_spec i totalF) as [Hlt | Hge].
    2:{ assert (i = totalF) by lia. subst i.
        exists st. split; [reflexivity | apply Hend; exact Hidx]. }
    unfold rem_ne0 at 1.
    destruct (Z.eqb_spec frameSkip 0) as [E | _]; [lia |].
    destruct (Z.eqb_spec (Z.rem i frameSkip) 0) as [Hrem | Hrem]; cbn [negb].
    + destruct (count_below_multiple frameSkip i stride_positive (proj1 Hi) Hrem)
        as (Hq & Hnext & Hq0).
      set (fa := set_frameIndex
                   (computeFrameRisk (detect i) frameWidth frameHeight) i).
      assert (Hidx' :
                map frameIndex (push (frameAnalyses st) fa)
                = map (fun k => (Z.of_nat k * frameSkip)%Z)
                      (seq 0 (Z.to_nat (count_below frameSkip (i + 1))))).
      { unfold push. rewrite map_app, Hidx, Hnext, Z2Nat.inj_add by lia.
        change (Z.to_nat 1) with 1%nat. rewrite seq_app, map_app.
        cbn [seq map Nat.add]. rewrite Z2Nat.id by lia.
        change (frameIndex fa) with i. rewrite Hq. reflexivity. }
      cbn [frameAnalyses].
      destruct (Z.geb_spec
                  (Z.of_nat (List.length (push (frameAnalyses st) fa)))
                  maxFrames) as [Hcap | Hcap].
      * eexists. split; [reflexivity |]. cbn [frameAnalyses].
        rewrite Hidx'. unfold stride_indices. f_equal. f_equal.
        assert (Hlen : List.length (push (frameAnalyses st) fa)
                       = Z.to_nat (count_below frameSkip (i + 1))).
        { rewrite <- (length_map frameIndex), Hidx', length_map, length_seq.
          reflexivity. }
        assert (Hmax : (count_below frameSkip (i + 1) <= maxFrames)%Z).
        { rewrite <- (count_below_total frameSkip maxFrames stride_positive).
          apply count_below_mono; [exact stride_positive |].
          unfold totalF, totalEstimatedFrames in Hlt. lia. }
        lia.
      * apply IH; [lia | exact Hidx' | lia].
    + apply IH; [lia | | lia].
      rewrite (count_below_skip frameSkip i stride_positive (proj1 Hi) Hrem).
      exact Hidx.
Qed.

(** With a positive cap and stride a run analyses exactly [maxFrames]
    frames, those of the indices 0, [frameSkip], 2 x [frameSkip], ... *)
Lemma processed_frames_stride :
  exists frames,
    processed_frames detect maxFrames frameSkip = Some frames /\
    map frameIndex frames = stride_indices maxFrames frameSkip.
Proof.
  destruct (frame_loop_stride (Z.to_nat totalF) 0 initial_state)
    as (st & Hloop & Hidx).
  - unfold totalF, totalEstimatedFrames. nia.
  - unfold count_below. rewrite Z.div_small by lia. reflexivity.
  - rewrite Z.sub_0_r. lia.
  - exists (frameAnalyses st). split; [| exact Hidx].
    unfold processed_frames. fold totalF. rewrite Hloop. reflexivity.
Qed.

End StrideFacts.

(** Every run ends: the frames it analysed are defined, satisfy the loop
    invariant, and determine what [analyzeVideo] returns. *)
Lemma analyzeVideo_run (detect : Z -> list Detection) (maxFrames frameSkip : Z) :
  exists st i,
    frame_loop detect maxFrames frameSkip
      (Z.to_nat (totalEstimatedFrames maxFrames frameSkip)) 0 initial_state
    = Some st /\
    loop_invariant detect frameSkip
      (totalEstimatedFrames maxFrames frameSkip) i st /\
    ((totalEstimatedFrames maxFrames frameSkip <= i)%Z \/
     (maxFrames <= Z.of_nat (List.length (frameAnalyses st)))%Z) /\
    processed_frames detect maxFrames frameSkip = Some (frameAnalyses st) /\
    exists r,
      analyzeVideo detect maxFrames frameSkip
      = Some (progressLog st ++ [of_Z 100], r) /\
      (frameAnalyses st = [] -> r = degenerate_result) /\
      (frameAnalyses st <> [] ->
       AnalysisResult.riskLevel r = riskLevel (aggregateVideoRisk (frameScores st)) /\
       AnalysisResult.riskScore r = riskScore (aggregateVideoRisk (frameScores st))).
Proof.
  destruct (frame_loop_ends detect maxFrames frameSkip)
    as (st & i & Hloop & Hinv & Hexit).
  exists st, i. split; [exact Hloop |]. split; [exact Hinv |].
  split; [exact Hexit |]. split.
  { unfold processed_frames. rewrite Hloop. reflexivity. }
  unfold analyzeVideo. change (mkLoopState [] [] []) with initial_state.
  rewrite Hloop. unfold push.
  destruct (frameAnalyses st) as [| f fs] eqn:Hfs.
  - eexists. split; [reflexivity |]. split; [reflexivity | congruence].
  - eexists. split; [reflexivity |]. split; [discriminate |].
    intros _. split; reflexivity.
Qed.

(** C7.  A run that analyses no frame returns the degenerate result (LOW,
    score 0, no violation, all six statistics 0) after exactly one call of
    the progress callback, with 100; a frame cap of 0 is such a run. *)
Theorem analyzeVideo_zero_frames (detect : Z -> list Detection)
  (maxFrames frameSkip : Z) :
  (processed_frames detect maxFrames frameSkip = Some [] ->
   analyzeVideo detect maxFrames frameSkip = Some ([of_Z 100], degenerate_result)) /\
  (maxFrames = 0%Z ->
   processed_frames detect maxFrames frameSkip = Some [] /\
   analyzeVideo detect maxFrames frameSkip = Some ([of_Z 100], degenerate_result)) /\
  (forall log r,
     analyzeVideo detect maxFrames frameSkip = Some (log, r) -> In (of_Z 100) log).
Proof.
  destruct (analyzeVideo_run detect maxFrames frameSkip)
    as (st & i & Hloop & Hinv & _ & Hframes & r & Hrun & Hdeg & _).
  assert (Hzero : processed_frames detect maxFrames frameSkip = Some [] ->
                  analyzeVideo detect maxFrames frameSkip
                  = Some ([of_Z 100], degenerate_result)).
  { intro Hnone. rewrite Hframes in Hnone. injection Hnone as Hnil.
    destruct Hinv as (_ & _ & Hlog & _). rewrite Hnil in Hlog.
    rewrite Hrun, Hlog, (Hdeg Hnil). reflexivity. }
  split; [exact Hzero |]. split.
  - intro Hcap.
    assert (Hnone : processed_frames detect maxFrames frameSkip = Some []).
    { subst maxFrames. reflexivity. }
    split; [exact Hnone | apply Hzero; exact Hnone].
  - intros log r' Hlr. rewrite Hrun in Hlr. injection Hlr as <- _.
    apply in_or_app. right. left. reflexivity.
Qed.

Lemma analyzeVideo_zero_frames_witness :
  analyzeVideo detect_20 0 3 = Some ([of_Z 100], degenerate_result) /\
  analyzeVideo detect_20 50 0 = Some ([of_Z 100], degenerate_result).
Proof.
  split.
  - apply (proj1 (proj2 (analyzeVideo_zero_frames detect_20 0 3))). reflexivity.
  - apply (proj1 (analyzeVideo_zero_frames detect_20 50 0)). reflexivity.
Defined.

Lemma percents_sorted (totalFrames : Z) (frames : list FrameAnalysis) :
  StronglySorted Z.lt (map frameIndex frames) ->
  Forall (fun f => (0 <= frameIndex f < totalFrames)%Z) frames ->
  StronglySorted Z.le
    (map (fun f => progress_percent totalFrames (frameIndex f)) frames).
Proof.
  induction frames as [| f fs IH]; intros Hs Hall; cbn [map] in *.
  - constructor.
  - apply StronglySorted_inv in Hs. destruct Hs as [Hs Hf].
    inversion Hall as [| f' fs' Hfr Hrest]; subst.
    constructor; [apply IH; assumption |].
    apply Forall_map. rewrite Forall_map in Hf.
    eapply Forall_impl; [| exact Hf]. cbv beta. intros g Hg.
    apply progress_percent_mono; lia.
Qed.

(** At a multiple of the stride the percentage is that of the number of
    frames analysed before, out of the cap. *)
Lemma progress_percent_stride (maxFrames frameSkip k : Z) :
  (0 < maxFrames)%Z -> (0 < frameSkip)%Z ->
  progress_percent (totalEstimatedFrames maxFrames frameSkip) (k * frameSkip)
  = progress_percent maxFrames k.
Proof.
  intros Hm Hs. unfold progress_percent, totalEstimatedFrames, round.
  f_equal. apply Qfloor_comp.
  rewrite !inject_Z_mult.
  pose proof (inject_Z_pos _ Hm). pose proof (inject_Z_pos _ Hs).
  field. split; lra.
Qed.

Lemma percents_range (totalFrames : Z) (frames : list FrameAnalysis) :
  Forall (fun f => (0 <= frameIndex f < totalFrames)%Z) frames ->
  Forall (fun z => (0 <= z <= 95)%Z)
    (map (fun f => progress_percent totalFrames (frameIndex f)) frames).
Proof.
  intro Hall. apply Forall_map. eapply Forall_impl; [| exact Hall].
  cbv beta. intros f Hf. apply progress_percent_range; lia.
Qed.

Lemma level_of_mean_mono (m1 m2 : Q) :
  m1 <= m2 ->
  (level_rank (level_of_mean m1) <= level_rank (level_of_mean m2))%nat.
Proof.
  intro H. unfold level_of_mean.
  destruct (Qltb m1 20) eqn:A1; [apply Qltb_lt in A1 | apply Qltb_ge in A1];
  destruct (Qltb m1 50) eqn:B1; try apply Qltb_lt in B1; try apply Qltb_ge in B1;
  destruct (Qltb m1 75) eqn:C1; try apply Qltb_lt in C1; try apply Qltb_ge in C1;
  destruct (Qltb m2 20) eqn:A2; try apply Qltb_lt in A2; try apply Qltb_ge in A2;
  destruct (Qltb m2 50) eqn:B2; try apply Qltb_lt in B2; try apply Qltb_ge in B2;
  destruct (Qltb m2 75) eqn:C2; try apply Qltb_lt in C2; try apply Qltb_ge in C2;
  simpl; try lia; exfalso; lra.
Qed.

Lemma round_lt_inv (m1 m2 : Q) : (round m1 < round m2)%Z -> m1 <= m2.
Proof.
  intro H. destruct (Qlt_le_dec m2 m1) as [Hlt | Hle]; [| exact Hle].
  assert (Hr : (round m2 <= round m1)%Z) by (apply round_mono; lra). lia.
Qed.

Lemma run_result_cases (detect : Z -> list Detection) (maxFrames frameSkip : Z) :
  exists frames r,
    processed_frames detect maxFrames frameSkip = Some frames /\
    run_result detect maxFrames frameSkip = Some r /\
    (frames = [] ->
     AnalysisResult.riskScore r = of_Z 0 /\ AnalysisResult.riskLevel r = LOW) /\
    (frames <> [] ->
     AnalysisResult.riskScore r = of_Z (round (mean (map score frames))) /\
     AnalysisResult.riskLevel r = level_of_mean (mean (map score frames))).
Proof.
  destruct (analyzeVideo_run detect maxFrames frameSkip)
    as (st & i & Hloop & Hinv & _ & Hframes & r & Hrun & Hdeg & Hagg).
  destruct Hinv as (_ & Hscores & _).
  exists (frameAnalyses st), r.
  split; [exact Hframes |]. split.
  { unfold run_result. rewrite Hrun. reflexivity. }
  split.
  - intro Hnil. rewrite (Hdeg Hnil). split; reflexivity.
  - intro Hne. destruct (Hagg Hne) as [Hl Hs].
    assert (Hne' : map score (frameAnalyses st) <> []).
    { destruct (frameAnalyses st); [congruence | discriminate]. }
    rewrite Hscores, (aggregateVideoRisk_mean _ Hne') in Hl, Hs.
    split; assumption.
Qed.

(** C3, as the code has it.  The score of a completed analysis is the
    rounded mean of the scores of the analysed frames, and 0 with tier LOW
    when no frame was analysed; the tier is a function of the unrounded
    mean, monotone in it; hence of two results the one with the higher
    score never has the lower tier. *)
Theorem analyzeVideo_score_and_level :
  (forall detect maxFrames frameSkip,
     exists frames r,
       processed_frames detect maxFrames frameSkip = Some frames /\
       run_result detect maxFrames frameSkip = Some r /\
       (frames = [] ->
        AnalysisResult.riskScore r = of_Z 0 /\ AnalysisResult.riskLevel r = LOW) /\
       (frames <> [] ->
        AnalysisResult.riskScore r = of_Z (round (mean (map score frames))) /\
        AnalysisResult.riskLevel r = level_of_mean (mean (map score frames)))) /\
  (forall m1 m2,
     m1 <= m2 ->
     (level_rank (level_of_mean m1) <= level_rank (level_of_mean m2))%nat) /\
  (forall detect1 maxFrames1 frameSkip1 detect2 maxFrames2 frameSkip2 r1 r2,
     run_result detect1 maxFrames1 frameSkip1 = Some r1 ->
     run_result detect2 maxFrames2 frameSkip2 = Some r2 ->
     lt (AnalysisResult.riskScore r1) (AnalysisResult.riskScore r2) = true ->
     (level_rank (AnalysisResult.riskLevel r1) <= level_rank (AnalysisResult.riskLevel r2))%nat).
Proof.
  split; [exact run_result_cases |]. split; [exact level_of_mean_mono |].
  intros d1 mf1 fs1 d2 mf2 fs2 r1 r2 H1 H2 Hlt.
  destruct (run_result_cases d1 mf1 fs1) as (frames1 & r1' & _ & H1' & Hz1 & Hn1).
  destruct (run_result_cases d2 mf2 fs2) as (frames2 & r2' & _ & H2' & Hz2 & Hn2).
  assert (r1' = r1) by congruence. assert (r2' = r2) by congruence. subst r1' r2'.
  destruct frames1 as [| f1 frames1].
  { destruct (Hz1 eq_refl) as [_ ->]. simpl. lia. }
  destruct (Hn1 ltac:(discriminate)) as [Hs1 Hl1].
  destruct frames2 as [| f2 frames2].
  - destruct (Hz2 eq_refl) as [Hs2 Hl2].
    rewrite Hs1, Hs2 in Hlt. rewrite Hl1, Hl2.
    change (Qltb (inject_Z (round (mean (map score (f1 :: frames1)))))
                 (inject_Z 0) = true) in Hlt.
    apply Qltb_lt in Hlt. rewrite <- Zlt_Qlt in Hlt.
    change (level_rank LOW) with (level_rank (level_of_mean 0)).
    apply level_of_mean_mono. apply round_lt_inv.
    change (round 0) with 0%Z. exact Hlt.
  - destruct (Hn2 ltac:(discriminate)) as [Hs2 Hl2].
    rewrite Hs1, Hs2 in Hlt. rewrite Hl1, Hl2.
    change (Qltb (inject_Z (round (mean (map score (f1 :: frames1)))))
                 (inject_Z (round (mean (map score (f2 :: frames2))))) = true)
      in Hlt.
    apply Qltb_lt in Hlt. rewrite <- Zlt_Qlt in Hlt.
    apply level_of_mean_mono, round_lt_inv, Hlt.
Qed.

Lemma analyzeVideo_score_and_level_witness :
  exists r1 r2,
    run_result detect_19 1 1 = Some r1 /\
    run_result detect_20 1 1 = Some r2 /\
    (level_rank (AnalysisResult.riskLevel r1) <= level_rank (AnalysisResult.riskLevel r2))%nat.
Proof.
  destruct (run_result detect_19 1 1) as [r1 |] eqn:H1; [| discriminate].
  destruct (run_result detect_20 1 1) as [r2 |] eqn:H2; [| discriminate].
  exists r1, r2. split; [reflexivity |]. split; [reflexivity |].
  apply (proj2 (proj2 analyzeVideo_score_and_level)
               detect_19 1%Z 1%Z detect_20 1%Z 1%Z r1 r2 H1 H2).
  injection H1 as <-. injection H2 as <-. reflexivity.
Defined.

(** C3, as stated, fails.  Two completed analyses of three frames have the
    same score 20 and different tiers: frames scoring 19, 20, 20 have mean
    59/3, tier LOW, and frames scoring 20, 20, 20 have mean 20, tier
    MEDIUM. *)
Lemma equal_score_different_level :
  exists r1 r2,
    run_result detect_19_then_20 3 1 = Some r1 /\
    run_result detect_20 3 1 = Some r2 /\
    option_map (map score) (processed_frames detect_19_then_20 3 1)
      = Some [19; 20; 20]%Z /\
    option_map (map score) (processed_frames detect_20 3 1)
      = Some [20; 20; 20]%Z /\
    AnalysisResult.riskScore r1 = of_Z 20 /\ AnalysisResult.riskScore r2 = of_Z 20 /\
    AnalysisResult.riskLevel r1 = LOW /\ AnalysisResult.riskLevel r2 = MEDIUM.
Proof.
  eexists. eexists.
  split; [vm_compute; reflexivity |]. split; [vm_compute; reflexivity |].
  repeat split; vm_compute; reflexivity.
Qed.


(* ================================================================== *)
(** * Further properties of the code *)

(* ------------------------------------------------------------------ *)
(** ** Frame risk: bounds and invariance *)

Lemma unordered_pairs_length {A : Type} (xs : list A) :
  (2 * List.length (unordered_pairs xs)
   = List.length xs * (List.length xs - 1))%nat.
Proof.
  induction xs as [| x xs IH]; [reflexivity |].
  cbn [unordered_pairs List.length].
  rewrite length_app, length_map. nia.
Qed.

Lemma filter_disjoint_length {A : Type} (p q : A -> bool) (xs : list A) :
  (forall x, p x = true -> q x = false) ->
  (List.length (filter p xs) + List.length (filter q xs) <= List.length xs)%nat.
Proof.
  intro Hpq. induction xs as [| x xs IH]; [simpl; lia |].
  cbn [filter List.length].
  destruct (p x) eqn:Hp.
  - rewrite (Hpq x Hp). cbn [List.length]. lia.
  - destruct (q x); cbn [List.length]; lia.
Qed.

Lemma clamp_range (x : Z) : (0 <= clamp 0 100 x <= 100)%Z.
Proof. unfold clamp. lia. Qed.

(** X1.  Whatever the detections and the frame size, the score of a frame
    lies between 0 and 100, vehicles and persons together are at most the
    detections, the overlap incidents are at most the number of pairs of
    vehicles and the proximity incidents at most the number of
    vehicle-person pairs. *)
Theorem computeFrameRisk_bounds (dets : list Detection) (w h : Q) :
  (0 <= score (computeFrameRisk dets w h) <= 100)%Z /\
  (0 <= vehicleCount (computeFrameRisk dets w h))%Z /\
  (0 <= personCount (computeFrameRisk dets w h))%Z /\
  (vehicleCount (computeFrameRisk dets w h)
   + personCount (computeFrameRisk dets w h)
   <= Z.of_nat (List.length dets))%Z /\
  (0 <= 2 * overlaps (computeFrameRisk dets w h)
     <= vehicleCount (computeFrameRisk dets w h)
        * (vehicleCount (computeFrameRisk dets w h) - 1))%Z /\
  (0 <= proximityRisks (computeFrameRisk dets w h)
     <= vehicleCount (computeFrameRisk dets w h)
        * personCount (computeFrameRisk dets w h))%Z.
Proof.
  rewrite computeFrameRisk_frame_risk_ref. unfold frame_risk_ref, count_if.
  cbn [score vehicleCount personCount overlaps proximityRisks].
  set (vs := filter is_vehicle dets). set (ps := filter is_person dets).
  pose proof (filter_disjoint_length is_vehicle is_person dets vehicle_not_person)
    as Hdisj.
  fold vs ps in Hdisj.
  pose proof (filter_length_le overlapping (unordered_pairs vs)) as Hov.
  pose proof (unordered_pairs_length vs) as Hpairs.
  pose proof (filter_length_le (in_proximity w h) (list_prod vs ps)) as Hpr.
  rewrite length_prod in Hpr.
  split; [apply clamp_range |].
  repeat split; try lia; nia.
Qed.

Lemma filter_filter_sub {A : Type} (p q : A -> bool) (xs : list A) :
  (forall x, p x = true -> q x = true) ->
  filter p (filter q xs) = filter p xs.
Proof.
  intro Hpq. induction xs as [| x xs IH]; [reflexivity |].
  cbn [filter]. destruct (q x) eqn:Hq; cbn [filter].
  - rewrite IH. reflexivity.
  - destruct (p x) eqn:Hp; [| exact IH].
    rewrite (Hpq x Hp) in Hq. discriminate.
Qed.

(** X2.  Detections that are neither vehicles nor persons do not count:
    dropping them from the list leaves the score and the four counts of the
    frame unchanged. *)
Theorem computeFrameRisk_ignores_other_classes (dets : list Detection) (w h : Q) :
  score (computeFrameRisk (filter (fun d => is_vehicle d || is_person d) dets) w h)
  = score (computeFrameRisk dets w h) /\
  vehicleCount (computeFrameRisk (filter (fun d => is_vehicle d || is_person d) dets) w h)
  = vehicleCount (computeFrameRisk dets w h) /\
  personCount (computeFrameRisk (filter (fun d => is_vehicle d || is_person d) dets) w h)
  = personCount (computeFrameRisk dets w h) /\
  overlaps (computeFrameRisk (filter (fun d => is_vehicle d || is_person d) dets) w h)
  = overlaps (computeFrameRisk dets w h) /\
  proximityRisks (computeFrameRisk (filter (fun d => is_vehicle d || is_person d) dets) w h)
  = proximityRisks (computeFrameRisk dets w h).
Proof.
  rewrite !computeFrameRisk_frame_risk_ref. unfold frame_risk_ref, count_if.
  cbn [score vehicleCount personCount overlaps proximityRisks].
  rewrite (filter_filter_sub is_vehicle (fun d => is_vehicle d || is_person d) dets)
    by (intros x Hx; rewrite Hx; reflexivity).
  rewrite (filter_filter_sub is_person (fun d => is_vehicle d || is_person d) dets)
    by (intros x Hx; rewrite Hx; apply orb_true_r).
  repeat split.
Qed.

(** *** The order of the detections does not matter *)

Lemma Permutation_filter_keep {A : Type} (p : A -> bool) (xs ys : list A) :
  Permutation xs ys -> Permutation (filter p xs) (filter p ys).
Proof.
  induction 1 as [| x xs ys _ IH | x y xs | xs ys zs _ IH1 _ IH2]; cbn [filter].
  - constructor.
  - destruct (p x); [constructor |]; exact IH.
  - destruct (p x), (p y); try apply Permutation_refl.
    apply perm_swap.
  - eapply Permutation_trans; eassumption.
Qed.

Lemma count_if_perm {A : Type} (p : A -> bool) (xs ys : list A) :
  Permutation xs ys -> count_if p xs = count_if p ys.
Proof.
  intro H. unfold count_if. f_equal.
  apply Permutation_length, Permutation_filter_keep, H.
Qed.

Lemma count_if_app {A : Type} (p : A -> bool) (xs ys : list A) :
  count_if p (xs ++ ys) = (count_if p xs + count_if p ys)%Z.
Proof. unfold count_if. rewrite filter_app, length_app. lia. Qed.

Lemma count_if_map {A B : Type} (f : A -> B) (p : B -> bool) (xs : list A) :
  count_if p (map f xs) = count_if (fun x => p (f x)) xs.
Proof.
  unfold count_if. f_equal.
  induction xs as [| x xs IH]; [reflexivity |].
  cbn [map filter]. destruct (p (f x)); cbn [List.length]; rewrite IH; reflexivity.
Qed.

Lemma count_if_cons {A : Type} (p : A -> bool) (x : A) (xs : list A) :
  count_if p (x :: xs) = ((if p x then 1 else 0) + count_if p xs)%Z.
Proof.
  unfold count_if. cbn [filter].
  destruct (p x); cbn [List.length]; lia.
Qed.

Lemma count_if_nonneg {A : Type} (p : A -> bool) (xs : list A) :
  (0 <= count_if p xs)%Z.
Proof. unfold count_if. lia. Qed.

(** Counting the unordered pairs that satisfy a symmetric test does not
    depend on the order of the list. *)
Lemma count_pairs_perm {A : Type} (p : A * A -> bool) (xs ys : list A) :
  (forall a b, p (a, b) = p (b, a)) ->
  Permutation xs ys ->
  count_if p (unordered_pairs xs) = count_if p (unordered_pairs ys).
Proof.
  intros Hsym.
  induction 1 as [| x xs ys Hp IH | x y xs | xs ys zs _ IH1 _ IH2].
  - reflexivity.
  - cbn [unordered_pairs]. rewrite !count_if_app, !count_if_map, IH.
    rewrite (count_if_perm _ xs ys Hp). reflexivity.
  - cbn [unordered_pairs map].
    repeat rewrite ?count_if_app, ?count_if_cons, ?count_if_map.
    rewrite (Hsym y x). lia.
  - congruence.
Qed.

Lemma count_prod_cons_r {A B : Type} (p : A * B -> bool) (xs : list A)
  (y : B) (ys : list B) :
  count_if p (list_prod xs (y :: ys))
  = (count_if (fun x => p (x, y)) xs + count_if p (list_prod xs ys))%Z.
Proof.
  induction xs as [| x xs IH]; [reflexivity |].
  cbn [list_prod map].
  repeat rewrite ?count_if_app, ?count_if_cons, ?count_if_map.
  rewrite IH. lia.
Qed.

Lemma count_prod_perm {A B : Type} (p : A * B -> bool)
  (xs xs' : list A) (ys ys' : list B) :
  Permutation xs xs' -> Permutation ys ys' ->
  count_if p (list_prod xs ys) = count_if p (list_prod xs' ys').
Proof.
  intros Hx Hy.
  transitivity (count_if p (list_prod xs ys')).
  - clear Hx. induction Hy as [| y ys ys' _ IH | y z ys | ys1 ys2 ys3 _ IH1 _ IH2].
    + reflexivity.
    + rewrite !count_prod_cons_r, IH. reflexivity.
    + rewrite !count_prod_cons_r. lia.
    + congruence.
  - clear Hy. induction Hx as [| x xs xs' _ IH | x z xs | xs1 xs2 xs3 _ IH1 _ IH2].
    + reflexivity.
    + cbn [list_prod]. rewrite !count_if_app, IH. reflexivity.
    + cbn [list_prod]. rewrite !count_if_app. lia.
    + congruence.
Qed.

Lemma lt_eqv_l (a b c : number) : eqv a b -> lt c a = lt c b.
Proof.
  destruct a as [x | | |], b as [y | | |], c as [z | | |];
    cbn [eqv lt]; intro H; try contradiction; try reflexivity.
  rewrite H. reflexivity.
Qed.

Lemma overlapping_sym (a b : Detection) : overlapping (a, b) = overlapping (b, a).
Proof.
  unfold overlapping, gt. cbn [fst snd].
  apply lt_eqv_l, iou_sym.
Qed.

Lemma frame_risk_ref_perm (dets dets' : list Detection) (w h : Q) :
  Permutation dets dets' ->
  score (frame_risk_ref dets w h) = score (frame_risk_ref dets' w h) /\
  vehicleCount (frame_risk_ref dets w h) = vehicleCount (frame_risk_ref dets' w h) /\
  personCount (frame_risk_ref dets w h) = personCount (frame_risk_ref dets' w h) /\
  overlaps (frame_risk_ref dets w h) = overlaps (frame_risk_ref dets' w h) /\
  proximityRisks (frame_risk_ref dets w h) = proximityRisks (frame_risk_ref dets' w h).
Proof.
  intro Hp. unfold frame_risk_ref.
  cbn [score vehicleCount personCount overlaps proximityRisks].
  pose proof (Permutation_filter_keep is_vehicle _ _ Hp) as Hv.
  pose proof (Permutation_filter_keep is_person _ _ Hp) as Hq.
  rewrite (count_if_perm is_vehicle _ _ Hp), (count_if_perm is_person _ _ Hp).
  rewrite (count_pairs_perm overlapping _ _ overlapping_sym Hv).
  rewrite (count_prod_perm (in_proximity w h) _ _ _ _ Hv Hq).
  repeat split.
Qed.

(** X3.  The score and the four counts of a frame do not depend on the
    order in which the detections are listed. *)
Theorem computeFrameRisk_order_independent (dets dets' : list Detection) (w h : Q) :
  Permutation dets dets' ->
  score (computeFrameRisk dets w h) = score (computeFrameRisk dets' w h) /\
  vehicleCount (computeFrameRisk dets w h) = vehicleCount (computeFrameRisk dets' w h) /\
  personCount (computeFrameRisk dets w h) = personCount (computeFrameRisk dets' w h) /\
  overlaps (computeFrameRisk dets w h) = overlaps (computeFrameRisk dets' w h) /\
  proximityRisks (computeFrameRisk dets w h)
  = proximityRisks (computeFrameRisk dets' w h).
Proof.
  intro Hp. rewrite !computeFrameRisk_frame_risk_ref.
  apply frame_risk_ref_perm, Hp.
Qed.

Lemma computeFrameRisk_order_independent_witness :
  score (computeFrameRisk frame_19 1920 1080)
  = score (computeFrameRisk (rev frame_19) 1920 1080).
Proof.
  apply (proj1 (computeFrameRisk_order_independent
                  frame_19 (rev frame_19) 1920 1080 (Permutation_rev frame_19))).
Defined.

Lemma clamp_mono (x y : Z) : (x <= y)%Z -> (clamp 0 100 x <= clamp 0 100 y)%Z.
Proof. unfold clamp. lia. Qed.

Lemma frame_risk_ref_cons_le (d : Detection) (dets : list Detection) (w h : Q) :
  (score (frame_risk_ref dets w h) <= score (frame_risk_ref (d :: dets) w h))%Z /\
  (vehicleCount (frame_risk_ref dets w h)
   <= vehicleCount (frame_risk_ref (d :: dets) w h))%Z /\
  (personCount (frame_risk_ref dets w h)
   <= personCount (frame_risk_ref (d :: dets) w h))%Z /\
  (overlaps (frame_risk_ref dets w h)
   <= overlaps (frame_risk_ref (d :: dets) w h))%Z /\
  (proximityRisks (frame_risk_ref dets w h)
   <= proximityRisks (frame_risk_ref (d :: dets) w h))%Z.
Proof.
  unfold frame_risk_ref.
  cbn [score vehicleCount personCount overlaps proximityRisks].
  rewrite !(count_if_cons _ d dets). cbn [filter].
  set (vs := filter is_vehicle dets). set (ps := filter is_person dets).
  pose proof (count_if_nonneg (fun u => overlapping (d, u)) vs) as H1.
  pose proof (count_if_nonneg (fun p => in_proximity w h (d, p)) ps) as H2.
  pose proof (count_if_nonneg (fun v => in_proximity w h (v, d)) vs) as H3.
  destruct (is_vehicle d) eqn:Hv.
  - rewrite (vehicle_not_person d Hv).
    cbn [unordered_pairs list_prod].
    rewrite !count_if_app, !count_if_map.
    split; [apply clamp_mono |]; lia.
  - destruct (is_person d) eqn:Hp.
    + rewrite count_prod_cons_r.
      split; [apply clamp_mono |]; lia.
    + split; [apply clamp_mono |]; lia.
Qed.

(** X4.  One more detection never lowers the result of a frame: inserting
    a detection anywhere in the list leaves the score and each of the four
    counts at least as large as before. *)
Theorem computeFrameRisk_monotone (l1 l2 : list Detection) (d : Detection) (w h : Q) :
  (score (computeFrameRisk (l1 ++ l2) w h)
   <= score (computeFrameRisk (l1 ++ d :: l2) w h))%Z /\
  (vehicleCount (computeFrameRisk (l1 ++ l2) w h)
   <= vehicleCount (computeFrameRisk (l1 ++ d :: l2) w h))%Z /\
  (personCount (computeFrameRisk (l1 ++ l2) w h)
   <= personCount (computeFrameRisk (l1 ++ d :: l2) w h))%Z /\
  (overlaps (computeFrameRisk (l1 ++ l2) w h)
   <= overlaps (computeFrameRisk (l1 ++ d :: l2) w h))%Z /\
  (proximityRisks (computeFrameRisk (l1 ++ l2) w h)
   <= proximityRisks (computeFrameRisk (l1 ++ d :: l2) w h))%Z.
Proof.
  rewrite !computeFrameRisk_frame_risk_ref.
  pose proof (frame_risk_ref_perm (d :: l1 ++ l2) (l1 ++ d :: l2) w h
                (Permutation_middle l1 l2 d)) as (Es & Ev & Ep & Eo & Er).
  rewrite <- Es, <- Ev, <- Ep, <- Eo, <- Er.
  apply frame_risk_ref_cons_le.
Qed.

Lemma no_vehicle_no_pair (dets : list Detection) (w h : Q) :
  filter is_vehicle dets = [] ->
  overlaps (frame_risk_ref dets w h) = 0%Z /\
  proximityRisks (frame_risk_ref dets w h) = 0%Z.
Proof.
  intro Hv. unfold frame_risk_ref. cbn [overlaps proximityRisks].
  rewrite Hv. split; reflexivity.
Qed.

(** A person whose box centre is not below the middle of the frame is in
    proximity of no vehicle. *)
Lemma upper_half_not_in_proximity (w h : Q) (v p : Detection) :
  snd (getCenter (bbox p)) <= h / 2 -> in_proximity w h (v, p) = false.
Proof.
  intro Hy. unfold in_proximity. cbn [fst snd].
  change (midpoint (bbox p)) with (getCenter (bbox p)).
  apply andb_false_iff. left. apply Qltb_ge. exact Hy.
Qed.

Lemma count_if_none {A : Type} (p : A -> bool) (xs : list A) :
  (forall x, In x xs -> p x = false) -> count_if p xs = 0%Z.
Proof.
  intro H. unfold count_if.
  induction xs as [| x xs IH]; [reflexivity |].
  cbn [filter]. rewrite (H x (or_introl eq_refl)).
  apply IH. intros y Hy. apply H. right. exact Hy.
Qed.

(** X5.  A frame without vehicles has no incident and scores 5 per person,
    capped at 100; and a frame in which no person's box centre is below
    mid-height has no proximity incident, however close the vehicles. *)
Theorem computeFrameRisk_no_incident (dets : list Detection) (w h : Q) :
  ((forall d, In d dets -> is_vehicle d = false) ->
   overlaps (computeFrameRisk dets w h) = 0%Z /\
   proximityRisks (computeFrameRisk dets w h) = 0%Z /\
   score (computeFrameRisk dets w h)
   = Z.min 100 (5 * personCount (computeFrameRisk dets w h))) /\
  ((forall d, In d dets -> is_person d = true ->
              snd (getCenter (bbox d)) <= h / 2) ->
   proximityRisks (computeFrameRisk dets w h) = 0%Z).
Proof.
  rewrite computeFrameRisk_frame_risk_ref. split.
  - intro Hnone.
    assert (Hv : filter is_vehicle dets = []).
    { induction dets as [| d dets IH]; [reflexivity |].
      cbn [filter]. rewrite (Hnone d (or_introl eq_refl)).
      apply IH. intros x Hx. apply Hnone. right. exact Hx. }
    destruct (no_vehicle_no_pair dets w h Hv) as [Ho Hp].
    split; [exact Ho |]. split; [exact Hp |].
    unfold frame_risk_ref, count_if, clamp.
    cbn [score personCount]. rewrite Hv. cbn [List.length unordered_pairs list_prod filter].
    lia.
  - intro Hupper. unfold frame_risk_ref. cbn [proximityRisks].
    apply count_if_none. intros [v p] Hin.
    apply in_prod_iff in Hin. destruct Hin as [_ Hp].
    apply filter_In in Hp. destruct Hp as [Hp1 Hp2].
    apply upper_half_not_in_proximity. apply Hupper; assumption.
Qed.

Lemma computeFrameRisk_no_incident_witness :
  proximityRisks (computeFrameRisk frame_19 1920 1080) = 0%Z /\
  score (computeFrameRisk [person_at 0; person_at 100] 1920 1080) = 10%Z.
Proof.
  split.
  - apply (proj2 (computeFrameRisk_no_incident frame_19 1920 1080)).
    intros d Hd _.
    repeat (destruct Hd as [<- | Hd]; [discriminate |]). destruct Hd.
  - apply (proj1 (computeFrameRisk_no_incident
                    [person_at 0; person_at 100] 1920 1080)).
    intros d Hd.
    repeat (destruct Hd as [<- | Hd]; [reflexivity |]). destruct Hd.
Defined.

(* ------------------------------------------------------------------ *)
(** ** Geometry kernel: further properties *)













(* ------------------------------------------------------------------ *)
(** ** Video aggregator: further properties *)

Lemma round_inject_Z (z : Z) : round (inject_Z z) = z.
Proof.
  unfold round.
  assert (Hlo : (z <= Qfloor (inject_Z z + (1 # 2)))%Z).
  { rewrite <- (Qfloor_Z z) at 1. apply Qfloor_resp_le. lra. }
  assert (Hhi : (Qfloor (inject_Z z + (1 # 2)) < z + 1)%Z).
  { pose proof (Qfloor_le (inject_Z z + (1 # 2))) as H.
    rewrite Zlt_Qlt, inject_Z_plus. change (inject_Z 1) with 1. lra. }
  lia.
Qed.

Lemma round_between (lo hi : Z) (q : Q) :
  inject_Z lo <= q -> q <= inject_Z hi -> (lo <= round q <= hi)%Z.
Proof.
  intros Hlo Hhi. split.
  - rewrite <- (round_inject_Z lo). apply round_mono. exact Hlo.
  - rewrite <- (round_inject_Z hi). apply round_mono. exact Hhi.
Qed.

(** X8.  The aggregate score of a non-empty list of frame scores is an
    integer between the bounds of the frame scores: scores within [lo, hi]
    give an aggregate within [lo, hi].  So frame scores in 0..100 give an
    aggregate in 0..100, and a list that repeats one score gives that
    score. *)
Theorem aggregateVideoRisk_between (lo hi : Z) (xs : list Z) :
  xs <> [] ->
  (forall x, In x xs -> lo <= x <= hi)%Z ->
  exists z, riskScore (aggregateVideoRisk xs) = of_Z z /\ (lo <= z <= hi)%Z.
Proof.
  intros Hne Hrange.
  rewrite (aggregateVideoRisk_mean xs Hne). cbn [riskScore].
  exists (round (mean xs)). split; [reflexivity |].
  destruct (mean_bounds lo hi xs Hne Hrange) as [Hlo Hhi].
  apply round_between; assumption.
Qed.

Lemma aggregateVideoRisk_between_witness :
  exists z, riskScore (aggregateVideoRisk [42; 42; 42]%Z) = of_Z z /\ (42 <= z <= 42)%Z.
Proof.
  apply (aggregateVideoRisk_between 42 42 [42; 42; 42]%Z); [discriminate |].
  intros x [<- | [<- | [<- | []]]]; lia.
Defined.

Lemma total_Forall2_le (xs ys : list Z) :
  Forall2 Z.le xs ys -> (total xs <= total ys)%Z.
Proof.
  induction 1 as [| x y xs ys Hxy _ IH]; cbn [total fold_right].
  - lia.
  - fold (total xs) (total ys). lia.
Qed.

Lemma mean_Forall2_le (xs ys : list Z) :
  Forall2 Z.le xs ys -> mean xs <= mean ys.
Proof.
  intro H. unfold mean.
  rewrite <- (Forall2_length H).
  pose proof (total_Forall2_le xs ys H) as Ht.
  destruct xs as [| x xs].
  - inversion H; subst. apply Qle_refl.
  - assert (Hn : 0 < inject_Z (Z.of_nat (List.length (x :: xs)))).
    { apply inject_Z_pos. cbn [List.length]. lia. }
    unfold Qdiv. apply Qmult_le_compat_r.
    + rewrite <- Zle_Qle. exact Ht.
    + apply Qlt_le_weak, Qinv_lt_0_compat, Hn.
Qed.

(** X9.  Raising frame scores never lowers the aggregate: if every score
    of one list is at most the score at the same position of another list,
    the first aggregate score and tier are at most the second. *)
Theorem aggregateVideoRisk_monotone (xs ys : list Z) :
  Forall2 Z.le xs ys ->
  lt (riskScore (aggregateVideoRisk ys)) (riskScore (aggregateVideoRisk xs)) = false /\
  (level_rank (riskLevel (aggregateVideoRisk xs))
   <= level_rank (riskLevel (aggregateVideoRisk ys)))%nat.
Proof.
  intro H. pose proof (mean_Forall2_le xs ys H) as Hm.
  destruct xs as [| x xs].
  - inversion H; subst. split; [reflexivity | apply Nat.le_refl].
  - inversion H as [| x' y xs' ys' Hxy Hrest]; subst.
    rewrite (aggregateVideoRisk_mean (x :: xs)) by discriminate.
    rewrite (aggregateVideoRisk_mean (y :: ys')) by discriminate.
    cbn [riskScore riskLevel]. split.
    + change (Qltb (inject_Z (round (mean (y :: ys'))))
                   (inject_Z (round (mean (x :: xs)))) = false).
      apply Qltb_ge. rewrite <- Zle_Qle. apply round_mono. exact Hm.
    + apply level_of_mean_mono. exact Hm.
Qed.

Lemma aggregateVideoRisk_monotone_witness :
  (level_rank (riskLevel (aggregateVideoRisk [10; 30]%Z))
   <= level_rank (riskLevel (aggregateVideoRisk [60; 30]%Z)))%nat.
Proof.
  apply (aggregateVideoRisk_monotone [10; 30]%Z [60; 30]%Z).
  constructor; [lia |]. constructor; [lia | constructor].
Defined.

(* ------------------------------------------------------------------ *)
(** ** Violation summarizer: further properties *)

(** X10.  Whatever the frames (even none) and the aggregate score (even
    [NaN]), the summary lists at most five violations, their names follow
    the rule order without repetition, and the general-activity entry is
    never accompanied by another entry. *)
Theorem generateViolations_shape (fs : list FrameAnalysis) (avgScore : number) :
  subsequence (map type (generateViolations fs avgScore)) rule_order = true /\
  (List.length (generateViolations fs avgScore) <= 5)%nat /\
  (In "General Traffic Activity"%string (map type (generateViolations fs avgScore)) ->
   List.length (generateViolations fs avgScore) = 1%nat).
Proof.
  unfold generateViolations. cbv zeta.
  destruct (sum_field overlaps fs >? 0)%Z;
    destruct (sum_field proximityRisks fs >? 0)%Z;
    destruct (gt (div (of_Z (sum_field vehicleCount fs))
                      (of_Z (Z.of_nat (List.length fs)))) (of_Z 8));
    destruct (gt (div (of_Z (sum_field personCount fs))
                      (of_Z (Z.of_nat (List.length fs)))) (of_Z 5));
    destruct (Z.of_nat (List.length (filter (fun f => (score f >? 60)%Z) fs)) >? 3)%Z;
    destruct (gt avgScore (of_Z 10));
    cbn [push app List.length Nat.eqb andb map type];
    (split; [reflexivity |]); (split; [lia |]);
    cbn [In]; intro Hin; try reflexivity;
    repeat (destruct Hin as [Hin | Hin]; [discriminate Hin |]);
    destruct Hin.
Qed.

Lemma generateViolations_as_rules (fs : list FrameAnalysis) (aggregate : Q) :
  fs <> [] ->
  generateViolations fs (Fin aggregate) = violations_ref fs aggregate.
Proof.
  intro Hne.
  unfold generateViolations, violations_ref, rule1, rule2, rule3, rule4, rule5,
    rule6.
  rewrite !(div_sum_field _ fs Hne), !sum_field_total, high_risk_count.
  rewrite !Z.gtb_ltb.
  change (gt (Fin (mean_of vehicleCount fs)) (of_Z 8))
    with (Qltb 8 (mean_of vehicleCount fs)).
  change (gt (Fin (mean_of vehicleCount fs)) (of_Z 15))
    with (Qltb 15 (mean_of vehicleCount fs)).
  change (gt (Fin (mean_of personCount fs)) (of_Z 5))
    with (Qltb 5 (mean_of personCount fs)).
  change (gt (Fin (mean_of personCount fs)) (of_Z 10))
    with (Qltb 10 (mean_of personCount fs)).
  change (gt (Fin aggregate) (of_Z 10)) with (Qltb 10 aggregate).
  cbn [Math_round].
  destruct (0 <? total_of overlaps fs)%Z;
    destruct (0 <? total_of proximityRisks fs)%Z;
    destruct (Qltb 8 (mean_of vehicleCount fs));
    destruct (Qltb 5 (mean_of personCount fs));
    destruct (3 <? count_if (fun f => (60 <? score f)%Z) fs)%Z;
    destruct (Qltb 10 aggregate);
    reflexivity.
Qed.

Lemma round_above (n : Z) (q : Q) : inject_Z n < q -> (n <= round q)%Z.
Proof.
  intro H. rewrite <- (round_inject_Z n). apply round_mono. lra.
Qed.

(** X11.  On a non-empty list of frames and a finite aggregate score, every
    violation reported carries a positive integer count. *)
Theorem generateViolations_counts_positive (fs : list FrameAnalysis) (aggregate : Q) :
  fs <> [] ->
  Forall positive_count (generateViolations fs (Fin aggregate)).
Proof.
  intro Hne. rewrite (generateViolations_as_rules fs aggregate Hne).
  unfold violations_ref.
  assert (H1 : Forall positive_count (rule1 fs)).
  { unfold rule1. destruct (Z.ltb_spec 0 (total_of overlaps fs)); constructor;
      [| constructor]. eexists. split; [reflexivity | lia]. }
  assert (H2 : Forall positive_count (rule2 fs)).
  { unfold rule2. destruct (Z.ltb_spec 0 (total_of proximityRisks fs)); constructor;
      [| constructor]. eexists. split; [reflexivity | lia]. }
  assert (H3 : Forall positive_count (rule3 fs)).
  { unfold rule3. destruct (Qltb 8 (mean_of vehicleCount fs)) eqn:E; constructor;
      [| constructor]. apply Qltb_lt in E.
    eexists. split; [reflexivity |]. pose proof (round_above 8 _ E). lia. }
  assert (H4 : Forall positive_count (rule4 fs)).
  { unfold rule4. destruct (Qltb 5 (mean_of personCount fs)) eqn:E; constructor;
      [| constructor]. apply Qltb_lt in E.
    eexists. split; [reflexivity |]. pose proof (round_above 5 _ E). lia. }
  assert (H5 : Forall positive_count (rule5 fs)).
  { unfold rule5.
    destruct (Z.ltb_spec 3 (count_if (fun f => (60 <? score f)%Z) fs)); constructor;
      [| constructor]. eexists. split; [reflexivity | lia]. }
  repeat (apply Forall_app; split); try assumption.
  unfold rule6.
  destruct (rule1 fs ++ rule2 fs ++ rule3 fs ++ rule4 fs ++ rule5 fs);
    [| constructor].
  destruct (Qltb 10 aggregate) eqn:E; constructor; [| constructor].
  apply Qltb_lt in E.
  eexists. split; [reflexivity |]. pose proof (round_above 10 _ E). lia.
Qed.

Lemma generateViolations_counts_positive_witness :
  Forall positive_count
    (generateViolations
       [mkFrameAnalysis 0 69 [] 9 0 2 0; mkFrameAnalysis 3 100 [] 10 6 1 1]
       (Fin 85)).
Proof.
  apply generateViolations_counts_positive. discriminate.
Defined.

(* ------------------------------------------------------------------ *)
(** ** Analysis orchestrator: further properties *)

(** What a run returns, in full. *)
Lemma analyzeVideo_result (detect : Z -> list Detection) (maxFrames frameSkip : Z) :
  exists st i,
    loop_invariant detect frameSkip
      (totalEstimatedFrames maxFrames frameSkip) i st /\
    processed_frames detect maxFrames frameSkip = Some (frameAnalyses st) /\
    analyzeVideo detect maxFrames frameSkip
    = Some (progressLog st ++ [of_Z 100],
            match frameAnalyses st with
            | [] => degenerate_result
            | _ :: _ =>
                assembled_result maxFrames frameSkip
                  (frameAnalyses st) (frameScores st)
            end).
Proof.
  destruct (frame_loop_ends detect maxFrames frameSkip)
    as (st & i & Hloop & Hinv & _).
  exists st, i. split; [exact Hinv |]. split.
  { unfold processed_frames. rewrite Hloop. reflexivity. }
  unfold analyzeVideo. change (mkLoopState [] [] []) with initial_state.
  rewrite Hloop. unfold push.
  destruct (frameAnalyses st) as [| f fs] eqn:Hfs; reflexivity.
Qed.

Lemma score_computeFrameRisk_range (dets : list Detection) (w h : Q) :
  (0 <= score (computeFrameRisk dets w h) <= 100)%Z.
Proof.
  rewrite computeFrameRisk_frame_risk_ref. apply clamp_range.
Qed.

Lemma retained_score_range (detect : Z -> list Detection) (frameSkip totalF : Z)
  (f : FrameAnalysis) :
  retained detect frameSkip totalF f -> (0 <= score f <= 100)%Z.
Proof.
  intros (_ & _ & Hf). rewrite Hf. cbn [set_frameIndex score].
  apply score_computeFrameRisk_range.
Qed.

Lemma invariant_scores_range (detect : Z -> list Detection)
  (frameSkip totalF i : Z) (st : LoopState) :
  loop_invariant detect frameSkip totalF i st ->
  frameScores st = map score (frameAnalyses st) /\
  forall x, In x (frameScores st) -> (0 <= x <= 100)%Z.
Proof.
  intros (_ & Hscores & _ & Hidx & _). split; [exact Hscores |].
  intros x Hx. rewrite Hscores in Hx. apply in_map_iff in Hx.
  destruct Hx as (f & <- & Hf).
  rewrite Forall_forall in Hidx. destruct (Hidx f Hf) as [Hr _].
  eapply retained_score_range. exact Hr.
Qed.

Lemma fold_max_spec (xs : list Z) (a : Z) :
  In (fold_left Z.max xs a) (a :: xs) /\
  forall x, In x (a :: xs) -> (x <= fold_left Z.max xs a)%Z.
Proof.
  revert a. induction xs as [| y ys IH]; intro a; cbn [fold_left].
  - split; [left; reflexivity |]. intros x [<- | []]. lia.
  - destruct (IH (Z.max a y)) as [Hin Hle]. split.
    + destruct Hin as [E | Hin].
      * rewrite <- E. destruct (Z.max_spec a y) as [[_ ->] | [_ ->]];
          [right; left | left]; reflexivity.
      * right. right. exact Hin.
    + specialize (Hle (Z.max a y) (or_introl eq_refl)) as Hm.
      intros x [E | [E | Hx]]; [lia | lia |].
      apply Hle. right. exact Hx.
Qed.

Lemma fold_min_spec (xs : list Z) (a : Z) :
  In (fold_left Z.min xs a) (a :: xs) /\
  forall x, In x (a :: xs) -> (fold_left Z.min xs a <= x)%Z.
Proof.
  revert a. induction xs as [| y ys IH]; intro a; cbn [fold_left].
  - split; [left; reflexivity |]. intros x [<- | []]. lia.
  - destruct (IH (Z.min a y)) as [Hin Hle]. split.
    + destruct Hin as [E | Hin].
      * rewrite <- E. destruct (Z.min_spec a y) as [[_ ->] | [_ ->]];
          [left | right; left]; reflexivity.
      * right. right. exact Hin.
    + specialize (Hle (Z.min a y) (or_introl eq_refl)) as Hm.
      intros x [E | [E | Hx]]; [lia | lia |].
      apply Hle. right. exact Hx.
Qed.

(** X12.  Every completed analysis has an integer score between 0 and 100.
    When at least one frame was analysed, the reported minimum and maximum
    are scores of analysed frames, the score lies between them, the number
    of processed frames is the number of frames analysed and the total is
    cap times stride. *)
Theorem analyzeVideo_result_ranges (detect : Z -> list Detection)
  (maxFrames frameSkip : Z) :
  exists frames r,
    processed_frames detect maxFrames frameSkip = Some frames /\
    run_result detect maxFrames frameSkip = Some r /\
    (exists z, AnalysisResult.riskScore r = of_Z z /\ (0 <= z <= 100)%Z) /\
    (frames <> [] ->
     exists lo hi z,
       minScore (AnalysisResult.frameStats r) = of_Z lo /\
       maxScore (AnalysisResult.frameStats r) = of_Z hi /\
       AnalysisResult.riskScore r = of_Z z /\
       In lo (map score frames) /\ In hi (map score frames) /\
       (0 <= lo <= z)%Z /\ (z <= hi <= 100)%Z /\
       processedFrames (AnalysisResult.frameStats r)
       = of_Z (Z.of_nat (List.length frames)) /\
       totalFrames (AnalysisResult.frameStats r) = of_Z (maxFrames * frameSkip)).
Proof.
  destruct (analyzeVideo_result detect maxFrames frameSkip)
    as (st & i & Hinv & Hframes & Hrun).
  destruct (invariant_scores_range _ _ _ _ _ Hinv) as [Hscores Hrange].
  exists (frameAnalyses st). eexists.
  split; [exact Hframes |].
  split; [unfold run_result; rewrite Hrun; reflexivity |].
  cbn [snd].
  destruct (frameAnalyses st) as [| f fs] eqn:Hfs.
  { split; [exists 0%Z; split; [reflexivity | lia] | congruence]. }
  assert (Hne : frameScores st <> []) by (rewrite Hscores; discriminate).
  unfold assembled_result.
  cbn [AnalysisResult.riskScore AnalysisResult.frameStats minScore maxScore
       processedFrames totalFrames].
  rewrite (aggregateVideoRisk_mean _ Hne). cbn [riskScore].
  destruct (frameScores st) as [| x xs] eqn:Hxs; [congruence |].
  cbn [Math_max_spread Math_min_spread].
  destruct (fold_max_spec xs x) as [Hmax_in Hmax].
  destruct (fold_min_spec xs x) as [Hmin_in Hmin].
  set (hi := fold_left Z.max xs x) in *. set (lo := fold_left Z.min xs x) in *.
  assert (Hb : forall y, In y (x :: xs) -> (lo <= y <= hi)%Z).
  { intros y Hy. split; [apply Hmin | apply Hmax]; exact Hy. }
  destruct (mean_bounds lo hi (x :: xs) ltac:(discriminate) Hb) as [Hlo Hhi].
  pose proof (round_between lo hi _ Hlo Hhi) as Hz.
  pose proof (Hrange lo Hmin_in) as Hlo_range.
  pose proof (Hrange hi Hmax_in) as Hhi_range.
  split.
  - eexists. split; [reflexivity | lia].
  - intros _. exists lo, hi, (round (mean (x :: xs))).
    rewrite <- Hscores.
    repeat (split; [first [reflexivity | assumption | lia] |]).
    reflexivity.
Qed.

Lemma round_near (q : Q) :
  q - (1 # 2) < inject_Z (round q) /\ inject_Z (round q) <= q + (1 # 2).
Proof.
  unfold round. split.
  - pose proof (Qlt_floor (q + (1 # 2))) as H.
    rewrite inject_Z_plus in H. change (inject_Z 1) with 1 in H. lra.
  - apply Qfloor_le.
Qed.

Lemma one_decimal (sum : Z) (n : nat) :
  n <> O ->
  exists k : Z,
    div (Math_round (mul (div (of_Z sum) (of_Z (Z.of_nat n))) (of_Z 10))) (of_Z 10)
    = Fin (inject_Z k / 10) /\
    inject_Z sum / inject_Z (Z.of_nat n) - (1 # 20) < inject_Z k / 10 /\
    inject_Z k / 10 <= inject_Z sum / inject_Z (Z.of_nat n) + (1 # 20).
Proof.
  intro Hn. rewrite (div_of_Z_length sum n Hn). cbn [mul of_Z Math_round].
  set (m := inject_Z sum / inject_Z (Z.of_nat n)).
  exists (round (m * inject_Z 10)). split; [reflexivity |].
  destruct (round_near (m * inject_Z 10)) as [Hlo Hhi].
  change (inject_Z 10) with 10 in *.
  split.
  - apply Qlt_shift_div_l; lra.
  - apply Qle_shift_div_r; lra.
Qed.

(** X13.  The average vehicle and person counts of a completed analysis of
    at least one frame are the means over the analysed frames rounded to
    one decimal place: each is a whole number of tenths within 0.05 of the
    mean. *)
Theorem analyzeVideo_averages (detect : Z -> list Detection)
  (maxFrames frameSkip : Z) :
  exists frames r,
    processed_frames detect maxFrames frameSkip = Some frames /\
    run_result detect maxFrames frameSkip = Some r /\
    (frames <> [] ->
     exists kv kp : Z,
       avgVehicles (AnalysisResult.frameStats r) = Fin (inject_Z kv / 10) /\
       avgPersons (AnalysisResult.frameStats r) = Fin (inject_Z kp / 10) /\
       mean_of vehicleCount frames - (1 # 20) < inject_Z kv / 10 /\
       inject_Z kv / 10 <= mean_of vehicleCount frames + (1 # 20) /\
       mean_of personCount frames - (1 # 20) < inject_Z kp / 10 /\
       inject_Z kp / 10 <= mean_of personCount frames + (1 # 20)).
Proof.
  destruct (analyzeVideo_result detect maxFrames frameSkip)
    as (st & i & Hinv & Hframes & Hrun).
  exists (frameAnalyses st). eexists.
  split; [exact Hframes |].
  split; [unfold run_result; rewrite Hrun; reflexivity |].
  cbn [snd]. intro Hne.
  destruct (frameAnalyses st) as [| f fs] eqn:Hfs; [congruence |].
  unfold assembled_result.
  cbn [AnalysisResult.frameStats avgVehicles avgPersons].
  rewrite !sum_field_total.
  destruct (one_decimal (total_of vehicleCount (f :: fs))
              (List.length (f :: fs)) ltac:(discriminate)) as (kv & Ev & Hv1 & Hv2).
  destruct (one_decimal (total_of personCount (f :: fs))
              (List.length (f :: fs)) ltac:(discriminate)) as (kp & Ep & Hp1 & Hp2).
  exists kv, kp. rewrite Ev, Ep.
  unfold mean_of, mean, total_of in *. rewrite !length_map.
  repeat split; assumption.
Qed.

Lemma analyzeVideo_averages_witness :
  exists frames r,
    processed_frames detect_19_then_20 3 1 = Some frames /\
    run_result detect_19_then_20 3 1 = Some r /\
    exists kv kp : Z,
      avgVehicles (AnalysisResult.frameStats r) = Fin (inject_Z kv / 10) /\
      avgPersons (AnalysisResult.frameStats r) = Fin (inject_Z kp / 10) /\
      inject_Z kv / 10 <= mean_of vehicleCount frames + (1 # 20) /\
      inject_Z kp / 10 <= mean_of personCount frames + (1 # 20).
Proof.
  destruct (analyzeVideo_averages detect_19_then_20 3 1)
    as (frames & r & Hf & Hr & Havg).
  exists frames, r. split; [exact Hf |]. split; [exact Hr |].
  assert (Hne : frames <> []).
  { intro E. rewrite E in Hf. discriminate Hf. }
  destruct (Havg Hne) as (kv & kp & Ev & Ep & _ & Hv & _ & Hp).
  exists kv, kp. repeat split; assumption.
Defined.

(** X14.  With a positive cap and stride a run analyses exactly [maxFrames]
    frames, calls the progress callback once per frame and once more at the
    end, and reports the cap as the number of processed frames and cap times
    stride as the total; the last index examined is
    ([maxFrames] - 1) x [frameSkip]. *)
Theorem analyzeVideo_cap_frames (detect : Z -> list Detection)
  (maxFrames frameSkip : Z) :
  (0 < maxFrames)%Z -> (0 < frameSkip)%Z ->
  exists frames log r,
    processed_frames detect maxFrames frameSkip = Some frames /\
    analyzeVideo detect maxFrames frameSkip = Some (log, r) /\
    List.length frames = Z.to_nat maxFrames /\
    List.length log = S (Z.to_nat maxFrames) /\
    last (map frameIndex frames) 0%Z = ((maxFrames - 1) * frameSkip)%Z /\
    processedFrames (AnalysisResult.frameStats r) = of_Z maxFrames /\
    totalFrames (AnalysisResult.frameStats r) = of_Z (maxFrames * frameSkip).
Proof.
  intros Hm Hs.
  destruct (analyzeVideo_result detect maxFrames frameSkip)
    as (st & i & Hinv & Hframes & Hrun).
  destruct (processed_frames_stride detect maxFrames frameSkip Hm Hs)
    as (frames' & Hframes' & Hstride).
  assert (frames' = frameAnalyses st) by congruence. subst frames'.
  assert (Hlen : List.length (frameAnalyses st) = Z.to_nat maxFrames).
  { rewrite <- (length_map frameIndex), Hstride. unfold stride_indices.
    rewrite length_map, length_seq. reflexivity. }
  destruct Hinv as (_ & _ & Hlog & _).
  exists (frameAnalyses st). eexists. eexists.
  split; [exact Hframes |]. split; [exact Hrun |].
  split; [exact Hlen |]. split.
  { rewrite length_app, Hlog, length_map, Hlen. cbn [List.length]. lia. }
  split.
  { rewrite Hstride. unfold stride_indices.
    destruct (Z.to_nat maxFrames) as [| n] eqn:En; [lia |].
    rewrite seq_S, map_app. cbn [map Nat.add]. rewrite last_last. lia. }
  destruct (frameAnalyses st) as [| f fs] eqn:Hfs.
  { cbn [List.length] in Hlen. lia. }
  unfold assembled_result.
  cbn [AnalysisResult.frameStats processedFrames totalFrames].
  rewrite Hlen, Z2Nat.id by lia. split; reflexivity.
Qed.

Lemma analyzeVideo_cap_frames_witness :
  exists frames log r,
    processed_frames detect_20 3 1 = Some frames /\
    analyzeVideo detect_20 3 1 = Some (log, r) /\
    List.length frames = 3%nat /\ List.length log = 4%nat.
Proof.
  destruct (analyzeVideo_cap_frames detect_20 3 1 ltac:(reflexivity) ltac:(reflexivity))
    as (frames & log & r & Hf & Hr & Hlen & Hlog & _).
  exists frames, log, r. repeat split; assumption.
Defined.

Lemma round_le_inv (n : Z) (q : Q) : (round q <= n)%Z -> q < inject_Z n + (1 # 2).
Proof.
  intro H. destruct (round_near q) as [Hlo _].
  rewrite Zle_Qle in H. lra.
Qed.

Lemma violations_ref_nil (fs : list FrameAnalysis) (aggregate : Q) :
  violations_ref fs aggregate = [] -> Qltb 10 aggregate = false.
Proof.
  unfold violations_ref. intro H.
  apply app_eq_nil in H. destruct H as [Hfired H6].
  rewrite Hfired in H6. unfold rule6 in H6.
  destruct (Qltb 10 aggregate); [discriminate H6 | reflexivity].
Qed.

(** X15.  A completed analysis with an empty violation list has tier LOW
    and a score of at most 10: a result at MEDIUM or above always names at
    least one violation. *)
Theorem analyzeVideo_no_violation_low (detect : Z -> list Detection)
  (maxFrames frameSkip : Z) (r : AnalysisResult.t) :
  run_result detect maxFrames frameSkip = Some r ->
  AnalysisResult.violations r = [] ->
  AnalysisResult.riskLevel r = LOW /\
  exists z, AnalysisResult.riskScore r = of_Z z /\ (0 <= z <= 10)%Z.
Proof.
  intros Hr Hv.
  destruct (analyzeVideo_result detect maxFrames frameSkip)
    as (st & i & Hinv & Hframes & Hrun).
  destruct (invariant_scores_range _ _ _ _ _ Hinv) as [Hscores Hrange].
  unfold run_result in Hr. rewrite Hrun in Hr. cbn [option_map snd] in Hr.
  injection Hr as <-.
  destruct (frameAnalyses st) as [| f fs] eqn:Hfs.
  { split; [reflexivity |]. exists 0%Z. split; [reflexivity | lia]. }
  assert (Hne : frameScores st <> []) by (rewrite Hscores; discriminate).
  unfold assembled_result in *.
  cbn [AnalysisResult.violations AnalysisResult.riskLevel
       AnalysisResult.riskScore] in *.
  rewrite (aggregateVideoRisk_mean _ Hne) in *. cbn [riskScore riskLevel] in *.
  unfold of_Z in Hv.
  rewrite (generateViolations_as_rules (f :: fs) _ ltac:(discriminate)) in Hv.
  apply violations_ref_nil in Hv. apply Qltb_ge in Hv.
  change 10 with (inject_Z 10) in Hv. rewrite <- Zle_Qle in Hv.
  destruct (mean_bounds 0 100 _ Hne Hrange) as [H0 _].
  pose proof (round_nonneg _ H0) as Hz0.
  split.
  - pose proof (round_le_inv 10 _ Hv) as Hm.
    unfold level_of_mean.
    assert (E : Qltb (mean (frameScores st)) 20 = true).
    { apply Qltb_lt. change (inject_Z 10) with 10 in Hm. lra. }
    rewrite E. reflexivity.
  - eexists. split; [reflexivity | lia].
Qed.

Lemma analyzeVideo_no_violation_low_witness :
  exists r,
    run_result detect_car 2 1 = Some r /\
    AnalysisResult.riskLevel r = LOW /\
    exists z, AnalysisResult.riskScore r = of_Z z /\ (0 <= z <= 10)%Z.
Proof.
  destruct (run_result detect_car 2 1) as [r |] eqn:Hr; [| discriminate].
  exists r. split; [reflexivity |].
  apply (analyzeVideo_no_violation_low detect_car 2 1 r Hr).
  injection Hr as <-. reflexivity.
Defined.

Lemma total_zero (xs : list Z) : (forall x, In x xs -> x = 0%Z) -> total xs = 0%Z.
Proof.
  induction xs as [| x xs IH]; intro H; [reflexivity |].
  cbn [total fold_right]. fold (total xs).
  rewrite (H x (or_introl eq_refl)), IH; [reflexivity |].
  intros y Hy. apply H. right. exact Hy.
Qed.

Lemma mean_zero (xs : list Z) : (forall x, In x xs -> x = 0%Z) -> mean xs == 0.
Proof.
  intro H. unfold mean. rewrite (total_zero xs H).
  unfold Qdiv. change (inject_Z 0) with 0. ring.
Qed.

Lemma filter_none {A : Type} (p : A -> bool) (xs : list A) :
  (forall x, In x xs -> p x = false) -> filter p xs = [].
Proof.
  induction xs as [| x xs IH]; intro H; [reflexivity |].
  cbn [filter]. rewrite (H x (or_introl eq_refl)).
  apply IH. intros y Hy. apply H. right. exact Hy.
Qed.

(** A frame without vehicles and persons has score 0 and all counts 0. *)
Lemma computeFrameRisk_quiet (dets : list Detection) (w h : Q) :
  (forall d, In d dets -> is_vehicle d = false /\ is_person d = false) ->
  score (computeFrameRisk dets w h) = 0%Z /\
  vehicleCount (computeFrameRisk dets w h) = 0%Z /\
  personCount (computeFrameRisk dets w h) = 0%Z /\
  overlaps (computeFrameRisk dets w h) = 0%Z /\
  proximityRisks (computeFrameRisk dets w h) = 0%Z.
Proof.
  intro H. rewrite computeFrameRisk_frame_risk_ref.
  assert (Hv : filter is_vehicle dets = [])
    by (apply filter_none; intros d Hd; apply (H d Hd)).
  assert (Hp : filter is_person dets = [])
    by (apply filter_none; intros d Hd; apply (H d Hd)).
  unfold frame_risk_ref, count_if.
  cbn [score vehicleCount personCount overlaps proximityRisks].
  rewrite Hv, Hp. repeat split.
Qed.

(** X16.  Footage in which the detection source never reports a vehicle or
    a person gives tier LOW, score 0 and no violation, whatever else is
    detected and whatever the cap and stride. *)
Theorem analyzeVideo_quiet_footage (detect : Z -> list Detection)
  (maxFrames frameSkip : Z) :
  (forall i d, In d (detect i) -> is_vehicle d = false /\ is_person d = false) ->
  exists r,
    run_result detect maxFrames frameSkip = Some r /\
    AnalysisResult.riskLevel r = LOW /\
    AnalysisResult.riskScore r = of_Z 0 /\
    AnalysisResult.violations r = [].
Proof.
  intro Hquiet.
  destruct (analyzeVideo_result detect maxFrames frameSkip)
    as (st & i & Hinv & Hframes & Hrun).
  eexists. split; [unfold run_result; rewrite Hrun; reflexivity |].
  cbn [snd].
  destruct Hinv as (_ & Hscores & _ & Hidx & _).
  assert (Hzero : forall f, In f (frameAnalyses st) ->
                    score f = 0%Z /\ vehicleCount f = 0%Z /\ personCount f = 0%Z /\
                    overlaps f = 0%Z /\ proximityRisks f = 0%Z).
  { intros f Hf. rewrite Forall_forall in Hidx.
    destruct (Hidx f Hf) as [(_ & _ & E) _]. rewrite E.
    cbn [set_frameIndex score vehicleCount personCount overlaps proximityRisks].
    apply computeFrameRisk_quiet. intros d Hd. exact (Hquiet _ d Hd). }
  destruct (frameAnalyses st) as [| f fs] eqn:Hfs.
  { repeat split. }
  assert (Hfield : forall field,
             (forall g, In g (f :: fs) -> field g = 0%Z) ->
             forall x, In x (map field (f :: fs)) -> x = 0%Z).
  { intros field Hfz x Hx. apply in_map_iff in Hx.
    destruct Hx as (g & <- & Hg). apply Hfz. exact Hg. }
  assert (Hne : frameScores st <> []) by (rewrite Hscores; discriminate).
  assert (Hmean : mean (frameScores st) == 0).
  { rewrite Hscores. apply mean_zero, Hfield. intros g Hg. apply (Hzero g Hg). }
  unfold assembled_result.
  cbn [AnalysisResult.violations AnalysisResult.riskLevel AnalysisResult.riskScore].
  rewrite (aggregateVideoRisk_mean _ Hne). cbn [riskScore riskLevel].
  assert (Hround : round (mean (frameScores st)) = 0%Z).
  { unfold round. rewrite Hmean. reflexivity. }
  rewrite Hround.
  split; [unfold level_of_mean; rewrite Hmean; reflexivity |].
  split; [reflexivity |].
  unfold of_Z.
  rewrite (generateViolations_as_rules (f :: fs) _ ltac:(discriminate)).
  unfold violations_ref, rule1, rule2, rule3, rule4, rule5, total_of, mean_of.
  rewrite (total_zero (map overlaps (f :: fs)))
    by (apply Hfield; intros g Hg; apply (Hzero g Hg)).
  rewrite (total_zero (map proximityRisks (f :: fs)))
    by (apply Hfield; intros g Hg; apply (Hzero g Hg)).
  rewrite (mean_zero (map vehicleCount (f :: fs)))
    by (apply Hfield; intros g Hg; apply (Hzero g Hg)).
  rewrite (mean_zero (map personCount (f :: fs)))
    by (apply Hfield; intros g Hg; apply (Hzero g Hg)).
  rewrite (count_if_none (fun g => (60 <? score g)%Z) (f :: fs)).
  - reflexivity.
  - intros g Hg. rewrite (proj1 (Hzero g Hg)). reflexivity.
Qed.

Lemma analyzeVideo_quiet_footage_witness :
  exists r,
    run_result detect_lights 50 3 = Some r /\
    AnalysisResult.riskLevel r = LOW /\
    AnalysisResult.riskScore r = of_Z 0 /\
    AnalysisResult.violations r = [].
Proof.
  apply (analyzeVideo_quiet_footage detect_lights 50 3).
  intros i d Hd.
  repeat (destruct Hd as [<- | Hd]; [split; reflexivity |]). destruct Hd.
Defined.

(** X17.  The progress callback receives 100 only as its last value: every
    value before it is an integer between 0 and 95. *)
Theorem analyzeVideo_progress_below_100 (detect : Z -> list Detection)
  (maxFrames frameSkip : Z) (log : list number) (r : AnalysisResult.t) :
  analyzeVideo detect maxFrames frameSkip = Some (log, r) ->
  exists before,
    log = map of_Z before ++ [of_Z 100] /\
    Forall (fun z => (0 <= z <= 95)%Z) before.
Proof.
  intro Hlr.
  destruct (analyzeVideo_result detect maxFrames frameSkip)
    as (st & i & Hinv & _ & Hrun).
  rewrite Hrun in Hlr. injection Hlr as <- _.
  destruct Hinv as (_ & _ & Hlog & Hidx & _).
  exists (map (fun f => progress_percent
                          (totalEstimatedFrames maxFrames frameSkip)
                          (frameIndex f)) (frameAnalyses st)).
  split.
  - rewrite map_map, Hlog. reflexivity.
  - apply percents_range.
    eapply Forall_impl; [| exact Hidx]. cbv beta.
    intros f [(Hf & _) _]. exact Hf.
Qed.

Lemma analyzeVideo_progress_below_100_witness :
  exists log r before,
    analyzeVideo detect_20 3 1 = Some (log, r) /\
    log = map of_Z before ++ [of_Z 100] /\
    Forall (fun z => (0 <= z <= 95)%Z) before.
Proof.
  destruct (analyzeVideo detect_20 3 1) as [[log r] |] eqn:H; [| discriminate].
  destruct (analyzeVideo_progress_below_100 detect_20 3 1 log r H)
    as (before & Hlog & Hrange).
  exists log, r, before. split; [reflexivity |]. split; assumption.
Defined.

(** The progress values of a run with positive cap and stride. *)
Lemma analyzeVideo_log_stride (detect : Z -> list Detection)
  (maxFrames frameSkip : Z) :
  (0 < maxFrames)%Z -> (0 < frameSkip)%Z ->
  exists frames r,
    processed_frames detect maxFrames frameSkip = Some frames /\
    map frameIndex frames = stride_indices maxFrames frameSkip /\
    analyzeVideo detect maxFrames frameSkip
    = Some (map of_Z
              (map (fun k => progress_percent maxFrames (Z.of_nat k))
                   (seq 0 (Z.to_nat maxFrames)) ++ [100%Z]),
            r).
Proof.
  intros Hm Hs.
  destruct (analyzeVideo_result detect maxFrames frameSkip)
    as (st & i & Hinv & Hframes & Hrun).
  destruct (processed_frames_stride detect maxFrames frameSkip Hm Hs)
    as (frames' & Hframes' & Hstride).
  assert (frames' = frameAnalyses st) by congruence. subst frames'.
  destruct Hinv as (_ & _ & Hlog & _).
  exists (frameAnalyses st). eexists.
  split; [exact Hframes |]. split; [exact Hstride |].
  rewrite Hrun. f_equal. f_equal.
  rewrite map_app, Hlog. f_equal.
  rewrite <- (map_map frameIndex
                (fun i => of_Z (progress_percent
                                  (totalEstimatedFrames maxFrames frameSkip) i))).
  rewrite Hstride. unfold stride_indices. rewrite !map_map.
  apply map_ext. intro k. f_equal.
  apply progress_percent_stride; assumption.
Qed.

(** X18.  [quickAnalyze] examines the 20 frames of index 0, 5, ..., 95 and
    reports the progress 0, 5, ..., 95 and then 100; [deepAnalyze] examines
    the 100 frames of even index below 200 and reports 0, 1, ..., 95, stays
    at 95 for its last four frames, then reports 100; the default call
    examines the 50 frames of index 0, 3, ..., 147 and reports 0, 2, ...,
    94, 95, 95 and then 100. *)
Theorem entry_points_progress (detect : Z -> list Detection) :
  (exists r, quickAnalyze detect
             = Some (map of_Z (map (fun k => (5 * Z.of_nat k)%Z) (seq 0 20)
                               ++ [100%Z]), r)) /\
  option_map (map frameIndex) (processed_frames detect 20 5)
  = Some (map (fun k => (5 * Z.of_nat k)%Z) (seq 0 20)) /\
  (exists r, deepAnalyze detect
             = Some (map of_Z (map (fun k => Z.min 95 (Z.of_nat k)) (seq 0 100)
                               ++ [100%Z]), r)) /\
  option_map (map frameIndex) (processed_frames detect 100 2)
  = Some (map (fun k => (2 * Z.of_nat k)%Z) (seq 0 100)) /\
  (exists r, analyzeVideo_default detect
             = Some (map of_Z (map (fun k => Z.min 95 (2 * Z.of_nat k)) (seq 0 50)
                               ++ [100%Z]), r)) /\
  option_map (map frameIndex) (processed_frames detect 50 3)
  = Some (map (fun k => (3 * Z.of_nat k)%Z) (seq 0 50)).
Proof.
  destruct (analyzeVideo_log_stride detect 20 5 eq_refl eq_refl)
    as (f1 & r1 & Hf1 & Hs1 & Hr1).
  destruct (analyzeVideo_log_stride detect 100 2 eq_refl eq_refl)
    as (f2 & r2 & Hf2 & Hs2 & Hr2).
  destruct (analyzeVideo_log_stride detect 50 3 eq_refl eq_refl)
    as (f3 & r3 & Hf3 & Hs3 & Hr3).
  unfold quickAnalyze, deepAnalyze, analyzeVideo_default.
  rewrite Hf1, Hf2, Hf3, Hr1, Hr2, Hr3. cbn [option_map].
  rewrite Hs1, Hs2, Hs3.
  split; [exists r1; reflexivity |]. split; [reflexivity |].
  split; [exists r2; reflexivity |]. split; [reflexivity |].
  split; [exists r3; reflexivity | reflexivity].
Qed.

(* ------------------------------------------------------------------ *)
(** ** The loading overlay *)

Lemma ge_of_Z (p t : Z) : ge (of_Z p) (of_Z t) = (t <=? p)%Z.
Proof.
  unfold ge, of_Z.
  destruct (Z.leb_spec t p) as [H | H].
  - apply Qle_bool_iff. rewrite <- Zle_Qle. exact H.
  - destruct (Qle_bool (inject_Z t) (inject_Z p)) eqn:E; [| reflexivity].
    apply Qle_bool_iff in E. rewrite <- Zle_Qle in E. lia.
Qed.

Lemma currentStage_of_Z (p : Z) :
  currentStage (of_Z p)
  = if (p <? 30)%Z then 0%nat
    else if (p <? 60)%Z then 1%nat
    else if (p <? 90)%Z then 2%nat else 3%nat.
Proof.
  unfold currentStage, stages.
  cbn [List.length seq combine fold_left snd].
  rewrite !ge_of_Z.
  destruct (Z.ltb_spec p 30), (Z.ltb_spec p 60), (Z.ltb_spec p 90),
           (Z.leb_spec 0 p), (Z.leb_spec 30 p), (Z.leb_spec 60 p),
           (Z.leb_spec 90 p); try reflexivity; lia.
Qed.

(** X19.  The stage shown by the loading overlay for an integer progress is
    0 below 30, 1 from 30, 2 from 60 and 3 from 90 (also 0 for a negative
    progress or [NaN]); it never decreases when the progress increases and
    is always one of the four stages. *)
Theorem currentStage_steps :
  (forall p : Z,
     currentStage (of_Z p)
     = if (p <? 30)%Z then 0%nat
       else if (p <? 60)%Z then 1%nat
       else if (p <? 90)%Z then 2%nat else 3%nat) /\
  currentStage NaN = 0%nat /\
  (forall p q : Z,
     (p <= q)%Z -> (currentStage (of_Z p) <= currentStage (of_Z q))%nat) /\
  (forall progress, (currentStage progress < List.length stages)%nat).
Proof.
  split; [exact currentStage_of_Z |]. split; [reflexivity |]. split.
  - intros p q Hpq. rewrite !currentStage_of_Z.
    destruct (Z.ltb_spec p 30), (Z.ltb_spec p 60), (Z.ltb_spec p 90),
             (Z.ltb_spec q 30), (Z.ltb_spec q 60), (Z.ltb_spec q 90); lia.
  - intro progress. unfold currentStage, stages.
    cbn [List.length seq combine fold_left snd].
    destruct (ge progress (of_Z 0)), (ge progress (of_Z 30)),
             (ge progress (of_Z 60)), (ge progress (of_Z 90)); lia.
Qed.

Lemma currentStage_steps_witness :
  (currentStage (of_Z 33) <= currentStage (of_Z 67))%nat.
Proof.
  apply (proj1 (proj2 (proj2 currentStage_steps))). lia.
Defined.

Lemma stages_sorted (zs : list Z) :
  StronglySorted Z.le zs ->
  StronglySorted le (map (fun z => currentStage (of_Z z)) zs).
Proof.
  induction 1 as [| z zs Hs IH Hz]; cbn [map]; constructor.
  - exact IH.
  - apply Forall_map. eapply Forall_impl; [| exact Hz].
    cbv beta. intros y Hy. rewrite !currentStage_of_Z.
    destruct (Z.ltb_spec z 30), (Z.ltb_spec z 60), (Z.ltb_spec z 90),
             (Z.ltb_spec y 30), (Z.ltb_spec y 60), (Z.ltb_spec y 90); lia.
Qed.

(** X20.  Fed with the progress values of a run of [analyzeVideo], the
    loading overlay never steps back to an earlier stage, and it ends on
    its last stage, "Report Generation". *)
Theorem overlay_follows_run (detect : Z -> list Detection)
  (maxFrames frameSkip : Z) :
  exists log r,
    analyzeVideo detect maxFrames frameSkip = Some (log, r) /\
    StronglySorted le (map currentStage log) /\
    last (map currentStage log) 0%nat = 3%nat /\
    nth_error stages (last (map currentStage log) 0%nat)
    = Some ("Report Generation"%string, 90%Z).
Proof.
  destruct (analyzeVideo_result detect maxFrames frameSkip)
    as (st & i & Hinv & _ & Hrun).
  destruct Hinv as (_ & _ & Hlog & Hidx & Hsorted & _).
  set (totalF := totalEstimatedFrames maxFrames frameSkip) in *.
  assert (Hbounds : Forall (fun f => (0 <= frameIndex f < totalF)%Z)
                           (frameAnalyses st)).
  { eapply Forall_impl; [| exact Hidx]. cbv beta. intros f [(Hf & _) _]. exact Hf. }
  pose proof (percents_sorted totalF _ Hsorted Hbounds) as Hps.
  pose proof (percents_range totalF _ Hbounds) as Hpr.
  eexists. eexists. split; [exact Hrun |].
  assert (Hlog' : progressLog st ++ [of_Z 100]
                  = map of_Z
                      (map (fun f => progress_percent totalF (frameIndex f))
                           (frameAnalyses st) ++ [100%Z])).
  { rewrite map_app, map_map, Hlog. reflexivity. }
  rewrite Hlog', map_map.
  split; [| split].
  - apply stages_sorted. apply StronglySorted_snoc; [exact Hps |].
    eapply Forall_impl; [| exact Hpr]. cbv beta. intros z Hz. lia.
  - rewrite map_app. cbn [map]. rewrite last_last. reflexivity.
  - rewrite map_app. cbn [map]. rewrite last_last. reflexivity.
Qed.

(* ------------------------------------------------------------------ *)
(** ** The detection source *)

Lemma floor_draw (r : Q) (m : Z) :
  0 <= r -> r < 1 -> (1 <= m)%Z ->
  (0 <= Math_floor (r * inject_Z m) < m)%Z.
Proof.
  intros H0 H1 Hm. unfold Math_floor.
  assert (Hq : 1 <= inject_Z m).
  { change 1 with (inject_Z 1). rewrite <- Zle_Qle. exact Hm. }
  split.
  - change 0%Z with (Qfloor 0). apply Qfloor_resp_le. nra.
  - pose proof (Qfloor_le (r * inject_Z m)) as Hf.
    rewrite Zlt_Qlt. nra.
Qed.



Lemma simulate_vehicle_class (draws : nat -> Q) (fw fh : Q) (n : nat) :
  valid_draws draws ->
  exists d, simulate_vehicle draws fw fh n = Some (d, (n + 6)%nat) /\
            vehicle_class d.
Proof.
  intros Hd. pose proof (Hd n) as [A0 A1].
  unfold simulate_vehicle, bind, Math_random, index, ret.
  pose proof (floor_draw (draws n) 5 A0 A1 ltac:(lia)) as Hk.
  change (inject_Z (Z.of_nat (List.length VEHICLE_CLASSES))) with (inject_Z 5).
  set (k := Math_floor (draws n * inject_Z 5)) in *.
  replace (n + 6)%nat with (S (S (S (S (S (S n)))))) by lia.
  assert (Hcase : k = 0%Z \/ k = 1%Z \/ k = 2%Z \/ k = 3%Z \/ k = 4%Z) by lia.
  destruct Hcase as [-> | [-> | [-> | [-> | ->]]]];
    cbn [Z.ltb Z.compare Z.to_nat Pos.to_nat Pos.iter_op Nat.add nth_error
         VEHICLE_CLASSES];
    (eexists; split; [reflexivity |]);
    (unfold vehicle_class; cbn [className classId];
     split; [reflexivity | vm_compute; tauto]).
Qed.


Lemma simulate_person_class (draws : nat -> Q) (fw fh : Q) (n : nat) :
  exists d, simulate_person draws fw fh n = Some (d, (n + 5)%nat) /\
            person_class d.
Proof.
  unfold simulate_person, bind, Math_random, ret.
  replace (n + 5)%nat with (S (S (S (S (S n))))) by lia.
  eexists; split; [reflexivity |]. split; reflexivity.
Qed.


Lemma push_times_spec (P : Detection -> Prop) (k : nat) (body : Rand Detection) :
  (forall n, exists d, body n = Some (d, (n + k)%nat) /\ P d) ->
  forall (count : nat) (dets : list Detection) (n : nat),
    exists new,
      push_times count body dets n = Some (dets ++ new, (n + count * k)%nat) /\
      List.length new = count /\ Forall P new.
Proof.
  intros Hbody count.
  induction count as [| count IH]; intros dets n.
  - exists []. cbn [push_times]. unfold ret.
    rewrite app_nil_r, Nat.add_0_r. repeat split. constructor.
  - destruct (Hbody n) as [d [Hd HP]].
    destruct (IH (push dets d) (n + k)%nat) as [new [Hnew [Hlen Hall]]].
    exists (d :: new). cbn [push_times]. unfold bind. rewrite Hd, Hnew.
    unfold push. rewrite <- app_assoc. cbn [app List.length].
    split; [f_equal; f_equal; lia |].
    split; [lia |]. constructor; assumption.
Qed.

(** The simulator returns the vehicles it generated followed by the
    persons, as many of each as the scenario allows, whatever is known of
    every generated vehicle and of every generated person. *)
Lemma simulateYoloDetection_spec (PV PP : Detection -> Prop)
  (draws : nat -> Q) (fw fh : Q) (s : Scenario.t) (n : nat) :
  valid_draws draws ->
  (forall m, exists d,
      simulate_vehicle draws fw fh m = Some (d, (m + 6)%nat) /\ PV d) ->
  (forall m, exists d,
      simulate_person draws fw fh m = Some (d, (m + 5)%nat) /\ PP d) ->
  exists vs ps,
    simulateYoloDetection draws fw fh s n
    = Some (vs ++ ps, (n + 2 + 6 * List.length vs + 5 * List.length ps)%nat) /\
    Forall PV vs /\ Forall PP ps /\
    (fst (vehicleCounts s) <= Z.of_nat (List.length vs) <= snd (vehicleCounts s))%Z /\
    (fst (personCounts s) <= Z.of_nat (List.length ps) <= snd (personCounts s))%Z.
Proof.
  intros Hd HbV HbP.
  unfold simulateYoloDetection.
  destruct (vehicleCounts s) as [minV maxV] eqn:EV.
  destruct (personCounts s) as [minP maxP] eqn:EP.
  assert (HV : (0 <= minV /\ 1 <= maxV - minV + 1)%Z)
    by (destruct s; inversion EV; subst; lia).
  assert (HP : (0 <= minP /\ 1 <= maxP - minP + 1)%Z)
    by (destruct s; inversion EP; subst; lia).
  pose proof (Hd n) as [A0 A1]. pose proof (Hd (S n)) as [B0 B1].
  pose proof (floor_draw (draws n) _ A0 A1 (proj2 HV)) as Hnv.
  pose proof (floor_draw (draws (S n)) _ B0 B1 (proj2 HP)) as Hnp.
  unfold bind at 1. unfold Math_random at 1.
  unfold bind at 1. unfold Math_random at 1.
  set (nv := (Math_floor (draws n * inject_Z (maxV - minV + 1)) + minV)%Z) in *.
  set (np := (Math_floor (draws (S n) * inject_Z (maxP - minP + 1)) + minP)%Z) in *.
  destruct (push_times_spec PV 6 (simulate_vehicle draws fw fh) HbV
              (Z.to_nat nv) [] (S (S n))) as [vs [Hvs [Lvs Fvs]]].
  unfold bind at 1. rewrite Hvs. cbn [app].
  destruct (push_times_spec PP 5 (simulate_person draws fw fh) HbP
              (Z.to_nat np) vs (S (S n) + Z.to_nat nv * 6)%nat)
    as [ps [Hps [Lps Fps]]].
  unfold bind at 1. rewrite Hps. unfold ret.
  exists vs, ps. cbn [fst snd].
  split; [f_equal; f_equal; lia |].
  split; [exact Fvs |]. split; [exact Fps |].
  subst nv np. split; lia.
Qed.

(** X21.  With draws in [0, 1) the simulator returns an array for every
    scenario and every frame size: the vehicles it generated followed by
    the persons, between the scenario's least and greatest number of each
    (low 1..4 and 0..2, medium 3..8 and 1..5, high 6..15 and 3..10).  Every
    vehicle has one of the vehicle classes and the class id under which
    [TARGET_CLASSES] lists that class, every person class ["person"] and
    id 0.  The call makes two draws, six more per vehicle and five more
    per person. *)
Theorem simulateYoloDetection_counts (draws : nat -> Q) (fw fh : Q)
  (s : Scenario.t) (n : nat) :
  valid_draws draws ->
  exists vs ps,
    simulateYoloDetection draws fw fh s n
    = Some (vs ++ ps, (n + 2 + 6 * List.length vs + 5 * List.length ps)%nat) /\
    Forall vehicle_class vs /\ Forall person_class ps /\
    (fst (vehicleCounts s) <= Z.of_nat (List.length vs) <= snd (vehicleCounts s))%Z /\
    (fst (personCounts s) <= Z.of_nat (List.length ps) <= snd (personCounts s))%Z /\
    (1 <= Z.of_nat (List.length vs) <= 15)%Z /\
    (Z.of_nat (List.length ps) <= 10)%Z.
Proof.
  intro Hd.
  destruct (simulateYoloDetection_spec vehicle_class person_class
              draws fw fh s n Hd
              (fun m => simulate_vehicle_class draws fw fh m Hd)
              (fun m => simulate_person_class draws fw fh m))
    as (vs & ps & Hrun & Hvs & Hps & Hnv & Hnp).
  exists vs, ps.
  repeat (split; [assumption |]).
  destruct s; cbn [vehicleCounts personCounts fst snd] in *; lia.
Qed.

Lemma half_draws_valid : valid_draws half_draws.
Proof. intro n. unfold half_draws. split; lra. Qed.

Lemma simulateYoloDetection_counts_witness :
  exists vs ps,
    simulateYoloDetection half_draws 1920 1080 Scenario.medium 0%nat
    = Some (vs ++ ps, (0 + 2 + 6 * List.length vs + 5 * List.length ps)%nat) /\
    Forall vehicle_class vs /\ Forall person_class ps /\
    (fst (vehicleCounts Scenario.medium) <= Z.of_nat (List.length vs)
     <= snd (vehicleCounts Scenario.medium))%Z /\
    (fst (personCounts Scenario.medium) <= Z.of_nat (List.length ps)
     <= snd (personCounts Scenario.medium))%Z /\
    (1 <= Z.of_nat (List.length vs) <= 15)%Z /\
    (Z.of_nat (List.length ps) <= 10)%Z.
Proof.
  apply (simulateYoloDetection_counts half_draws 1920 1080 Scenario.medium 0%nat).
  exact half_draws_valid.
Defined.



Lemma person_class_flags (d : Detection) :
  person_class d -> is_person d = true /\ is_vehicle d = false.
Proof.
  intros [Hname _]. unfold is_person, is_vehicle. rewrite Hname.
  split; reflexivity.
Qed.

Lemma filter_all {A : Type} (p : A -> bool) (xs : list A) :
  (forall x, In x xs -> p x = true) -> filter p xs = xs.
Proof.
  induction xs as [| x xs IH]; intro H; [reflexivity |].
  cbn [filter]. rewrite (H x (or_introl eq_refl)). f_equal.
  apply IH. intros y Hy. apply H. right. exact Hy.
Qed.

(** The frame risk of vehicles of the vehicle classes followed by persons:
    the two counts are the lengths, and the score is at least three per
    vehicle and five per person, or 100. *)
Lemma frame_risk_of_classes (vs ps : list Detection) (w h : Q) :
  Forall vehicle_class vs -> Forall person_class ps ->
  vehicleCount (computeFrameRisk (vs ++ ps) w h) = Z.of_nat (List.length vs) /\
  personCount (computeFrameRisk (vs ++ ps) w h) = Z.of_nat (List.length ps) /\
  (Z.min 100 (3 * Z.of_nat (List.length vs) + 5 * Z.of_nat (List.length ps))
   <= score (computeFrameRisk (vs ++ ps) w h))%Z.
Proof.
  intros Hvs Hps. rewrite Forall_forall in Hvs, Hps.
  rewrite computeFrameRisk_frame_risk_ref. unfold frame_risk_ref.
  cbn [vehicleCount personCount score].
  assert (Hv : count_if is_vehicle (vs ++ ps) = Z.of_nat (List.length vs)).
  { rewrite count_if_app. unfold count_if at 1.
    rewrite filter_all by (intros d Hd; apply (Hvs d Hd)).
    rewrite count_if_none; [lia |].
    intros d Hd. apply (person_class_flags d (Hps d Hd)). }
  assert (Hp : count_if is_person (vs ++ ps) = Z.of_nat (List.length ps)).
  { rewrite count_if_app. unfold count_if at 2.
    rewrite filter_all by (intros d Hd; apply (person_class_flags d (Hps d Hd))).
    rewrite count_if_none; [lia |].
    intros d Hd. apply vehicle_not_person. apply (Hvs d Hd). }
  rewrite Hv, Hp.
  split; [reflexivity |]. split; [reflexivity |].
  pose proof (count_if_nonneg overlapping
                (unordered_pairs (filter is_vehicle (vs ++ ps)))) as Ho.
  pose proof (count_if_nonneg (in_proximity w h)
                (list_prod (filter is_vehicle (vs ++ ps))
                           (filter is_person (vs ++ ps)))) as Hx.
  unfold clamp. lia.
Qed.

(** X23.  The frame risk of what the simulator returns, for draws in
    [0, 1): the vehicle and person counts are the numbers generated, within
    the scenario's ranges, together they are all the detections, and the
    score is at least three per least vehicle plus five per least person
    of the scenario: 3 for low, 14 for medium, 33 for high. *)
Theorem simulated_frame_risk (draws : nat -> Q) (fw fh w h : Q)
  (s : Scenario.t) (n : nat) :
  valid_draws draws ->
  exists dets n',
    simulateYoloDetection draws fw fh s n = Some (dets, n') /\
    let f := computeFrameRisk dets w h in
    (fst (vehicleCounts s) <= vehicleCount f <= snd (vehicleCounts s))%Z /\
    (fst (personCounts s) <= personCount f <= snd (personCounts s))%Z /\
    (vehicleCount f + personCount f = Z.of_nat (List.length dets))%Z /\
    (floor_score s <= score f)%Z /\
    (3 <= score f)%Z.
Proof.
  intro Hd.
  destruct (simulateYoloDetection_spec vehicle_class person_class
              draws fw fh s n Hd
              (fun m => simulate_vehicle_class draws fw fh m Hd)
              (fun m => simulate_person_class draws fw fh m))
    as (vs & ps & Hrun & Hvs & Hps & Hnv & Hnp).
  exists (vs ++ ps). eexists. split; [exact Hrun |].
  destruct (frame_risk_of_classes vs ps w h Hvs Hps) as (Ev & Ep & Hscore).
  cbv zeta. rewrite Ev, Ep, length_app.
  split; [exact Hnv |]. split; [exact Hnp |]. split; [lia |].
  unfold floor_score.
  destruct s; cbn [vehicleCounts personCounts fst snd] in *; lia.
Qed.

Lemma simulated_frame_risk_witness :
  exists dets n',
    simulateYoloDetection half_draws 1920 1080 Scenario.high 0%nat
    = Some (dets, n') /\
    (33 <= score (computeFrameRisk dets 1920 1080))%Z.
Proof.
  destruct (simulated_frame_risk half_draws 1920 1080 1920 1080
              Scenario.high 0%nat half_draws_valid)
    as (dets & n' & Hrun & _ & _ & _ & Hfloor & _).
  exists dets, n'. split; [exact Hrun | exact Hfloor].
Defined.




(* ------------------------------------------------------------------ *)
(** ** The scenario of a frame *)

Lemma Math_abs_spec (q : Q) :
  0 <= Math_abs q /\ (Math_abs q == q \/ Math_abs q == - q) /\
  q <= Math_abs q /\ - q <= Math_abs q.
Proof.
  unfold Math_abs. destruct (Qltb q 0) eqn:E.
  - apply Qltb_lt in E.
    split; [lra |]. split; [right; reflexivity |]. split; lra.
  - apply Qltb_ge in E.
    split; [lra |]. split; [left; reflexivity |]. split; lra.
Qed.

Lemma peak_bonus_range (pos peak : Q) :
  0 <= peak_bonus pos peak /\ peak_bonus pos peak <= 1 # 2.
Proof.
  unfold peak_bonus. cbv zeta.
  destruct (Math_abs_spec (pos - peak)) as (H0 & _).
  destruct (Qltb _ _) eqn:E.
  - apply Qltb_lt in E. split; lra.
  - split; lra.
Qed.

Lemma peak_bonus_at (pos peak : Q) : pos == peak -> peak_bonus pos peak == 1 # 2.
Proof.
  intro H. unfold peak_bonus. cbv zeta.
  destruct (Math_abs_spec (pos - peak)) as (H0 & [Ha | Ha] & _).
  - destruct (Qltb _ _) eqn:E; [lra |]. apply Qltb_ge in E. lra.
  - destruct (Qltb _ _) eqn:E; [lra |]. apply Qltb_ge in E. lra.
Qed.

Lemma peak_bonus_far (pos peak : Q) :
  1 # 10 <= pos - peak \/ 1 # 10 <= peak - pos -> peak_bonus pos peak == 0.
Proof.
  intro H. unfold peak_bonus. cbv zeta.
  destruct (Math_abs_spec (pos - peak)) as (_ & _ & H1 & H2).
  destruct (Qltb _ _) eqn:E; [| reflexivity].
  apply Qltb_lt in E. destruct H; lra.
Qed.

(** The loop over the peaks adds the bonus of each peak. *)
Lemma peaks_loop (pos intensity : Q) :
  fold_left
    (fun intensity peak =>
       let distFromPeak := Math_abs (pos - peak) in
       if Qltb distFromPeak (1 # 10)
       then intensity + ((1 # 10) - distFromPeak) * 5
       else intensity)
    peakMoments intensity
  == intensity + peak_bonus pos (25 # 100) + peak_bonus pos (5 # 10)
     + peak_bonus pos (75 # 100).
Proof.
  unfold peakMoments, peak_bonus. cbn [fold_left]. cbv zeta.
  destruct (Qltb (Math_abs (pos - (25 # 100))) (1 # 10));
    destruct (Qltb (Math_abs (pos - (5 # 10))) (1 # 10));
    destruct (Qltb (Math_abs (pos - (75 # 100))) (1 # 10)); ring.
Qed.

Lemma div_of_Z_nonzero (i t : Z) :
  t <> 0%Z -> div (of_Z i) (of_Z t) = Fin (inject_Z i / inject_Z t).
Proof.
  intro Ht. unfold div, of_Z.
  rewrite Qeq_bool_false; [reflexivity |].
  unfold Qeq. simpl. lia.
Qed.

(** The scenario of a frame with a finite position: the thresholds applied
    to an intensity that is 0.3, the sine and draw terms and the bonuses of
    the three peaks. *)
Lemma getScenarioForFrame_finite (draws : nat -> Q) (Math_sin : Q -> Q)
  (i t : Z) (n : nat) :
  t <> 0%Z ->
  exists intensity,
    let pos := inject_Z i / inject_Z t in
    intensity == (3 # 10)
                 + (Math_sin (pos * Math_PI * 4) * (3 # 10) + draws n * (3 # 10))
                 + peak_bonus pos (25 # 100) + peak_bonus pos (5 # 10)
                 + peak_bonus pos (75 # 100) /\
    getScenarioForFrame draws Math_sin i t n
    = Some (if Qltb intensity (4 # 10) then Scenario.low
            else if Qltb intensity (7 # 10) then Scenario.medium
            else Scenario.high, S n).
Proof.
  intro Ht. unfold getScenarioForFrame. rewrite (div_of_Z_nonzero i t Ht).
  unfold bind, Math_random, ret. cbv zeta.
  eexists. split; [| reflexivity].
  apply peaks_loop.
Qed.

(** X25.  The scenario of a frame costs one draw.  With a frame total of 0
    it is high for every index.  With a frame total other than 0, draws in
    [0, 1) and a sine that lies in [-1, 1] and vanishes at 0: frame 0 is
    never high, and it is low exactly when the draw is below one third; a
    frame at a quarter, at half or at three quarters of the footage is
    never low. *)
Theorem getScenarioForFrame_cases (draws : nat -> Q) (Math_sin : Q -> Q)
  (n : nat) :
  valid_draws draws -> valid_sine Math_sin ->
  (forall i, getScenarioForFrame draws Math_sin i 0 n = Some (Scenario.high, S n)) /\
  (forall i t, exists s, getScenarioForFrame draws Math_sin i t n = Some (s, S n)) /\
  (forall t, t <> 0%Z ->
     getScenarioForFrame draws Math_sin 0 t n
     = Some (if Qltb (draws n) (1 # 3) then Scenario.low else Scenario.medium,
             S n)) /\
  (forall i t, t <> 0%Z ->
     (4 * i = t \/ 2 * i = t \/ 4 * i = 3 * t)%Z ->
     exists s, getScenarioForFrame draws Math_sin i t n = Some (s, S n) /\
               s <> Scenario.low).
Proof.
  intros Hd [Hsin Hsin0].
  assert (Hzero : forall i,
             getScenarioForFrame draws Math_sin i 0 n = Some (Scenario.high, S n)).
  { intro i. unfold getScenarioForFrame, div, of_Z.
    change (Qeq_bool (inject_Z 0) 0) with true. cbv iota.
    destruct (Qltb 0 (inject_Z i)); [reflexivity |].
    destruct (Qltb (inject_Z i) 0); reflexivity. }
  split; [exact Hzero |].
  split.
  { intros i t. destruct (Z.eq_dec t 0) as [-> | Ht].
    - eexists. apply Hzero.
    - destruct (getScenarioForFrame_finite draws Math_sin i t n Ht)
        as (x & _ & Hrun).
      eexists. exact Hrun. }
  pose proof (Hd n) as [R0 R1].
  split.
  - intros t Ht.
    destruct (getScenarioForFrame_finite draws Math_sin 0 t n Ht)
      as (x & Hx & Hrun).
    rewrite Hrun. f_equal. f_equal. cbv zeta in Hx.
    set (pos := inject_Z 0 / inject_Z t) in *.
    assert (Hpos : pos == 0) by (subst pos; unfold Qdiv; change (inject_Z 0) with 0; ring).
    assert (Hs : Math_sin (pos * Math_PI * 4) == 0).
    { apply Hsin0. rewrite Hpos. ring. }
    rewrite (peak_bonus_far pos (25 # 100)) in Hx by (right; lra).
    rewrite (peak_bonus_far pos (5 # 10)) in Hx by (right; lra).
    rewrite (peak_bonus_far pos (75 # 100)) in Hx by (right; lra).
    rewrite Hs in Hx.
    destruct (Qltb (draws n) (1 # 3)) eqn:E.
    + apply Qltb_lt in E.
      destruct (Qltb x (4 # 10)) eqn:E1; [reflexivity |].
      apply Qltb_ge in E1. lra.
    + apply Qltb_ge in E.
      destruct (Qltb x (4 # 10)) eqn:E1; [apply Qltb_lt in E1; lra |].
      destruct (Qltb x (7 # 10)) eqn:E2; [reflexivity |].
      apply Qltb_ge in E2. lra.
  - intros i t Ht Hpeak.
    destruct (getScenarioForFrame_finite draws Math_sin i t n Ht)
      as (x & Hx & Hrun).
    eexists. split; [exact Hrun |]. cbv zeta in Hx.
    set (pos := inject_Z i / inject_Z t) in *.
    pose proof (Hsin (pos * Math_PI * 4)) as [S0 S1].
    pose proof (peak_bonus_range pos (25 # 100)) as [P1 _].
    pose proof (peak_bonus_range pos (5 # 10)) as [P2 _].
    pose proof (peak_bonus_range pos (75 # 100)) as [P3 _].
    assert (Hti : ~ inject_Z t == 0).
    { unfold Qeq. simpl. lia. }
    assert (Hb : peak_bonus pos (25 # 100) == 1 # 2 \/
                 peak_bonus pos (5 # 10) == 1 # 2 \/
                 peak_bonus pos (75 # 100) == 1 # 2).
    { destruct Hpeak as [H | [H | H]].
      - left. apply peak_bonus_at. subst pos. rewrite <- H.
        rewrite inject_Z_mult. change (inject_Z 4) with 4.
        rewrite <- H in Hti. rewrite inject_Z_mult in Hti.
        change (inject_Z 4) with 4 in Hti. field. lra.
      - right. left. apply peak_bonus_at. subst pos. rewrite <- H.
        rewrite inject_Z_mult. change (inject_Z 2) with 2.
        rewrite <- H in Hti. rewrite inject_Z_mult in Hti.
        change (inject_Z 2) with 2 in Hti. field. lra.
      - right. right. apply peak_bonus_at. subst pos.
        assert (E : 4 * inject_Z i == 3 * inject_Z t).
        { change 4 with (inject_Z 4). change 3 with (inject_Z 3).
          rewrite <- !inject_Z_mult. rewrite H. reflexivity. }
        apply (Qmult_inj_r _ _ (inject_Z t) Hti).
        field_simplify; [| exact Hti]. lra. }
    destruct (Qltb x (4 # 10)) eqn:E1.
    + apply Qltb_lt in E1. destruct Hb as [Hb | [Hb | Hb]]; lra.
    + destruct (Qltb x (7 # 10)); discriminate.
Qed.

Lemma zero_sine_valid : valid_sine zero_sine.
Proof.
  split.
  - intro x. unfold zero_sine. split; lra.
  - intros x _. reflexivity.
Qed.

Lemma getScenarioForFrame_cases_witness :
  getScenarioForFrame half_draws zero_sine 0 150 0%nat
  = Some (Scenario.medium, 1%nat).
Proof.
  apply (getScenarioForFrame_cases half_draws zero_sine 0%nat
           half_draws_valid zero_sine_valid).
  discriminate.
Defined.

(* ------------------------------------------------------------------ *)
(** ** An analysis of simulated detections *)

(** The detections [analyzeVideo] obtains for a frame: vehicles of the
    vehicle classes followed by persons, within the ranges of a scenario
    that is not high for frame 0. *)
Lemma detect_frame_spec (draws : nat -> Q) (Math_sin : Q -> Q)
  (i t : Z) (n : nat) :
  valid_draws draws -> valid_sine Math_sin ->
  exists s vs ps n',
    detect_frame draws Math_sin i t n = Some (vs ++ ps, n') /\
    Forall vehicle_class vs /\ Forall person_class ps /\
    (fst (vehicleCounts s) <= Z.of_nat (List.length vs) <= snd (vehicleCounts s))%Z /\
    (fst (personCounts s) <= Z.of_nat (List.length ps) <= snd (personCounts s))%Z /\
    (i = 0%Z -> t <> 0%Z -> s <> Scenario.high).
Proof.
  intros Hd Hs.
  assert (Hsc : exists s,
             getScenarioForFrame draws Math_sin i t n = Some (s, S n) /\
             (i = 0%Z -> t <> 0%Z -> s <> Scenario.high)).
  { destruct (Z.eq_dec t 0) as [-> | Ht].
    - exists Scenario.high. split; [| intros _ H; contradiction].
      unfold getScenarioForFrame, div, of_Z.
      change (Qeq_bool (inject_Z 0) 0) with true. cbv iota.
      destruct (Qltb 0 (inject_Z i)); [reflexivity |].
      destruct (Qltb (inject_Z i) 0); reflexivity.
    - destruct (getScenarioForFrame_finite draws Math_sin i t n Ht)
        as (x & Hx & Hrun).
      eexists. split; [exact Hrun |]. intros -> _. cbv zeta in Hx.
      set (pos := inject_Z 0 / inject_Z t) in *.
      assert (Hpos : pos == 0)
        by (subst pos; unfold Qdiv; change (inject_Z 0) with 0; ring).
      assert (H0 : Math_sin (pos * Math_PI * 4) == 0).
      { apply (proj2 Hs). rewrite Hpos. ring. }
      rewrite (peak_bonus_far pos (25 # 100)) in Hx by (right; lra).
      rewrite (peak_bonus_far pos (5 # 10)) in Hx by (right; lra).
      rewrite (peak_bonus_far pos (75 # 100)) in Hx by (right; lra).
      rewrite H0 in Hx. pose proof (Hd n) as [R0 R1].
      destruct (Qltb x (4 # 10)); [discriminate |].
      destruct (Qltb x (7 # 10)) eqn:E; [discriminate |].
      apply Qltb_ge in E. lra. }
  destruct Hsc as (s & Hrun & Hfirst).
  destruct (simulateYoloDetection_spec vehicle_class person_class
              draws frameWidth frameHeight s (S n) Hd
              (fun m => simulate_vehicle_class draws _ _ m Hd)
              (fun m => simulate_person_class draws _ _ m))
    as (vs & ps & Hsim & Hvs & Hps & Hnv & Hnp).
  exists s, vs, ps. eexists.
  split; [unfold detect_frame, bind; rewrite Hrun; exact Hsim |].
  repeat (split; [assumption |]). exact Hfirst.
Qed.

(** A frame retained from a simulated source. *)
Lemma retained_simulated (draws : nat -> Q) (Math_sin : Q -> Q)
  (detect : Z -> list Detection) (frameSkip totalF : Z) (f : FrameAnalysis) :
  valid_draws draws -> valid_sine Math_sin ->
  simulated draws Math_sin totalF detect ->
  retained detect frameSkip totalF f ->
  (1 <= vehicleCount f <= 15)%Z /\ (0 <= personCount f <= 10)%Z /\
  (3 <= score f <= 100)%Z /\
  (frameIndex f = 0%Z -> (vehicleCount f <= 8)%Z /\ (personCount f <= 5)%Z).
Proof.
  intros Hd Hs Hsim (Hidx & _ & Hf).
  destruct (Hsim (frameIndex f)) as (n & n' & Hdet).
  destruct (detect_frame_spec draws Math_sin (frameIndex f) totalF n Hd Hs)
    as (s & vs & ps & n2 & Hrun & Hvs & Hps & Hnv & Hnp & Hfirst).
  assert (E : detect (frameIndex f) = vs ++ ps) by congruence.
  pose proof (score_computeFrameRisk_range (vs ++ ps) frameWidth frameHeight)
    as Hrange.
  destruct (frame_risk_of_classes vs ps frameWidth frameHeight Hvs Hps)
    as (Ev & Ep & Hscore).
  rewrite Hf. cbn [set_frameIndex vehicleCount personCount score frameIndex].
  rewrite E, Ev, Ep.
  assert (Hall : (1 <= Z.of_nat (List.length vs) <= 15 /\
                  0 <= Z.of_nat (List.length ps) <= 10)%Z)
    by (destruct s; cbn [vehicleCounts personCounts fst snd] in *; lia).
  split; [lia |]. split; [lia |]. split; [lia |].
  intro H0.
  assert (Hs' : s <> Scenario.high) by (apply Hfirst; lia).
  destruct s; cbn [vehicleCounts personCounts fst snd] in *;
    [lia | lia | congruence].
Qed.

Lemma one_decimal_between (sum lo hi : Z) (n : nat) :
  n <> O ->
  (lo * Z.of_nat n <= sum <= hi * Z.of_nat n)%Z ->
  exists q : Q,
    div (Math_round (mul (div (of_Z sum) (of_Z (Z.of_nat n))) (of_Z 10))) (of_Z 10)
    = Fin q /\ inject_Z lo <= q /\ q <= inject_Z hi.
Proof.
  intros Hn [Hlo Hhi].
  rewrite (div_of_Z_length sum n Hn). cbn [mul of_Z Math_round].
  set (m := inject_Z sum / inject_Z (Z.of_nat n)).
  assert (Hpos : 0 < inject_Z (Z.of_nat n)) by (unfold Qlt; simpl; lia).
  assert (Hm : inject_Z lo <= m /\ m <= inject_Z hi).
  { subst m. split.
    - apply Qle_shift_div_l; [exact Hpos |].
      rewrite <- inject_Z_mult, <- Zle_Qle. exact Hlo.
    - apply Qle_shift_div_r; [exact Hpos |].
      rewrite <- inject_Z_mult, <- Zle_Qle. exact Hhi. }
  destruct (round_between (10 * lo) (10 * hi) (m * inject_Z 10)) as [Klo Khi].
  { rewrite inject_Z_mult. change (inject_Z 10) with 10. lra. }
  { rewrite inject_Z_mult. change (inject_Z 10) with 10. lra. }
  exists (inject_Z (round (m * inject_Z 10)) / 10).
  split; [reflexivity |].
  rewrite Zle_Qle, inject_Z_mult in Klo, Khi.
  change (inject_Z 10) with 10 in *.
  split.
  - apply Qle_shift_div_l; lra.
  - apply Qle_shift_div_r; lra.
Qed.

(** X26.  An analysis with a positive cap and stride whose detections come
    from the simulator, for draws in [0, 1) and a sine in [-1, 1] that
    vanishes at 0: every analysed frame has between 1 and 15 vehicles, at
    most 10 persons and a score of at least 3; the first one is frame 0 and
    has at most 8 vehicles and 5 persons.  The result has a score between
    3 and 100, an average of between 1 and 15 vehicles and of at most 10
    persons, and a least frame score of at least 3. *)
Theorem analyzeVideo_simulated (draws : nat -> Q) (Math_sin : Q -> Q)
  (detect : Z -> list Detection) (maxFrames frameSkip : Z) :
  valid_draws draws -> valid_sine Math_sin ->
  (0 < maxFrames)%Z -> (0 < frameSkip)%Z ->
  simulated draws Math_sin (totalEstimatedFrames maxFrames frameSkip) detect ->
  exists frames r,
    processed_frames detect maxFrames frameSkip = Some frames /\
    run_result detect maxFrames frameSkip = Some r /\
    Forall (fun f => (1 <= vehicleCount f <= 15)%Z /\
                     (0 <= personCount f <= 10)%Z /\
                     (3 <= score f <= 100)%Z) frames /\
    (exists f rest, frames = f :: rest /\ frameIndex f = 0%Z /\
                    (vehicleCount f <= 8)%Z /\ (personCount f <= 5)%Z) /\
    (exists z, AnalysisResult.riskScore r = of_Z z /\ (3 <= z <= 100)%Z) /\
    (exists a, avgVehicles (AnalysisResult.frameStats r) = Fin a /\
               1 <= a /\ a <= 15) /\
    (exists b, avgPersons (AnalysisResult.frameStats r) = Fin b /\
               0 <= b /\ b <= 10) /\
    (exists lo, minScore (AnalysisResult.frameStats r) = of_Z lo /\ (3 <= lo)%Z).
Proof.
  intros Hd Hs Hm Hk Hsim.
  destruct (analyzeVideo_result detect maxFrames frameSkip)
    as (st & i & Hinv & Hframes & Hrun).
  destruct (processed_frames_stride detect maxFrames frameSkip Hm Hk)
    as (frames' & Hframes' & Hstride).
  assert (frames' = frameAnalyses st) by congruence. subst frames'.
  destruct Hinv as (_ & Hscores & _ & Hret & _).
  assert (Hall : Forall (fun f =>
             (1 <= vehicleCount f <= 15)%Z /\ (0 <= personCount f <= 10)%Z /\
             (3 <= score f <= 100)%Z /\
             (frameIndex f = 0%Z ->
              (vehicleCount f <= 8)%Z /\ (personCount f <= 5)%Z))
           (frameAnalyses st)).
  { eapply Forall_impl; [| exact Hret].
    intros f [Hf _].
    exact (retained_simulated draws Math_sin detect frameSkip _ f Hd Hs Hsim Hf). }
  exists (frameAnalyses st). eexists.
  split; [exact Hframes |].
  split; [unfold run_result; rewrite Hrun; reflexivity |].
  cbn [snd].
  destruct (frameAnalyses st) as [| f fs] eqn:Hfs.
  { unfold stride_indices in Hstride.
    destruct (Z.to_nat maxFrames) eqn:En; [lia | discriminate Hstride]. }
  assert (Hf0 : frameIndex f = 0%Z).
  { unfold stride_indices in Hstride.
    destruct (Z.to_nat maxFrames) eqn:En; [lia |].
    cbn [seq map] in Hstride. injection Hstride as Hhd _. lia. }
  assert (Hne : frameScores st <> []) by (rewrite Hscores; discriminate).
  rewrite Forall_forall in Hall.
  split.
  { apply Forall_forall. intros g Hg.
    destruct (Hall g Hg) as (A & B & C & _). repeat split; lia. }
  split.
  { exists f, fs. split; [reflexivity |]. split; [exact Hf0 |].
    apply (Hall f (or_introl eq_refl)). exact Hf0. }
  unfold assembled_result.
  cbn [AnalysisResult.riskScore AnalysisResult.frameStats minScore
       avgVehicles avgPersons].
  rewrite (aggregateVideoRisk_mean _ Hne). cbn [riskScore].
  assert (Hsc : forall x, In x (frameScores st) -> (3 <= x <= 100)%Z).
  { intros x Hx. rewrite Hscores in Hx. apply in_map_iff in Hx.
    destruct Hx as (g & <- & Hg). apply (Hall g Hg). }
  split.
  { destruct (mean_bounds 3 100 (frameScores st) Hne Hsc) as [Hlo Hhi].
    eexists. split; [reflexivity |].
    apply round_between; assumption. }
  rewrite !sum_field_total. unfold total_of.
  assert (Hv : forall x, In x (map vehicleCount (f :: fs)) -> (1 <= x <= 15)%Z).
  { intros x Hx. apply in_map_iff in Hx. destruct Hx as (g & <- & Hg).
    apply (Hall g Hg). }
  assert (Hp : forall x, In x (map personCount (f :: fs)) -> (0 <= x <= 10)%Z).
  { intros x Hx. apply in_map_iff in Hx. destruct Hx as (g & <- & Hg).
    apply (Hall g Hg). }
  pose proof (total_bounds 1 15 _ Hv) as Tv.
  pose proof (total_bounds 0 10 _ Hp) as Tp.
  rewrite length_map in Tv, Tp.
  split.
  { destruct (one_decimal_between _ 1 15 (List.length (f :: fs))
                ltac:(discriminate) Tv) as (a & Ea & Ha).
    exists a. split; [exact Ea | exact Ha]. }
  split.
  { destruct (one_decimal_between _ 0 10 (List.length (f :: fs))
                ltac:(discriminate) Tp) as (b & Eb & Hb).
    exists b. split; [exact Eb | exact Hb]. }
  destruct (frameScores st) as [| x xs] eqn:Hxs; [congruence |].
  cbn [Math_min_spread].
  destruct (fold_min_spec xs x) as [Hmin_in _].
  eexists. split; [reflexivity |]. apply (Hsc _ Hmin_in).
Qed.

Lemma detect_simulated_simulated (draws : nat -> Q) (Math_sin : Q -> Q) (t : Z) :
  valid_draws draws -> valid_sine Math_sin ->
  simulated draws Math_sin t (detect_simulated draws Math_sin t).
Proof.
  intros Hd Hs i.
  destruct (detect_frame_spec draws Math_sin i t 0 Hd Hs)
    as (s & vs & ps & n' & Hrun & _).
  exists 0%nat, n'. unfold detect_simulated. rewrite Hrun. reflexivity.
Qed.

Lemma analyzeVideo_simulated_witness :
  exists frames r,
    processed_frames (detect_simulated half_draws zero_sine 6) 3 2 = Some frames /\
    run_result (detect_simulated half_draws zero_sine 6) 3 2 = Some r /\
    exists z, AnalysisResult.riskScore r = of_Z z /\ (3 <= z <= 100)%Z.
Proof.
  destruct (analyzeVideo_simulated half_draws zero_sine
              (detect_simulated half_draws zero_sine 6) 3 2
              half_draws_valid zero_sine_valid
              ltac:(reflexivity) ltac:(reflexivity)
              (detect_simulated_simulated half_draws zero_sine 6
                 half_draws_valid zero_sine_valid))
    as (frames & r & Hf & Hr & _ & _ & Hz & _).
  exists frames, r. split; [exact Hf |]. split; [exact Hr | exact Hz].
Defined.

(* ------------------------------------------------------------------ *)
(** ** Upload progress *)




(* ------------------------------------------------------------------ *)
(** ** The summary of the detections *)

Lemma or_zero_Some (v : Z) : or_zero (Some v) = v.
Proof.
  unfold or_zero. destruct (Z.eqb_spec v 0) as [-> | _]; reflexivity.
Qed.

(** One round of the loop on a class that has no entry yet. *)
Lemma tally_step_new (counts : Counts) (cls : string) :
  existsb (String.eqb cls) (map fst counts) = false ->
  assign counts cls (or_zero (lookup counts cls) + 1)
  = counts ++ [(cls, 1%Z)].
Proof.
  unfold lookup.
  induction counts as [| [k v] rest IH]; intro H; [reflexivity |].
  cbn [map fst existsb] in H. apply orb_false_iff in H. destruct H as [Hk Hrest].
  rewrite String.eqb_sym in Hk.
  cbn [assign find fst app]. rewrite Hk. f_equal. apply IH. exact Hrest.
Qed.

(** One round of the loop on a class that has an entry. *)
Lemma tally_step_old (counts : Counts) (cls : string) :
  NoDup (map fst counts) ->
  existsb (String.eqb cls) (map fst counts) = true ->
  assign counts cls (or_zero (lookup counts cls) + 1)
  = map (fun e => (fst e, (snd e + if String.eqb cls (fst e) then 1 else 0)%Z))
        counts.
Proof.
  unfold lookup.
  induction counts as [| [k v] rest IH]; intros Hnd H; [discriminate |].
  cbn [map fst] in Hnd. inversion Hnd as [| ? ? Hnotin Hnd']; subst.
  cbn [map fst snd existsb] in *. cbn [assign find fst].
  rewrite (String.eqb_sym k cls).
  destruct (String.eqb cls k) eqn:E.
  - apply String.eqb_eq in E. subst k.
    cbn [option_map snd]. rewrite or_zero_Some. f_equal.
    rewrite <- (map_id rest) at 1. apply map_ext_in.
    intros [k' v'] Hin. cbn [fst snd].
    destruct (String.eqb cls k') eqn:E'.
    + apply String.eqb_eq in E'. subst k'. exfalso. apply Hnotin.
      apply in_map_iff. exists (cls, v'). split; [reflexivity | exact Hin].
    + f_equal. lia.
  - cbn [orb] in H. rewrite Z.add_0_r. f_equal. apply IH; assumption.
Qed.

Lemma existsb_eqb_In (cls : string) (names : list string) :
  existsb (String.eqb cls) names = true <-> In cls names.
Proof.
  rewrite existsb_exists. split.
  - intros (x & Hx & E). apply String.eqb_eq in E. subst x. exact Hx.
  - intro H. exists cls. split; [exact H | apply String.eqb_refl].
Qed.

Lemma occurrences_cons (cls : string) (d : Detection) (dets : list Detection) :
  occurrences cls (d :: dets)
  = ((if String.eqb (className d) cls then 1 else 0) + occurrences cls dets)%Z.
Proof.
  unfold occurrences. rewrite count_if_cons.
  destruct (String.eqb (className d) cls); lia.
Qed.

(** Detections dropped by a test on the class do not change the count of a
    class that passes the test. *)
Lemma occurrences_filter (p : string -> bool) (cls : string)
  (dets : list Detection) :
  p cls = true ->
  occurrences cls (filter (fun d => p (className d)) dets) = occurrences cls dets.
Proof.
  intro Hp. induction dets as [| d dets IH]; [reflexivity |].
  cbn [filter]. destruct (p (className d)) eqn:E.
  - rewrite !occurrences_cons, IH. reflexivity.
  - rewrite occurrences_cons, IH.
    destruct (String.eqb (className d) cls) eqn:E'; [| lia].
    apply String.eqb_eq in E'. congruence.
Qed.

Lemma map_className_filter (p : string -> bool) (dets : list Detection) :
  map className (filter (fun d => p (className d)) dets)
  = filter p (map className dets).
Proof.
  induction dets as [| d dets IH]; [reflexivity |].
  cbn [filter map]. destruct (p (className d)); cbn [map]; rewrite IH; reflexivity.
Qed.

Lemma filter_comm {A : Type} (p q : A -> bool) (xs : list A) :
  filter p (filter q xs) = filter q (filter p xs).
Proof.
  induction xs as [| x xs IH]; [reflexivity |].
  cbn [filter]. destruct (p x) eqn:Ep, (q x) eqn:Eq; cbn [filter];
    rewrite ?Ep, ?Eq, IH; reflexivity.
Qed.

Lemma filter_andb {A : Type} (p q : A -> bool) (xs : list A) :
  filter (fun x => p x && q x) xs = filter q (filter p xs).
Proof.
  induction xs as [| x xs IH]; [reflexivity |].
  cbn [filter]. destruct (p x) eqn:Ep; cbn [andb filter].
  - destruct (q x); rewrite IH; reflexivity.
  - exact IH.
Qed.

Lemma first_occurrences_filter (p : string -> bool) (names : list string) :
  first_occurrences (filter p names) = filter p (first_occurrences names).
Proof.
  induction names as [| x names IH]; [reflexivity |].
  cbn [filter first_occurrences]. destruct (p x) eqn:E.
  - cbn [first_occurrences]. rewrite IH. f_equal. apply filter_comm.
  - rewrite IH. symmetry. apply filter_filter_sub.
    intros y Hy. destruct (String.eqb x y) eqn:Exy; [| reflexivity].
    apply String.eqb_eq in Exy. congruence.
Qed.

Lemma first_occurrences_spec (names : list string) :
  NoDup (first_occurrences names) /\
  forall x, In x (first_occurrences names) <-> In x names.
Proof.
  induction names as [| y names [IHnd IHin]].
  - split; [constructor | reflexivity].
  - cbn [first_occurrences]. split.
    + constructor.
      * rewrite filter_In. intros [_ H]. rewrite String.eqb_refl in H. discriminate.
      * apply NoDup_filter. exact IHnd.
    + intro x. cbn [In]. rewrite filter_In, IHin. split.
      * intros [H | [H _]]; [left | right]; exact H.
      * intros [H | H]; [left; exact H |].
        destruct (String.eqb y x) eqn:E.
        -- left. apply String.eqb_eq. exact E.
        -- right. split; [exact H | reflexivity].
Qed.

(** The loop started on a table that holds distinct classes: it adds to
    every entry the number of detections of its class, and appends the
    classes it had no entry for, in the order of their first detection. *)
Lemma tally_loop (dets : list Detection) :
  forall counts : Counts,
    NoDup (map fst counts) ->
    fold_left
      (fun counts d =>
         assign counts (className d)
           (or_zero (lookup counts (className d)) + 1)%Z)
      dets counts
    = map (fun e => (fst e, (snd e + occurrences (fst e) dets)%Z)) counts
      ++ tally_ref
           (filter (fun d => negb (existsb (String.eqb (className d))
                                     (map fst counts))) dets).
Proof.
  induction dets as [| d dets IH]; intros counts Hnd.
  - cbn [fold_left filter]. unfold tally_ref. cbn [map first_occurrences].
    rewrite app_nil_r. rewrite <- (map_id counts) at 1.
    apply map_ext. intros [k v]. cbn [fst snd]. unfold occurrences, count_if.
    cbn [filter List.length]. f_equal. lia.
  - cbn [fold_left filter].
    destruct (existsb (String.eqb (className d)) (map fst counts)) eqn:E.
    + rewrite (tally_step_old counts (className d) Hnd E). cbn [negb].
      rewrite IH.
      2:{ rewrite map_map. cbn [fst]. exact Hnd. }
      rewrite !map_map. cbn [fst snd]. f_equal.
      apply map_ext. intros [k v]. cbn [fst snd].
      rewrite occurrences_cons. f_equal. lia.
    + rewrite (tally_step_new counts (className d) E). cbn [negb].
      assert (Hnew : ~ In (className d) (map fst counts)).
      { intro H. apply existsb_eqb_In in H. congruence. }
      rewrite IH.
      2:{ rewrite map_app. cbn [map fst]. apply NoDup_app.
          - exact Hnd.
          - constructor; [intros [] | constructor].
          - intros x Hx [<- | []]. exact (Hnew Hx). }
      rewrite map_app, <- app_assoc. cbn [map fst snd app].
      f_equal.
      { apply map_ext_in. intros [k v] Hin. cbn [fst snd].
        rewrite occurrences_cons.
        destruct (String.eqb (className d) k) eqn:Ek; [| reflexivity].
        apply String.eqb_eq in Ek. subst k. exfalso. apply Hnew.
        apply in_map_iff. exists (className d, v). split; [reflexivity | exact Hin]. }
      set (keep := fun cls => negb (existsb (String.eqb cls) (map fst counts))).
      set (other := fun cls => negb (String.eqb (className d) cls)).
      assert (Hkeep : keep (className d) = true)
        by (unfold keep; rewrite E; reflexivity).
      change (filter (fun d0 => negb (existsb (String.eqb (className d0))
                                        (map fst counts))) dets)
        with (filter (fun d0 => keep (className d0)) dets).
      set (D := filter (fun d0 => keep (className d0)) dets).
      assert (Hsplit :
        filter (fun d0 => negb (existsb (String.eqb (className d0))
                                  (map fst (counts ++ [(className d, 1%Z)])))) dets
        = filter (fun d0 => other (className d0)) D).
      { subst D. rewrite <- filter_andb. apply filter_ext. intro d0.
        rewrite map_app, existsb_app. cbn [map fst existsb].
        rewrite orb_false_r, negb_orb. unfold keep, other.
        rewrite (String.eqb_sym (className d0) (className d)). reflexivity. }
      rewrite Hsplit. unfold tally_ref. cbn [map first_occurrences].
      f_equal.
      { f_equal. rewrite occurrences_cons, String.eqb_refl. subst D.
        rewrite (occurrences_filter keep (className d) dets Hkeep). lia. }
      rewrite (map_className_filter other), first_occurrences_filter.
      fold other.
      apply map_ext_in. intros cls Hin. apply filter_In in Hin.
      destruct Hin as [_ Hother]. f_equal.
      rewrite (occurrences_filter other cls D Hother), occurrences_cons.
      unfold other in Hother. apply negb_true_iff in Hother.
      rewrite Hother. lia.
Qed.

Lemma tally_tally_ref (dets : list Detection) : tally dets = tally_ref dets.
Proof.
  unfold tally. rewrite (tally_loop dets [] (NoDup_nil _)).
  cbn [map app existsb negb]. f_equal.
  induction dets as [| d dets IH]; [reflexivity |].
  cbn [filter]. f_equal. exact IH.
Qed.

(** In a list without repetition the term of one class can be summed
    apart. *)
Lemma total_split (f : string -> Z) (cls : string) (names : list string) :
  NoDup names ->
  total (map f names)
  = ((if existsb (String.eqb cls) names then f cls else 0)
     + total (map f (filter (fun y => negb (String.eqb cls y)) names)))%Z.
Proof.
  induction names as [| x names IH]; intro Hnd; [reflexivity |].
  inversion Hnd as [| ? ? Hnotin Hnd']; subst.
  cbn [map existsb filter]. unfold total in *. cbn [fold_right].
  rewrite (IH Hnd').
  destruct (String.eqb cls x) eqn:E; cbn [negb orb map fold_right].
  - apply String.eqb_eq in E. subst x.
    destruct (existsb (String.eqb cls) names) eqn:E'; [| lia].
    apply existsb_eqb_In in E'. contradiction.
  - lia.
Qed.

Lemma occurrences_absent (cls : string) (dets : list Detection) :
  ~ In cls (map className dets) -> occurrences cls dets = 0%Z.
Proof.
  intro H. unfold occurrences. apply count_if_none.
  intros d Hd. destruct (String.eqb (className d) cls) eqn:E; [| reflexivity].
  apply String.eqb_eq in E. exfalso. apply H.
  apply in_map_iff. exists d. split; assumption.
Qed.

Lemma tally_ref_total (dets : list Detection) :
  total (map snd (tally_ref dets)) = Z.of_nat (List.length dets).
Proof.
  unfold tally_ref. rewrite map_map. cbn [snd].
  induction dets as [| d dets IH]; [reflexivity |].
  cbn [map first_occurrences]. unfold total in *. cbn [fold_right].
  destruct (first_occurrences_spec (map className dets)) as [Hnd Hin].
  pose proof (total_split (fun cls => occurrences cls dets) (className d)
                (first_occurrences (map className dets)) Hnd) as Hsplit.
  unfold total in Hsplit. rewrite IH in Hsplit.
  assert (Hrest :
    map (fun cls => occurrences cls (d :: dets))
        (filter (fun y => negb (String.eqb (className d) y))
                (first_occurrences (map className dets)))
    = map (fun cls => occurrences cls dets)
          (filter (fun y => negb (String.eqb (className d) y))
                  (first_occurrences (map className dets)))).
  { apply map_ext_in. intros cls Hcls. apply filter_In in Hcls.
    destruct Hcls as [_ Hne]. apply negb_true_iff in Hne.
    rewrite occurrences_cons, Hne. lia. }
  rewrite Hrest, occurrences_cons, String.eqb_refl.
  cbn [List.length]. rewrite Nat2Z.inj_succ.
  destruct (existsb (String.eqb (className d))
              (first_occurrences (map className dets))) eqn:E.
  - lia.
  - assert (Habs : occurrences (className d) dets = 0%Z).
    { apply occurrences_absent. intro H. apply Hin in H.
      apply existsb_eqb_In in H. congruence. }
    lia.
Qed.

Lemma entry_text_nonempty (entry : string * Z) : entry_text entry <> ""%string.
Proof.
  destruct entry as [cls c]. unfold entry_text.
  destruct (toString c); discriminate.
Qed.

Lemma concat_nonempty (sep x : string) (xs : list string) :
  x <> ""%string -> String.concat sep (x :: xs) <> ""%string.
Proof.
  intro Hx. cbn [String.concat].
  destruct xs as [| y ys]; [exact Hx |].
  destruct x; [congruence | discriminate].
Qed.

(** X28.  The table the summary is written from holds one entry per class
    detected, in the order of the first detection of each class, with the
    number of detections of that class: no class twice, every count at
    least 1, and the counts add up to the number of detections.  For
    detections of the target classes the summary is the entries' texts
    joined by a comma and a space, and it is empty only when there is no
    detection. *)
Theorem formatDetectionSummary_tally (dets : list Detection) :
  tally dets = tally_ref dets /\
  NoDup (map fst (tally dets)) /\
  (forall cls, In cls (map fst (tally dets)) <-> In cls (map className dets)) /\
  (forall cls c, In (cls, c) (tally dets) ->
                 c = occurrences cls dets /\ (1 <= c)%Z) /\
  total (map snd (tally dets)) = Z.of_nat (List.length dets) /\
  (Forall (fun d => In (className d) class_names) dets ->
   formatDetectionSummary dets
   = Some (String.concat ", " (map entry_text (tally_ref dets))) /\
   (formatDetectionSummary dets = Some ""%string <-> dets = [])).
Proof.
  rewrite tally_tally_ref.
  destruct (first_occurrences_spec (map className dets)) as [Hnd Hin].
  assert (Hkeys : map fst (tally_ref dets)
                  = first_occurrences (map className dets)).
  { unfold tally_ref. rewrite map_map. cbn [fst]. apply map_id. }
  split; [reflexivity |].
  split; [rewrite Hkeys; exact Hnd |].
  split; [intro cls; rewrite Hkeys; apply Hin |].
  split.
  { intros cls c Hc. unfold tally_ref in Hc. apply in_map_iff in Hc.
    destruct Hc as (cls' & Heq & Hcls). injection Heq as -> <-.
    split; [reflexivity |].
    apply Hin in Hcls. apply in_map_iff in Hcls.
    destruct Hcls as (d & Hname & Hd).
    unfold occurrences, count_if.
    assert (Hf : In d (filter (fun d0 => String.eqb (className d0) cls) dets)).
    { apply filter_In. split; [exact Hd |]. rewrite Hname. apply String.eqb_refl. }
    destruct (filter _ dets); [destruct Hf |]. cbn [List.length]. lia. }
  split; [apply tally_ref_total |].
  intro Hknown.
  assert (Hrun : formatDetectionSummary dets
                 = Some (String.concat ", " (map entry_text (tally_ref dets)))).
  { unfold formatDetectionSummary. rewrite tally_tally_ref.
    assert (Hall : forallb (fun d => includes class_names (className d)) dets = true).
    { apply forallb_forall. intros d Hd. unfold includes.
      apply existsb_eqb_In. rewrite Forall_forall in Hknown. exact (Hknown d Hd). }
    rewrite Hall. reflexivity. }
  split; [exact Hrun |].
  rewrite Hrun. split.
  - intro H. injection H as H.
    destruct dets as [| d dets]; [reflexivity |].
    exfalso. revert H. unfold tally_ref. cbn [map first_occurrences].
    apply concat_nonempty. apply entry_text_nonempty.
  - intros ->. reflexivity.
Qed.

Lemma formatDetectionSummary_tally_witness :
  formatDetectionSummary [car_at 0; person_at 500; car_at 200]
  = Some "2 cars, 1 person"%string.
Proof.
  destruct (formatDetectionSummary_tally [car_at 0; person_at 500; car_at 200])
    as (_ & _ & _ & _ & _ & Hknown).
  destruct Hknown as [Hrun _].
  - repeat constructor; vm_compute; tauto.
  - rewrite Hrun. reflexivity.
Defined.

(* ================================================================== *)
(** * Properties of the code in binary64 *)

(* ------------------------------------------------------------------ *)
(** ** Binary64 rounding *)

Lemma two_not_0 : ~ 2 == 0.
Proof. discriminate. Qed.

Lemma two_pow_pos (e : Z) : 0 < 2 ^ e.
Proof. apply Qpower_0_lt. reflexivity. Qed.

Lemma two_pow_succ (e : Z) : 2 ^ (e + 1) == 2 * 2 ^ e.
Proof. rewrite (Qpower_plus 2 e 1 two_not_0). change (2 ^ 1) with 2. ring. Qed.

Lemma two_pow_le (a b : Z) : (a <= b)%Z -> 2 ^ a <= 2 ^ b.
Proof. intro H. apply Qpower_le_compat_l; [exact H | discriminate]. Qed.

Lemma two_pow_lt_inv (a b : Z) : 2 ^ a < 2 ^ b -> (a < b)%Z.
Proof. intro H. apply (Qpower_lt_compat_l_inv 2); [exact H | reflexivity]. Qed.

(** [ilog2] is the exponent of the leading bit. *)
Lemma ilog2_spec (q : Q) :
  0 < q -> 2 ^ Binary64.ilog2 q <= q /\ q < 2 ^ (Binary64.ilog2 q + 1).
Proof.
  intro Hq. unfold Binary64.ilog2.
  destruct q as [n d]. cbn [Qnum Qden].
  assert (Hn : (0 < n)%Z) by (unfold Qlt in Hq; simpl in Hq; lia).
  set (a := Z.log2 n). set (b := Z.log2 (Z.pos d)).
  destruct (Z.log2_spec n Hn) as [Na Na'].
  destruct (Z.log2_spec (Z.pos d) ltac:(lia)) as [Db Db'].
  fold a in Na, Na'. fold b in Db, Db'.
  assert (Ha : (0 <= a)%Z) by apply Z.log2_nonneg.
  assert (Hb : (0 <= b)%Z) by apply Z.log2_nonneg.
  pose proof (two_pow_pos a) as PA. pose proof (two_pow_pos b) as PB.
  pose proof (two_pow_pos (a - b)) as PE.
  assert (EA : inject_Z (2 ^ a) == 2 ^ a) by (apply Zpower_Qpower; exact Ha).
  assert (EB : inject_Z (2 ^ b) == 2 ^ b) by (apply Zpower_Qpower; exact Hb).
  assert (Hq' : (n # d) * inject_Z (Z.pos d) == inject_Z n).
  { rewrite (Qmake_Qdiv n d). field. discriminate. }
  assert (HE : 2 ^ (a - b) * 2 ^ b == 2 ^ a).
  { rewrite (Qpower_minus 2 a b two_not_0). field. apply Qpower_not_0. discriminate. }
  assert (N1 : 2 ^ a <= inject_Z n) by (rewrite <- EA, <- Zle_Qle; exact Na).
  assert (N2 : inject_Z n < 2 * 2 ^ a).
  { rewrite <- EA. change 2 with (inject_Z 2) at 1. rewrite <- inject_Z_mult, <- Zlt_Qlt.
    rewrite Z.pow_succ_r in Na' by exact Ha. exact Na'. }
  assert (D1 : 2 ^ b <= inject_Z (Z.pos d)) by (rewrite <- EB, <- Zle_Qle; exact Db).
  assert (D2 : inject_Z (Z.pos d) < 2 * 2 ^ b).
  { rewrite <- EB. change 2 with (inject_Z 2) at 1. rewrite <- inject_Z_mult, <- Zlt_Qlt.
    rewrite Z.pow_succ_r in Db' by exact Hb. exact Db'. }
  set (A := 2 ^ a) in *. set (B := 2 ^ b) in *. set (P := 2 ^ (a - b)) in *.
  set (N := inject_Z n) in *. set (D := inject_Z (Z.pos d)) in *.
  set (q := n # d) in *.
  assert (Hup : q < 2 * P).
  { destruct (Qlt_le_dec q (2 * P)) as [H | H]; [exact H | exfalso].
    assert (q * D >= 2 * P * B) by nra. nra. }
  assert (Hlo : P < 2 * q).
  { destruct (Qlt_le_dec P (2 * q)) as [H | H]; [exact H | exfalso].
    assert (2 * q * D <= P * D) by nra. nra. }
  destruct (Qle_bool P q) eqn:E.
  - apply Qle_bool_iff in E. split; [exact E |].
    rewrite two_pow_succ. fold P. exact Hup.
  - assert (E' : q < P).
    { destruct (Qlt_le_dec q P) as [H | H]; [exact H |].
      apply Qle_bool_iff in H. congruence. }
    replace (a - b - 1 + 1)%Z with (a - b)%Z by lia. fold P.
    split; [| exact E'].
    assert (HP : P == 2 * 2 ^ (a - b - 1)).
    { unfold P. rewrite <- two_pow_succ. replace (a - b - 1 + 1)%Z with (a - b)%Z by lia.
      reflexivity. }
    lra.
Qed.

Lemma ilog2_mono (x y : Q) :
  0 < x -> x <= y -> (Binary64.ilog2 x <= Binary64.ilog2 y)%Z.
Proof.
  intros Hx Hxy.
  destruct (ilog2_spec x Hx) as [X1 _].
  destruct (ilog2_spec y ltac:(lra)) as [_ Y2].
  assert (H : 2 ^ Binary64.ilog2 x < 2 ^ (Binary64.ilog2 y + 1)) by lra.
  apply two_pow_lt_inv in H. lia.
Qed.

(** [nearest_even]: within one half, monotone, and the identity on the
    integers. *)
Lemma nearest_even_near (x : Q) :
  x - (1 # 2) <= inject_Z (Binary64.nearest_even x) /\
  inject_Z (Binary64.nearest_even x) <= x + (1 # 2).
Proof.
  unfold Binary64.nearest_even.
  pose proof (Qfloor_le x) as F1. pose proof (Qlt_floor x) as F2.
  rewrite inject_Z_plus in F2. change (inject_Z 1) with 1 in F2.
  destruct (Qcompare_spec (x - inject_Z (Qfloor x)) (1 # 2)) as [E | E | E].
  - destruct (Z.even (Qfloor x)).
    + split; lra.
    + rewrite inject_Z_plus. change (inject_Z 1) with 1. split; lra.
  - split; lra.
  - rewrite inject_Z_plus. change (inject_Z 1) with 1. split; lra.
Qed.

Lemma nearest_even_inject_Z (n : Z) : Binary64.nearest_even (inject_Z n) = n.
Proof.
  unfold Binary64.nearest_even. rewrite Qfloor_Z.
  destruct (Qcompare_spec (inject_Z n - inject_Z n) (1 # 2)) as [E | E | E].
  - exfalso. lra.
  - reflexivity.
  - exfalso. lra.
Qed.

Lemma nearest_even_mono (x y : Q) :
  x <= y -> (Binary64.nearest_even x <= Binary64.nearest_even y)%Z.
Proof.
  intro Hxy.
  assert (Hf : (Qfloor x <= Qfloor y)%Z) by (apply Qfloor_resp_le; exact Hxy).
  pose proof (Qfloor_le x) as X1. pose proof (Qlt_floor x) as X2.
  pose proof (Qfloor_le y) as Y1. pose proof (Qlt_floor y) as Y2.
  rewrite inject_Z_plus in X2, Y2. change (inject_Z 1) with 1 in X2, Y2.
  destruct (Z.eq_dec (Qfloor x) (Qfloor y)) as [Ef | Nf].
  - unfold Binary64.nearest_even. rewrite <- Ef.
    destruct (Qcompare_spec (x - inject_Z (Qfloor x)) (1 # 2)) as [E | E | E];
      destruct (Qcompare_spec (y - inject_Z (Qfloor x)) (1 # 2)) as [E' | E' | E'];
      try destruct (Z.even (Qfloor x)); try lia; exfalso; lra.
  - assert (Hlt : (Qfloor x + 1 <= Qfloor y)%Z) by lia.
    assert (Hx : (Binary64.nearest_even x <= Qfloor x + 1)%Z).
    { unfold Binary64.nearest_even.
      destruct (Qcompare (x - inject_Z (Qfloor x)) (1 # 2));
        try destruct (Z.even (Qfloor x)); lia. }
    assert (Hy : (Qfloor y <= Binary64.nearest_even y)%Z).
    { unfold Binary64.nearest_even.
      destruct (Qcompare (y - inject_Z (Qfloor y)) (1 # 2));
        try destruct (Z.even (Qfloor y)); lia. }
    lia.
Qed.

Lemma nearest_even_comp (x y : Q) :
  x == y -> Binary64.nearest_even x = Binary64.nearest_even y.
Proof.
  intro E. unfold Binary64.nearest_even.
  rewrite (Qfloor_comp x y E).
  assert (Ec : Qcompare (x - inject_Z (Qfloor y)) (1 # 2)
               = Qcompare (y - inject_Z (Qfloor y)) (1 # 2))
    by (rewrite E; reflexivity).
  rewrite Ec. reflexivity.
Qed.

Lemma ilog2_unique (q : Q) (e : Z) :
  0 < q -> 2 ^ e <= q -> q < 2 ^ (e + 1) -> Binary64.ilog2 q = e.
Proof.
  intros Hq H1 H2. destruct (ilog2_spec q Hq) as [S1 S2].
  assert (A : 2 ^ e < 2 ^ (Binary64.ilog2 q + 1)) by lra.
  assert (B : 2 ^ Binary64.ilog2 q < 2 ^ (e + 1)) by lra.
  apply two_pow_lt_inv in A. apply two_pow_lt_inv in B. lia.
Qed.

Lemma ilog2_comp (x y : Q) :
  0 < x -> x == y -> Binary64.ilog2 x = Binary64.ilog2 y.
Proof.
  intros Hx E. destruct (ilog2_spec x Hx) as [S1 S2].
  symmetry. apply (ilog2_unique y (Binary64.ilog2 x)); rewrite <- ?E; assumption.
Qed.

(** Equal rationals round to the same number, whatever their fractions. *)
Lemma fl_comp (x y : Q) : x == y -> Binary64.fl x = Binary64.fl y.
Proof.
  intro E. unfold Binary64.fl. rewrite (Qred_complete x y E). reflexivity.
Qed.

Lemma fl_0 : Binary64.fl 0 = 0.
Proof. reflexivity. Qed.

(** The rounding of a positive number: the nearest multiple of its
    spacing. *)
Lemma fl_pos (q : Q) :
  0 < q ->
  Binary64.fl q
  == inject_Z (Binary64.nearest_even (q / 2 ^ (Binary64.exponent q - 52)))
     * 2 ^ (Binary64.exponent q - 52).
Proof.
  intro Hq. unfold Binary64.fl.
  pose proof (Qred_correct q) as Hr.
  assert (Hr0 : 0 < Qred q) by (rewrite Hr; exact Hq).
  destruct (Qeq_bool (Qred q) 0) eqn:E.
  { apply Qeq_bool_iff in E. lra. }
  rewrite Qred_correct.
  assert (Hu : Binary64.ulp (Qred q) = 2 ^ (Binary64.exponent q - 52)).
  { unfold Binary64.ulp, Binary64.exponent. f_equal. f_equal. f_equal.
    apply ilog2_comp.
    - apply Qabs_case; intros; lra.
    - rewrite Qabs_pos by lra. exact Hr. }
  rewrite Hu.
  assert (Hq' : Qred q / 2 ^ (Binary64.exponent q - 52) == q / 2 ^ (Binary64.exponent q - 52))
    by (rewrite Hr; reflexivity).
  rewrite (nearest_even_comp _ _ Hq'). reflexivity.
Qed.

Lemma fl_nonneg (q : Q) : 0 <= q -> 0 <= Binary64.fl q.
Proof.
  intro Hq. destruct (Qlt_le_dec 0 q) as [Hpos | Hle].
  - rewrite (fl_pos q Hpos).
    pose proof (two_pow_pos (Binary64.exponent q - 52)) as Hu.
    assert (H0 : (0 <= Binary64.nearest_even (q / 2 ^ (Binary64.exponent q - 52)))%Z).
    { rewrite <- (nearest_even_inject_Z 0). apply nearest_even_mono.
      change (inject_Z 0) with 0. apply Qle_shift_div_l; lra. }
    rewrite Zle_Qle in H0. change (inject_Z 0) with 0 in H0. nra.
  - assert (E : q == 0) by lra. rewrite (fl_comp q 0 E), fl_0. lra.
Qed.

(** A positive number rounds to a number between the power of two at its
    leading bit and the next power of two. *)
Lemma fl_binade (q : Q) :
  0 < q ->
  Binary64.fl q <= 2 ^ (Binary64.exponent q + 1) /\
  ((-1022 <= Binary64.ilog2 q)%Z -> 2 ^ Binary64.exponent q <= Binary64.fl q).
Proof.
  intro Hq. rewrite (fl_pos q Hq).
  set (e := Binary64.exponent q).
  pose proof (two_pow_pos (e - 52)) as Hu.
  destruct (ilog2_spec q Hq) as [S1 S2].
  assert (He : (Binary64.ilog2 q <= e)%Z) by (unfold e, Binary64.exponent; lia).
  assert (E53 : 2 ^ (e + 1) == inject_Z (2 ^ 53) * 2 ^ (e - 52)).
  { rewrite (Zpower_Qpower 2 53) by lia. change (inject_Z 2) with 2.
    rewrite <- (Qpower_plus 2 53 (e - 52) two_not_0).
    replace (53 + (e - 52))%Z with (e + 1)%Z by lia. reflexivity. }
  assert (E52 : 2 ^ e == inject_Z (2 ^ 52) * 2 ^ (e - 52)).
  { rewrite (Zpower_Qpower 2 52) by lia. change (inject_Z 2) with 2.
    rewrite <- (Qpower_plus 2 52 (e - 52) two_not_0).
    replace (52 + (e - 52))%Z with e by lia. reflexivity. }
  split.
  - assert (Hle : q <= 2 ^ (e + 1)).
    { pose proof (two_pow_le (Binary64.ilog2 q + 1) (e + 1) ltac:(lia)). lra. }
    assert (Hs : q / 2 ^ (e - 52) <= inject_Z (2 ^ 53)).
    { apply Qle_shift_div_r; [exact Hu |]. rewrite <- E53. exact Hle. }
    apply nearest_even_mono in Hs. rewrite nearest_even_inject_Z in Hs.
    rewrite E53. rewrite Zle_Qle in Hs. nra.
  - intro Hnorm.
    assert (Ee : e = Binary64.ilog2 q) by (unfold e, Binary64.exponent; lia).
    assert (Hs : inject_Z (2 ^ 52) <= q / 2 ^ (e - 52)).
    { apply Qle_shift_div_l; [exact Hu |]. rewrite <- E52, Ee. exact S1. }
    apply nearest_even_mono in Hs. rewrite nearest_even_inject_Z in Hs.
    rewrite E52. rewrite Zle_Qle in Hs. nra.
Qed.

(** Rounding keeps the order of the non-negative numbers. *)
Lemma fl_mono (x y : Q) : 0 <= x -> x <= y -> Binary64.fl x <= Binary64.fl y.
Proof.
  intros Hx Hxy.
  destruct (Qlt_le_dec 0 x) as [Xpos | Xle].
  2:{ assert (E : x == 0) by lra. rewrite (fl_comp x 0 E), fl_0.
      apply fl_nonneg. lra. }
  assert (Ypos : 0 < y) by lra.
  pose proof (ilog2_mono x y Xpos Hxy) as Hlog.
  destruct (Z.eq_dec (Binary64.exponent x) (Binary64.exponent y)) as [Ee | Ne].
  - rewrite (fl_pos x Xpos), (fl_pos y Ypos), Ee.
    pose proof (two_pow_pos (Binary64.exponent y - 52)) as Hu.
    assert (Hs : x / 2 ^ (Binary64.exponent y - 52) <= y / 2 ^ (Binary64.exponent y - 52)).
    { apply Qmult_le_compat_r; [exact Hxy |].
      apply Qlt_le_weak, Qinv_lt_0_compat. exact Hu. }
    apply nearest_even_mono in Hs. rewrite Zle_Qle in Hs. nra.
  - assert (Hlt : (Binary64.exponent x + 1 <= Binary64.exponent y)%Z)
      by (unfold Binary64.exponent in *; lia).
    assert (Hnorm : (-1022 <= Binary64.ilog2 y)%Z)
      by (unfold Binary64.exponent in *; lia).
    destruct (fl_binade x Xpos) as [Hx1 _].
    destruct (fl_binade y Ypos) as [_ Hy1]. specialize (Hy1 Hnorm).
    pose proof (two_pow_le _ _ Hlt). lra.
Qed.

Lemma rounded_comp (x y : Q) : x == y -> Binary64.rounded x = Binary64.rounded y.
Proof. intro E. unfold Binary64.rounded. rewrite (fl_comp x y E). reflexivity. Qed.

(** A result that rounds within the finite range is that rounding. *)
Lemma rounded_finite (q : Q) :
  0 <= Binary64.fl q -> Binary64.fl q <= 100 ->
  Binary64.rounded q = Fin (Binary64.fl q).
Proof.
  intros H0 H1. unfold Binary64.rounded.
  assert (Hmax : 100 < Binary64.MAX_VALUE) by reflexivity.
  assert (Hmin : - Binary64.MAX_VALUE < 0) by reflexivity.
  rewrite (proj2 (Qltb_ge _ _)) by lra.
  rewrite (proj2 (Qltb_ge _ _)) by lra.
  reflexivity.
Qed.

Lemma fl_1 : Binary64.fl 1 = 1.
Proof. vm_compute. reflexivity. Qed.

Lemma fl_100 : Binary64.fl 100 = 100.
Proof. vm_compute. reflexivity. Qed.

Lemma literal_half : Binary64.literal (5 # 10) = Fin (1 # 2).
Proof. vm_compute. reflexivity. Qed.

Lemma literal_fifth :
  Binary64.literal (2 # 10) = Fin (3602879701896397 # 18014398509481984).
Proof. vm_compute. reflexivity. Qed.

Lemma literal_tenth :
  Binary64.literal (1 # 10) = Fin (3602879701896397 # 36028797018963968).
Proof. vm_compute. reflexivity. Qed.

(* ------------------------------------------------------------------ *)
(** ** Frame risk in binary64 *)

(** Two nested index loops that bump a counter on the pairs passing a test
    bump it once for each unordered pair of positions that passes. *)
Section PairLoops.

Variable step : list Detection -> nat -> nat -> Counters -> Counters.
Variable test : Detection * Detection -> bool.
Hypothesis step_spec :
  forall vehicles i j vi vj st,
    nth_error vehicles i = Some vi -> nth_error vehicles j = Some vj ->
    step vehicles i j st = if test (vi, vj) then bump_overlap st else st.

Lemma index_inner_loop (vehicles : list Detection) (i : nat) (v : Detection) :
  nth_error vehicles i = Some v ->
  forall (rest pre : list Detection) (st : Counters),
    vehicles = pre ++ rest ->
    fold_left (fun s j => step vehicles i j s)
              (seq (List.length pre) (List.length rest)) st
    = fold_left (fun s u => if test (v, u) then bump_overlap s else s) rest st.
Proof.
  intros Hv. induction rest as [| u rest IH]; intros pre st Heq.
  - reflexivity.
  - cbn [List.length seq fold_left].
    assert (Hu : nth_error vehicles (List.length pre) = Some u).
    { rewrite Heq, nth_error_app2, Nat.sub_diag by lia. reflexivity. }
    rewrite (step_spec vehicles i (List.length pre) v u st Hv Hu).
    replace (S (List.length pre)) with (List.length (pre ++ [u]))
      by (rewrite length_app; simpl; lia).
    rewrite (IH (pre ++ [u])).
    + reflexivity.
    + rewrite <- app_assoc. exact Heq.
Qed.

Lemma index_loops_count (vehicles : list Detection) (st : Counters) :
  for_range 0 (List.length vehicles)
    (fun i => for_range (i + 1) (List.length vehicles)
                (fun j => step vehicles i j)) st
  = Nat.iter (List.length (filter test (unordered_pairs vehicles)))
             bump_overlap st.
Proof.
  unfold for_range at 1. rewrite Nat.sub_0_r.
  assert (Hgen : forall (rest pre : list Detection) (st : Counters),
             vehicles = pre ++ rest ->
             fold_left (fun s i =>
                          for_range (i + 1) (List.length vehicles)
                            (fun j => step vehicles i j) s)
                       (seq (List.length pre) (List.length rest)) st
             = Nat.iter (List.length (filter test (unordered_pairs rest)))
                        bump_overlap st).
  { clear st. induction rest as [| v rest IH]; intros pre st Heq.
    - reflexivity.
    - cbn [List.length seq fold_left unordered_pairs].
      assert (Hv : nth_error vehicles (List.length pre) = Some v).
      { rewrite Heq, nth_error_app2, Nat.sub_diag by lia. reflexivity. }
      assert (Heq' : vehicles = (pre ++ [v]) ++ rest)
        by (rewrite <- app_assoc; exact Heq).
      assert (Hlen : List.length (pre ++ [v]) = (List.length pre + 1)%nat)
        by (rewrite length_app; reflexivity).
      unfold for_range at 2.
      replace (List.length vehicles - (List.length pre + 1))%nat
        with (List.length rest)
        by (rewrite Heq, length_app; simpl; lia).
      rewrite <- Hlen.
      rewrite (index_inner_loop vehicles (List.length pre) v Hv rest
                 (pre ++ [v]) st Heq').
      replace (S (List.length pre)) with (List.length (pre ++ [v])) by lia.
      rewrite (IH (pre ++ [v]) _ Heq').
      rewrite filter_app, length_app, <- iter_plus. f_equal.
      rewrite (fold_left_bump (fun u => test (v, u))).
      f_equal. clear. induction rest as [| u rest IH]; simpl.
      + reflexivity.
      + destruct (test (v, u)); simpl; rewrite IH; reflexivity. }
  apply (Hgen vehicles [] st). reflexivity.
Qed.

End PairLoops.

(** Two nested loops over two lists that bump a counter on the pairs
    passing a test bump it once for each pair of the product that passes. *)
Lemma product_loops_count
  (step : Detection -> Detection -> Counters -> Counters)
  (test : Detection * Detection -> bool)
  (vehicles persons : list Detection) (st : Counters) :
  (forall v p s, step v p s = if test (v, p) then bump_proximity s else s) ->
  for_of vehicles (fun v => for_of persons (fun p => step v p)) st
  = Nat.iter (List.length (filter test (list_prod vehicles persons)))
             bump_proximity st.
Proof.
  intro Hstep. unfold for_of. revert st.
  induction vehicles as [| v vehicles IH]; intro st.
  - reflexivity.
  - cbn [fold_left list_prod].
    rewrite IH, filter_app, length_app, <- iter_plus. f_equal.
    rewrite (fold_left_pointwise
               (fun s p => step v p s)
               (fun s p => if test (v, p) then bump_proximity s else s))
      by (intros; apply Hstep).
    rewrite (fold_left_bump (fun p => test (v, p))).
    f_equal. clear. induction persons as [| p persons IH]; simpl.
    + reflexivity.
    + destruct (test (v, p)); simpl; rewrite IH; reflexivity.
Qed.

(** The kernel functions compute what their names say. *)
Lemma iou_intersection_over_union (a b : BBox) :
  Binary64.iou a b = Binary64.intersection_over_union a b.
Proof.
  destruct a as [[[a0 a1] a2] a3], b as [[[b0 b1] b2] b3]. reflexivity.
Qed.

Lemma getCenter_midpoint (box : BBox) :
  Binary64.getCenter box = Binary64.midpoint box.
Proof. destruct box as [[[x1 y1] x2] y2]. reflexivity. Qed.

Lemma distance_euclidean (p q : number * number) :
  Binary64.distance p q = Binary64.euclidean_distance p q.
Proof. reflexivity. Qed.

Lemma mul_half (h : Q) :
  Binary64.mul (Fin h) (Binary64.literal (5 # 10))
  = Binary64.div (Fin h) (Fin 2).
Proof.
  rewrite literal_half. unfold Binary64.mul, Binary64.div, JS.mul, JS.div.
  change (Qeq_bool 2 0) with false. cbv iota.
  apply rounded_comp. field.
Qed.

Lemma mul_fifth (w : Q) :
  Binary64.mul (Fin w) (Binary64.literal (2 # 10))
  = Binary64.mul (Binary64.literal (2 # 10)) (Fin w).
Proof.
  rewrite literal_fifth. unfold Binary64.mul, JS.mul.
  apply rounded_comp. ring.
Qed.

Lemma overlap_step_spec (vehicles : list Detection) (i j : nat)
  (vi vj : Detection) (st : Counters) :
  nth_error vehicles i = Some vi -> nth_error vehicles j = Some vj ->
  Binary64.overlap_step vehicles i j st
  = if Binary64.overlapping (vi, vj) then bump_overlap st else st.
Proof.
  intros Hi Hj. unfold Binary64.overlap_step, Binary64.overlapping.
  rewrite Hi, Hj. cbn [fst snd]. rewrite iou_intersection_over_union.
  reflexivity.
Qed.

Lemma binary64_proximity_step_spec (w h : Q) (v p : Detection) (st : Counters) :
  Binary64.proximity_step w h v p st
  = if Binary64.in_proximity w h (v, p) then bump_proximity st else st.
Proof.
  unfold Binary64.proximity_step, Binary64.in_proximity. cbn [fst snd].
  rewrite (getCenter_midpoint (bbox v)).
  destruct (Binary64.midpoint (bbox v)) as [cx_v cy_v].
  rewrite (getCenter_midpoint (bbox p)).
  destruct (Binary64.midpoint (bbox p)) as [cx_p cy_p]. cbn [snd].
  rewrite mul_half, mul_fifth. reflexivity.
Qed.

Lemma binary64_computeFrameRisk_frame_risk_ref (dets : list Detection) (w h : Q) :
  Binary64.computeFrameRisk dets w h = Binary64.frame_risk_ref dets w h.
Proof.
  unfold Binary64.computeFrameRisk, Binary64.frame_risk_ref.
  change (fun d : Detection => includes VEHICLE_CLASSES (className d))
    with is_vehicle.
  change (fun d : Detection => String.eqb (className d) "person")
    with is_person.
  rewrite (index_loops_count Binary64.overlap_step Binary64.overlapping
             overlap_step_spec), iter_bump_overlap.
  rewrite (product_loops_count (Binary64.proximity_step w h)
             (Binary64.in_proximity w h)), iter_bump_proximity
    by (intros; apply binary64_proximity_step_spec).
  unfold count_if, clamp. cbn [c_score c_overlaps c_proximityRisks].
  f_equal; lia.
Qed.

(** C1, as the code has it.  [computeFrameRisk], computing in binary64 as
    [riskLogic.ts] does, returns the result of the reference algorithm
    evaluated in binary64: 3 per vehicle plus 5 per person, plus 20 and one
    overlap incident per unordered pair of distinct vehicles whose
    intersection over union, as a binary64 quotient, exceeds the binary64
    number 0.1, plus 30 and one proximity incident per vehicle-person pair
    with the person's box midpoint below half the height and the binary64
    Euclidean distance of the two midpoints below the binary64 product of
    0.2 and the width, the score clamped to 0..100.  Two vehicles whose
    computed IoU is the binary64 number 0.15 give, alone, score 26 and one
    overlap; the empty list gives score 0 and all four counts 0. *)
Theorem computeFrameRisk_reference :
  (forall dets w h,
     Binary64.computeFrameRisk dets w h = Binary64.frame_risk_ref dets w h) /\
  (forall d1 d2 w h,
     is_vehicle d1 = true -> is_vehicle d2 = true ->
     Binary64.iou (bbox d1) (bbox d2) = Binary64.literal (15 # 100) ->
     score (Binary64.computeFrameRisk [d1; d2] w h) = 26%Z /\
     overlaps (Binary64.computeFrameRisk [d1; d2] w h) = 1%Z) /\
  (forall w h,
     score (Binary64.computeFrameRisk [] w h) = 0%Z /\
     vehicleCount (Binary64.computeFrameRisk [] w h) = 0%Z /\
     personCount (Binary64.computeFrameRisk [] w h) = 0%Z /\
     overlaps (Binary64.computeFrameRisk [] w h) = 0%Z /\
     proximityRisks (Binary64.computeFrameRisk [] w h) = 0%Z).
Proof.
  split; [| split].
  - apply binary64_computeFrameRisk_frame_risk_ref.
  - intros d1 d2 w h Hv1 Hv2 Hiou.
    rewrite binary64_computeFrameRisk_frame_risk_ref.
    pose proof (vehicle_not_person d1 Hv1) as Hp1.
    pose proof (vehicle_not_person d2 Hv2) as Hp2.
    assert (Hov : Binary64.overlapping (d1, d2) = true).
    { unfold Binary64.overlapping. cbn [fst snd].
      rewrite <- iou_intersection_over_union, Hiou.
      vm_compute. reflexivity. }
    unfold Binary64.frame_risk_ref, count_if.
    cbn [filter]. rewrite Hv1, Hv2, Hp1, Hp2.
    cbn [unordered_pairs map app filter]. rewrite Hov.
    split; reflexivity.
  - intros w h. repeat split.
Qed.

Lemma computeFrameRisk_reference_witness :
  Binary64.computeFrameRisk frame_iou_015 1920 1080
  = Binary64.frame_risk_ref frame_iou_015 1920 1080 /\
  score (Binary64.computeFrameRisk frame_iou_015 1920 1080) = 26%Z /\
  overlaps (Binary64.computeFrameRisk frame_iou_015 1920 1080) = 1%Z.
Proof.
  destruct computeFrameRisk_reference as (Href & Hpair & _).
  split.
  - apply Href.
  - apply (Hpair (car_box (0, 0, 23 # 2, 1)) (car_box (17 # 2, 0, 20, 1))
             1920 1080).
    + reflexivity.
    + reflexivity.
    + vm_compute. reflexivity.
Defined.

(** C1, as stated, fails: the reference algorithm decides on the exact
    values, the code on binary64 values.  Every coordinate below is a
    binary64 number.  For the boxes (0, 0, 1, 1) and (0.1, 0.4, 2, 3) the
    intersection over union is below one tenth, so the reference counts no
    overlap and scores 6, and the code, whose quotient is
    0.10000000000000002, counts one and scores 26.  For (0, 0, 0.6, 4) and
    (0, 3.4, 0.6, 6) it is the reverse.  A car centred at (100, 600) and a
    pedestrian centred at (464.1043806382999, 722) are less than 384 apart,
    so the reference counts a proximity incident and scores 38, and the
    code, whose distance is 384, counts none and scores 8. *)
Lemma computeFrameRisk_exact_reference_differs :
  (forallb (fun x => Qeq_bool (Binary64.fl x) x)
     (coordinates (frame_below_tenth ++ frame_above_tenth ++ frame_near_384))
   = true) /\
  (score (Binary64.computeFrameRisk frame_below_tenth 1920 1080) = 26%Z /\
   overlaps (Binary64.computeFrameRisk frame_below_tenth 1920 1080) = 1%Z /\
   score (frame_risk_ref frame_below_tenth 1920 1080) = 6%Z /\
   overlaps (frame_risk_ref frame_below_tenth 1920 1080) = 0%Z) /\
  (score (Binary64.computeFrameRisk frame_above_tenth 1920 1080) = 6%Z /\
   overlaps (Binary64.computeFrameRisk frame_above_tenth 1920 1080) = 0%Z /\
   score (frame_risk_ref frame_above_tenth 1920 1080) = 26%Z /\
   overlaps (frame_risk_ref frame_above_tenth 1920 1080) = 1%Z) /\
  (score (Binary64.computeFrameRisk frame_near_384 1920 1080) = 8%Z /\
   proximityRisks (Binary64.computeFrameRisk frame_near_384 1920 1080) = 0%Z /\
   score (frame_risk_ref frame_near_384 1920 1080) = 38%Z /\
   proximityRisks (frame_risk_ref frame_near_384 1920 1080) = 1%Z).
Proof.
  split; [vm_compute; reflexivity |].
  split; [| split].
  - split; [vm_compute; reflexivity |].
    split; [vm_compute; reflexivity |].
    split; vm_compute; reflexivity.
  - split; [vm_compute; reflexivity |].
    split; [vm_compute; reflexivity |].
    split; vm_compute; reflexivity.
  - split; [vm_compute; reflexivity |].
    split; [vm_compute; reflexivity |].
    split; vm_compute; reflexivity.
Qed.

(* ------------------------------------------------------------------ *)
(** ** The progress values in binary64 *)

(** The binary64 quotient of an index by a larger total, and its binary64
    product with 100. *)
Lemma fl_quotient_range (totalFrames i : Z) :
  (0 < totalFrames)%Z -> (0 <= i)%Z ->
  0 <= Binary64.fl (inject_Z i / inject_Z totalFrames) /\
  0 <= Binary64.fl (Binary64.fl (inject_Z i / inject_Z totalFrames) * 100) /\
  ((i <= totalFrames)%Z ->
   Binary64.fl (inject_Z i / inject_Z totalFrames) <= 1 /\
   Binary64.fl (Binary64.fl (inject_Z i / inject_Z totalFrames) * 100) <= 100).
Proof.
  intros Ht Hi.
  pose proof (inject_Z_pos _ Ht) as Tpos.
  pose proof (inject_Z_nonneg _ Hi) as Inn.
  assert (Hq : 0 <= inject_Z i / inject_Z totalFrames)
    by (apply Qle_shift_div_l; [exact Tpos | lra]).
  pose proof (fl_nonneg _ Hq) as F0.
  assert (F1 : 0 <= Binary64.fl (Binary64.fl (inject_Z i / inject_Z totalFrames) * 100))
    by (apply fl_nonneg; lra).
  split; [exact F0 |]. split; [exact F1 |].
  intro Hle.
  assert (Hq1 : inject_Z i / inject_Z totalFrames <= 1).
  { apply Qle_shift_div_r; [exact Tpos |]. rewrite Zle_Qle in Hle. lra. }
  pose proof (fl_mono _ _ Hq Hq1) as G1. rewrite fl_1 in G1.
  split; [exact G1 |].
  apply (Qle_trans _ (Binary64.fl 100)); [apply fl_mono; lra |].
  rewrite fl_100. apply Qle_refl.
Qed.

Lemma binary64_progress_percent_range (totalFrames i : Z) :
  (0 < totalFrames)%Z -> (0 <= i)%Z ->
  (0 <= Binary64.progress_percent totalFrames i <= 95)%Z.
Proof.
  intros Ht Hi. unfold Binary64.progress_percent.
  destruct (fl_quotient_range totalFrames i Ht Hi) as (_ & F1 & _).
  pose proof (round_nonneg _ F1). lia.
Qed.

Lemma binary64_progress_percent_mono (totalFrames i j : Z) :
  (0 < totalFrames)%Z -> (0 <= i)%Z -> (i <= j)%Z ->
  (Binary64.progress_percent totalFrames i
   <= Binary64.progress_percent totalFrames j)%Z.
Proof.
  intros Ht Hi Hij. unfold Binary64.progress_percent.
  apply Z.min_le_compat_l, round_mono.
  pose proof (inject_Z_pos _ Ht) as Tpos.
  pose proof (inject_Z_nonneg _ Hi) as Inn.
  assert (Hq : inject_Z i <= inject_Z j) by (rewrite <- Zle_Qle; exact Hij).
  assert (H0 : 0 <= inject_Z i / inject_Z totalFrames)
    by (apply Qle_shift_div_l; [exact Tpos | lra]).
  assert (Hd : inject_Z i / inject_Z totalFrames <= inject_Z j / inject_Z totalFrames).
  { unfold Qdiv. apply Qmult_le_compat_r; [exact Hq |].
    apply Qlt_le_weak, Qinv_lt_0_compat, Tpos. }
  pose proof (fl_nonneg _ H0) as F0.
  pose proof (fl_mono _ _ H0 Hd) as F1.
  apply fl_mono; lra.
Qed.

(** At a multiple of the stride the percentage is that of the number of
    frames analysed before, out of the cap: the quotient is the same. *)
Lemma binary64_progress_percent_stride (maxFrames frameSkip k : Z) :
  (0 < maxFrames)%Z -> (0 < frameSkip)%Z ->
  Binary64.progress_percent (totalEstimatedFrames maxFrames frameSkip)
    (k * frameSkip)
  = Binary64.progress_percent maxFrames k.
Proof.
  intros Hm Hs. unfold Binary64.progress_percent, totalEstimatedFrames.
  f_equal. f_equal.
  assert (E : inject_Z (k * frameSkip) / inject_Z (maxFrames * frameSkip)
              == inject_Z k / inject_Z maxFrames).
  { rewrite !inject_Z_mult.
    pose proof (inject_Z_pos _ Hm). pose proof (inject_Z_pos _ Hs).
    field. split; lra. }
  rewrite (fl_comp _ _ E). reflexivity.
Qed.

(** The percentage computed in the loop body is [progress_percent]. *)
Lemma binary64_progress_value (totalFrames i : Z) :
  (0 <= i < totalFrames)%Z ->
  Binary64.progress i totalFrames
  = of_Z (Binary64.progress_percent totalFrames i).
Proof.
  intros [Hi Hlt].
  assert (Ht : (0 < totalFrames)%Z) by lia.
  destruct (fl_quotient_range totalFrames i Ht Hi) as (F0 & F1 & Hup).
  destruct (Hup ltac:(lia)) as [G0 G1].
  unfold Binary64.progress, Binary64.progress_percent.
  unfold Binary64.div at 1. unfold JS.div, of_Z at 2 3.
  rewrite Qeq_bool_false by (unfold Qeq; simpl; lia).
  rewrite rounded_finite by lra.
  unfold Binary64.mul, JS.mul, of_Z at 2.
  change (inject_Z 100) with 100.
  rewrite (rounded_finite _ F1 G1).
  cbn [Math_round]. unfold Binary64.Math_min, JS.Math_min, of_Z.
  set (r := round (Binary64.fl
                     (Binary64.fl (inject_Z i / inject_Z totalFrames) * 100))).
  destruct (Qle_bool (inject_Z 95) (inject_Z r)) eqn:E.
  - apply Qle_bool_iff in E. rewrite <- Zle_Qle in E.
    rewrite Z.min_l by exact E. reflexivity.
  - assert (Hr : (r < 95)%Z).
    { destruct (Z.lt_ge_cases r 95) as [H | H]; [exact H |].
      rewrite Zle_Qle in H. apply Qle_bool_iff in H. congruence. }
    rewrite Z.min_r by lia. reflexivity.
Qed.

(* ------------------------------------------------------------------ *)
(** ** The frame loop in binary64 *)

Section Binary64AnalysisFacts.

Variable detect : Z -> list Detection.
Variables maxFrames frameSkip : Z.

Let totalF : Z := totalEstimatedFrames maxFrames frameSkip.
Let Inv : Z -> LoopState -> Prop :=
  Binary64.loop_invariant detect frameSkip totalF.

Lemma binary64_invariant_next (i : Z) (st : LoopState) :
  Inv i st -> rem_ne0 i frameSkip = true -> Inv (i + 1) st.
Proof.
  intros (Hi & Hscores & Hlog & Hidx & Hsorted & Hall) Hrem.
  split; [lia |]. split; [exact Hscores |]. split; [exact Hlog |].
  split; [| split; [exact Hsorted |]].
  - eapply Forall_impl; [| exact Hidx]. cbv beta. intros f [Hr Hf].
    split; [exact Hr | lia].
  - intros j Hj Hrj. destruct (Z.eq_dec j i) as [-> | Hne]; [congruence |].
    apply Hall; [lia | exact Hrj].
Qed.

Lemma binary64_invariant_body (i : Z) (st : LoopState) :
  Inv i st -> (i < totalF)%Z -> rem_ne0 i frameSkip = false ->
  let fa :=
    set_frameIndex
      (Binary64.computeFrameRisk (detect i) frameWidth frameHeight) i in
  Inv (i + 1)
    (mkLoopState
       (push (frameAnalyses st) fa)
       (push (frameScores st) (score fa))
       (push (progressLog st) (Binary64.progress i totalF))).
Proof.
  intros (Hi & Hscores & Hlog & Hidx & Hsorted & Hall) Hlt Hrem fa.
  unfold Inv, Binary64.loop_invariant, push.
  cbn [frameAnalyses frameScores progressLog].
  assert (Hfa : frameIndex fa = i) by reflexivity.
  split; [| split; [| split; [| split; [| split]]]].
  - lia.
  - rewrite map_app, Hscores. reflexivity.
  - rewrite map_app, Hlog. cbn [map]. rewrite Hfa.
    rewrite binary64_progress_value by lia. reflexivity.
  - apply Forall_app. split.
    + eapply Forall_impl; [| exact Hidx]. cbv beta. intros f [Hr Hf].
      split; [exact Hr | lia].
    + constructor; [| constructor]. rewrite Hfa.
      split; [| lia]. unfold Binary64.retained. rewrite Hfa.
      split; [lia |]. split; [exact Hrem | reflexivity].
  - rewrite map_app. cbn [map]. rewrite Hfa.
    apply StronglySorted_snoc; [exact Hsorted |].
    apply Forall_map. eapply Forall_impl; [| exact Hidx].
    cbv beta. intros f [_ Hf]. exact Hf.
  - intros j Hj Hrj. rewrite map_app. apply in_or_app.
    destruct (Z.eq_dec j i) as [-> | Hne].
    + right. left. exact Hfa.
    + left. apply Hall; [lia | exact Hrj].
Qed.

(** The loop ends within its budget and keeps the invariant; it ends
    because the index reached the frame total or because the cap was
    reached. *)
Lemma binary64_frame_loop_invariant (fuel : nat) :
  forall (i : Z) (st : LoopState),
    Inv i st ->
    (Z.to_nat (totalF - i) <= fuel)%nat ->
    exists st' i',
      Binary64.frame_loop detect maxFrames frameSkip fuel i st = Some st' /\
      Inv i' st' /\
      ((totalF <= i')%Z \/
       (maxFrames <= Z.of_nat (List.length (frameAnalyses st')))%Z).
Proof.
  induction fuel as [| fuel IH]; intros i st Hinv Hfuel.
  - exists st, i. split; [| split; [exact Hinv | left; lia]].
    cbn [Binary64.frame_loop].
    change (totalEstimatedFrames maxFrames frameSkip) with totalF.
    destruct (Z.ltb_spec i totalF) as [Hlt | Hge]; [lia | reflexivity].
  - cbn [Binary64.frame_loop].
    change (totalEstimatedFrames maxFrames frameSkip) with totalF.
    destruct (Z.ltb_spec i totalF) as [Hlt | Hge];
      [| exists st, i; split; [reflexivity | split; [exact Hinv | left; lia]]].
    destruct (rem_ne0 i frameSkip) eqn:Hrem.
    + apply IH; [apply binary64_invariant_next; assumption | lia].
    + pose proof (binary64_invariant_body i st Hinv Hlt Hrem) as Hinv'.
      cbv zeta in Hinv'.
      match goal with
      | |- context [if ?c then Some ?s else _] =>
          destruct c eqn:Hcap;
          [exists s, (i + 1)%Z; split; [reflexivity | split; [exact Hinv' |]] |]
      end.
      * right. apply Z.geb_le in Hcap. exact Hcap.
      * apply IH; [exact Hinv' | lia].
Qed.

Lemma binary64_frame_loop_ends :
  exists st i',
    Binary64.frame_loop detect maxFrames frameSkip (Z.to_nat totalF) 0
      initial_state
    = Some st /\ Inv i' st /\
    ((totalF <= i')%Z \/
     (maxFrames <= Z.of_nat (List.length (frameAnalyses st)))%Z).
Proof.
  apply binary64_frame_loop_invariant.
  - split; [lia |]. split; [reflexivity |]. split; [reflexivity |].
    split; [constructor |]. split; [constructor |].
    intros j Hj. lia.
  - rewrite Z.sub_0_r. lia.
Qed.

End Binary64AnalysisFacts.

Section Binary64StrideFacts.

Variable detect : Z -> list Detection.
Variables maxFrames frameSkip : Z.
Hypothesis cap_positive : (0 < maxFrames)%Z.
Hypothesis stride_positive : (0 < frameSkip)%Z.

Let totalF : Z := totalEstimatedFrames maxFrames frameSkip.

Lemma binary64_frame_loop_stride (fuel : nat) :
  forall (i : Z) (st : LoopState),
    (0 <= i <= totalF)%Z ->
    map frameIndex (frameAnalyses st)
    = map (fun k => (Z.of_nat k * frameSkip)%Z)
          (seq 0 (Z.to_nat (count_below frameSkip i))) ->
    (Z.to_nat (totalF - i) <= fuel)%nat ->
    exists st',
      Binary64.frame_loop detect maxFrames frameSkip fuel i st = Some st' /\
      map frameIndex (frameAnalyses st') = stride_indices maxFrames frameSkip.
Proof.
  assert (Hend : forall st,
             map frameIndex (frameAnalyses st)
             = map (fun k => (Z.of_nat k * frameSkip)%Z)
                   (seq 0 (Z.to_nat (count_below frameSkip totalF))) ->
             map frameIndex (frameAnalyses st)
             = stride_indices maxFrames frameSkip).
  { intros st Hst. rewrite Hst. unfold totalF, totalEstimatedFrames.
    rewrite count_below_total by exact stride_positive. reflexivity. }
  induction fuel as [| fuel IH]; intros i st Hi Hidx Hfuel.
  - assert (i = totalF) by lia. subst i.
    exists st. split; [| apply Hend; exact Hidx].
    cbn [Binary64.frame_loop].
    change (totalEstimatedFrames maxFrames frameSkip) with totalF.
    rewrite Z.ltb_irrefl. reflexivity.
  - cbn [Binary64.frame_loop].
    change (totalEstimatedFrames maxFrames frameSkip) with totalF.
    destruct (Z.ltb_spec i totalF) as [Hlt | Hge].
    2:{ assert (i = totalF) by lia. subst i.
        exists st. split; [reflexivity | apply Hend; exact Hidx]. }
    unfold rem_ne0 at 1.
    destruct (Z.eqb_spec frameSkip 0) as [E | _]; [lia |].
    destruct (Z.eqb_spec (Z.rem i frameSkip) 0) as [Hrem | Hrem]; cbn [negb].
    + destruct (count_below_multiple frameSkip i stride_positive (proj1 Hi) Hrem)
        as (Hq & Hnext & Hq0).
      set (fa := set_frameIndex
                   (Binary64.computeFrameRisk (detect i) frameWidth frameHeight) i).
      assert (Hidx' :
                map frameIndex (push (frameAnalyses st) fa)
                = map (fun k => (Z.of_nat k * frameSkip)%Z)
                      (seq 0 (Z.to_nat (count_below frameSkip (i + 1))))).
      { unfold push. rewrite map_app, Hidx, Hnext, Z2Nat.inj_add by lia.
        change (Z.to_nat 1) with 1%nat. rewrite seq_app, map_app.
        cbn [seq map Nat.add]. rewrite Z2Nat.id by lia.
        change (frameIndex fa) with i. rewrite Hq. reflexivity. }
      cbn [frameAnalyses].
      destruct (Z.geb_spec
                  (Z.of_nat (List.length (push (frameAnalyses st) fa)))
                  maxFrames) as [Hcap | Hcap].
      * eexists. split; [reflexivity |]. cbn [frameAnalyses].
        rewrite Hidx'. unfold stride_indices. f_equal. f_equal.
        assert (Hlen : List.length (push (frameAnalyses st) fa)
                       = Z.to_nat (count_below frameSkip (i + 1))).
        { rewrite <- (length_map frameIndex), Hidx', length_map, length_seq.
          reflexivity. }
        assert (Hmax : (count_below frameSkip (i + 1) <= maxFrames)%Z).
        { rewrite <- (count_below_total frameSkip maxFrames stride_positive).
          apply count_below_mono; [exact stride_positive |].
          unfold totalF, totalEstimatedFrames in Hlt. lia. }
        lia.
      * apply IH; [lia | exact Hidx' | lia].
    + apply IH; [lia | | lia].
      rewrite (count_below_skip frameSkip i stride_positive (proj1 Hi) Hrem).
      exact Hidx.
Qed.

Lemma binary64_processed_frames_stride :
  exists frames,
    Binary64.processed_frames detect maxFrames frameSkip = Some frames /\
    map frameIndex frames = stride_indices maxFrames frameSkip.
Proof.
  destruct (binary64_frame_loop_stride (Z.to_nat totalF) 0 initial_state)
    as (st & Hloop & Hidx).
  - unfold totalF, totalEstimatedFrames. nia.
  - unfold count_below. rewrite Z.div_small by lia. reflexivity.
  - rewrite Z.sub_0_r. lia.
  - exists (frameAnalyses st). split; [| exact Hidx].
    unfold Binary64.processed_frames. fold totalF. rewrite Hloop. reflexivity.
Qed.

End Binary64StrideFacts.

Lemma binary64_percents_sorted (totalFrames : Z) (frames : list FrameAnalysis) :
  StronglySorted Z.lt (map frameIndex frames) ->
  Forall (fun f => (0 <= frameIndex f < totalFrames)%Z) frames ->
  StronglySorted Z.le
    (map (fun f => Binary64.progress_percent totalFrames (frameIndex f)) frames).
Proof.
  induction frames as [| f fs IH]; intros Hs Hall; cbn [map] in *.
  - constructor.
  - apply StronglySorted_inv in Hs. destruct Hs as [Hs Hf].
    inversion Hall as [| f' fs' Hfr Hrest]; subst.
    constructor; [apply IH; assumption |].
    apply Forall_map. rewrite Forall_map in Hf.
    eapply Forall_impl; [| exact Hf]. cbv beta. intros g Hg.
    apply binary64_progress_percent_mono; lia.
Qed.

Lemma binary64_percents_range (totalFrames : Z) (frames : list FrameAnalysis) :
  Forall (fun f => (0 <= frameIndex f < totalFrames)%Z) frames ->
  Forall (fun z => (0 <= z <= 95)%Z)
    (map (fun f => Binary64.progress_percent totalFrames (frameIndex f)) frames).
Proof.
  intro Hall. apply Forall_map. eapply Forall_impl; [| exact Hall].
  cbv beta. intros f Hf. apply binary64_progress_percent_range; lia.
Qed.

(** C6, as the code has it.  In every run the frames analysed are the
    retained frames, in increasing index, up to the frame total or to the
    cap; the progress callback receives, for each of them in order, the
    integer min(95, round(p)), where p is the binary64 product by 100 of
    the binary64 quotient frameIndex / totalEstimatedFrames, and then 100;
    the values never decrease, each is an integer between 0 and 100, and
    the last one is 100.  With a positive cap and stride the frames are
    those of the first [maxFrames] multiples of the stride, and the value
    reported at the frame number k (from 0) is that of the quotient
    k / maxFrames. *)
Theorem analyzeVideo_progress (detect : Z -> list Detection)
  (maxFrames frameSkip : Z) :
  exists frames log,
    Binary64.processed_frames detect maxFrames frameSkip = Some frames /\
    Binary64.progress_calls detect maxFrames frameSkip = Some log /\
    Forall (Binary64.retained detect frameSkip
              (totalEstimatedFrames maxFrames frameSkip))
           frames /\
    StronglySorted Z.lt (map frameIndex frames) /\
    (exists stop,
       ((totalEstimatedFrames maxFrames frameSkip <= stop)%Z \/
        (maxFrames <= Z.of_nat (List.length frames))%Z) /\
       forall j, (0 <= j < stop)%Z -> rem_ne0 j frameSkip = false ->
                 In j (map frameIndex frames)) /\
    ((0 < maxFrames)%Z -> (0 < frameSkip)%Z ->
     map frameIndex frames = stride_indices maxFrames frameSkip /\
     Binary64.reported_percents (totalEstimatedFrames maxFrames frameSkip) frames
     = map (fun k => Binary64.progress_percent maxFrames (Z.of_nat k))
           (seq 0 (Z.to_nat maxFrames)) ++ [100%Z]) /\
    log = map of_Z
            (Binary64.reported_percents
               (totalEstimatedFrames maxFrames frameSkip) frames) /\
    StronglySorted Z.le
      (Binary64.reported_percents
         (totalEstimatedFrames maxFrames frameSkip) frames) /\
    Forall (fun z => (0 <= z <= 100)%Z)
      (Binary64.reported_percents
         (totalEstimatedFrames maxFrames frameSkip) frames) /\
    last log NaN = of_Z 100.
Proof.
  destruct (binary64_frame_loop_ends detect maxFrames frameSkip)
    as (st & i & Hloop & Hinv & Hexit).
  destruct Hinv as (_ & _ & Hlog & Hidx & Hsorted & Hall).
  set (totalF := totalEstimatedFrames maxFrames frameSkip) in *.
  assert (Hframes : Binary64.processed_frames detect maxFrames frameSkip
                    = Some (frameAnalyses st)).
  { unfold Binary64.processed_frames. fold totalF. rewrite Hloop. reflexivity. }
  assert (Hcalls : Binary64.progress_calls detect maxFrames frameSkip
                   = Some (progressLog st ++ [of_Z 100])).
  { unfold Binary64.progress_calls. fold totalF. rewrite Hloop. reflexivity. }
  assert (Hret : Forall (Binary64.retained detect frameSkip totalF)
                        (frameAnalyses st)).
  { eapply Forall_impl; [| exact Hidx]. cbv beta. intros f [Hf _]. exact Hf. }
  assert (Hbounds : Forall (fun f => (0 <= frameIndex f < totalF)%Z)
                           (frameAnalyses st)).
  { eapply Forall_impl; [| exact Hret]. cbv beta. intros f [Hf _]. exact Hf. }
  pose proof (binary64_percents_range totalF _ Hbounds) as Hrange.
  exists (frameAnalyses st), (progressLog st ++ [of_Z 100]).
  split; [exact Hframes |]. split; [exact Hcalls |].
  split; [exact Hret |]. split; [exact Hsorted |].
  split; [exists i; split; [exact Hexit | exact Hall] |].
  split.
  { intros Hm Hs.
    destruct (binary64_processed_frames_stride detect maxFrames frameSkip Hm Hs)
      as (frames' & Hframes' & Hstride).
    assert (frames' = frameAnalyses st) by congruence. subst frames'.
    split; [exact Hstride |].
    unfold Binary64.reported_percents. f_equal.
    rewrite <- (map_map frameIndex (Binary64.progress_percent totalF)), Hstride.
    unfold stride_indices. rewrite map_map.
    apply map_ext. intro k.
    apply binary64_progress_percent_stride; assumption. }
  unfold Binary64.reported_percents.
  split; [| split; [| split]].
  - rewrite map_app, map_map, Hlog. reflexivity.
  - apply StronglySorted_snoc.
    + apply binary64_percents_sorted; assumption.
    + eapply Forall_impl; [| exact Hrange]. cbv beta. intros z Hz. lia.
  - apply Forall_app. split.
    + eapply Forall_impl; [| exact Hrange]. cbv beta. intros z Hz. lia.
    + constructor; [lia | constructor].
  - apply last_last.
Qed.

Lemma analyzeVideo_progress_witness :
  exists frames,
    Binary64.processed_frames detect_20 40 2 = Some frames /\
    map frameIndex frames = stride_indices 40 2 /\
    nth 23 (Binary64.reported_percents (totalEstimatedFrames 40 2) frames) 0%Z
    = 57%Z /\
    round (inject_Z 46 / inject_Z 80 * 100) = 58%Z.
Proof.
  destruct (analyzeVideo_progress detect_20 40 2)
    as (frames & log & Hframes & _ & _ & _ & _ & Hstride & _).
  exists frames. split; [exact Hframes |].
  destruct (Hstride ltac:(reflexivity) ltac:(reflexivity)) as [Hidx Hvals].
  split; [exact Hidx |]. split; [| reflexivity].
  rewrite Hvals. vm_compute. reflexivity.
Defined.

(** C6, as stated, fails.  With a cap of 3 frames and stride 1 the callback
    receives 0, 33, 67, 100: at the second frame the reported value is 33,
    which is neither min(95, 1/3 x 100) nor min(95, 2/3 x 100).  Nor is the
    value the rounding of the exact percentage: with a cap of 40 frames and
    stride 2 the frame of index 46 reports 57, the binary64 product being
    below 57.5, where the exact percentage 57.5 rounds to 58. *)
Lemma analyzeVideo_progress_is_rounded :
  Binary64.progress_calls detect_20 3 1
  = Some [of_Z 0; of_Z 33; of_Z 67; of_Z 100] /\
  ~ eqv (of_Z 33) (Fin (progress_fraction 1 3)) /\
  ~ eqv (of_Z 33) (Fin (progress_fraction 2 3)) /\
  option_map (fun log => nth 23 log NaN) (Binary64.progress_calls detect_20 40 2)
  = Some (of_Z 57) /\
  Binary64.mul (Binary64.div (of_Z 46) (of_Z 80)) (of_Z 100)
  = Fin (8092405580431359 # 140737488355328) /\
  (8092405580431359 # 140737488355328) < 575 # 10 /\
  inject_Z 46 / inject_Z 80 * 100 == 575 # 10 /\
  round (inject_Z 46 / inject_Z 80 * 100) = 58%Z.
Proof.
  split; [vm_compute; reflexivity |].
  split; [discriminate |]. split; [discriminate |].
  split; [vm_compute; reflexivity |].
  split; [vm_compute; reflexivity |].
  split; [reflexivity |].
  split; reflexivity.
Qed.

(* ------------------------------------------------------------------ *)
(** ** Cross-check of the rounding *)

(** On every progress product for the caps up to 100, and on the four
    operations and the square root over a grid of quotients, the rounding
    written out in [Binary64] gives the value the primitive binary64
    numbers give. *)
Lemma progress_matches_primitive_floats : check_progress 100 = true.
Proof. vm_compute. reflexivity. Qed.

Lemma operations_match_primitive_floats : check_operations 40 = true.
Proof. vm_compute. reflexivity. Qed.

(** An area beyond the largest number is infinite, and the intersection
    over union of such a box with itself is [NaN]. *)
Lemma iou_overflow :
  Binary64.iou (0, 0, 2 ^ 700, 2 ^ 700) (0, 0, 2 ^ 700, 2 ^ 700) = NaN.
Proof. vm_compute. reflexivity. Qed.
